(** * Property ETL pipeline: repair, validate, normalise

    A shallow embedding of the Python sources

      - [src/etl/preprocess.py]  (text repair engine),
      - [src/models/property.py] (schema validators),
      - [src/etl/extract.py]     (batch validation loop),
      - [src/etl/transform.py]   (denormaliser and dimension extractor),

    followed by the theorems that settle the specification's claims.

    Modelling conventions.

    - A Python [str] is a [string]; the repair engine works on its list of
      characters ([text]).  A character is an [ascii], read as the code
      point of the same number: the development covers the strings over
      U+0000 to U+00FF, and the character classes below are Python's on
      that range.  Strings with other characters are outside it.
    - A Python [int] is a [Z]; positions and lengths are [nat].
    - A Python [float] is a [pyfloat]: a finite float is kept as the exact
      rational it was read from (rounding to binary64 is not modelled),
      next to the two infinities and NaN.
    - A Python [set] of strings is a [gset string].
    - Code that can raise returns an explicit outcome.
    - Two libraries the sources call are not part of the repository: the
      number-word package is a parameter of the repair engine, and the type
      checks of the schema library are modelled for the float and string
      fields next to the validators. *)

From Stdlib Require Import List Ascii String ZArith QArith Lia Bool Sorted DecimalString.
From stdpp Require Import gmap strings.
Import ListNotations.

Local Open Scope bool_scope.
Local Open Scope list_scope.

(** ** Characters and text *)

Definition text := list ascii.

(** The double quote character. *)
Definition dquote : ascii := "034"%char.

(** [q s] reads [s] with every apostrophe standing for a double quote, so
    that JSON fragments can be written down as literals:
    [q "{'Bed': 3}"] is the text [{"Bed": 3}]. *)
Definition q (s : string) : text :=
  map (fun c => if Ascii.eqb c "'"%char then dquote else c) (list_ascii_of_string s).

Module Chars.

Definition code (c : ascii) : N := N_of_ascii c.

Definition in_range (lo hi : N) (c : ascii) : bool :=
  (lo <=? code c)%N && (code c <=? hi)%N.

(** [\s] of [re] on [str] patterns, [str.isspace] and what [str.strip]
    removes: tab, newline, vertical tab, form feed, carriage return, the
    separators 28..31, the space, next line (U+0085) and the no-break
    space (U+00A0). *)
Definition is_space (c : ascii) : bool :=
  in_range 9 13 c || in_range 28 32 c || (code c =? 133)%N || (code c =? 160)%N.

(** The whitespace of C's [isspace], which is what [float()] strips once
    it has made its argument ASCII. *)
Definition is_ascii_space (c : ascii) : bool := in_range 9 13 c || Ascii.eqb c " ".

(** The characters below U+0080. *)
Definition is_ascii (c : ascii) : bool := (code c <? 128)%N.

(** [\d] of [re] on [str] patterns, and the digits of a float literal:
    the decimal digits, which on this range are 0 to 9. *)
Definition is_digit (c : ascii) : bool := in_range 48 57 c.

(** [str.isdigit] on one character: the decimal digits and the
    superscripts two, three (U+00B2, U+00B3) and one (U+00B9). *)
Definition isdigit (c : ascii) : bool :=
  is_digit c || (code c =? 178)%N || (code c =? 179)%N || (code c =? 185)%N.

(** [[A-Z]], [[a-z]], [[a-zA-Z]]. *)
Definition is_upper (c : ascii) : bool := in_range 65 90 c.
Definition is_lower (c : ascii) : bool := in_range 97 122 c.
Definition is_alpha (c : ascii) : bool := is_upper c || is_lower c.

(** [[a-zA-Z_]] and [[a-zA-Z0-9_]]. *)
Definition is_ident_start (c : ascii) : bool := is_alpha c || Ascii.eqb c "_".
Definition is_ident_char (c : ascii) : bool :=
  is_alpha c || is_digit c || Ascii.eqb c "_".

(** [[,\}]] and [[\}\]]]. *)
Definition is_value_delim (c : ascii) : bool := Ascii.eqb c "," || Ascii.eqb c "}".
Definition is_closer (c : ascii) : bool := Ascii.eqb c "}" || Ascii.eqb c "]".

(** [str.lower], one character at a time: the capitals A to Z and those
    of U+00C0 to U+00DE, the multiplication sign (U+00D7) apart. *)
Definition lower (c : ascii) : ascii :=
  if is_upper c || (in_range 192 222 c && negb (code c =? 215)%N)
  then ascii_of_N (code c + 32) else c.

(** [str.upper], one character at a time: the small letters a to z and
    those of U+00E0 to U+00FE, the division sign (U+00F7) apart.  Three
    characters of the range have an upper-case form that is not one
    character of the range: the sharp s (SS), the micro sign and the y with
    diaeresis (both beyond U+00FF).  They are left as they are.  The
    sources compare an upper-cased string with YES and NO only, and return
    it when it is one of them; neither word holds one of the three
    characters nor one of their capitals, so every such comparison has the
    outcome it has in Python. *)
Definition upper (c : ascii) : ascii :=
  if is_lower c || (in_range 224 254 c && negb (code c =? 247)%N)
  then ascii_of_N (code c - 32) else c.

End Chars.

Import Chars.

(** [a == b] on strings. *)
Fixpoint text_eqb (a b : text) : bool :=
  match a, b with
  | [], [] => true
  | x :: a', y :: b' => Ascii.eqb x y && text_eqb a' b'
  | _, _ => false
  end.

Definition str_upper (t : text) : text := map upper t.
Definition str_lower (t : text) : text := map lower t.

(** [str.isdigit]: not empty and digits only. *)
Definition str_isdigit (t : text) : bool :=
  match t with [] => false | _ => forallb isdigit t end.

(** The longest prefix whose characters satisfy [p], and what follows it:
    what a greedy starred character class consumes. *)
Fixpoint span (p : ascii -> bool) (t : text) : text * text :=
  match t with
  | c :: t' => if p c then let (a, b) := span p t' in (c :: a, b) else ([], t)
  | [] => ([], [])
  end.

Fixpoint drop_while (p : ascii -> bool) (t : text) : text :=
  match t with
  | c :: t' => if p c then drop_while p t' else t
  | [] => []
  end.

(** The characters of class [p] removed at both ends. *)
Definition strip_with (p : ascii -> bool) (t : text) : text :=
  rev (drop_while p (rev (drop_while p t))).

(** [str.strip()]: whitespace removed at both ends. *)
Definition str_strip (t : text) : text := strip_with is_space t.

(** ** [re.sub] with a callback

    [pattern t] is the match of the regular expression anchored at the start
    of [t]: its groups and its length, or [None].  [re.sub] scans from the
    left; at a match it emits what the callback returns and continues right
    after the match, otherwise it copies one character.  No pattern of the
    engine matches the empty string.  The callback receives group 0 and the
    groups, and returns the replacement together with the entries it appends
    to [fixes]. *)

Section Sub.

Context {G E : Type}.
Variable pattern : text -> option (G * nat).
Variable callback : text -> G -> text * list E.

Fixpoint sub_from (skip : nat) (t : text) : text * list E :=
  match t with
  | [] => ([], [])
  | c :: t' =>
      match skip with
      | S k => sub_from k t'
      | O =>
          match pattern t with
          | Some (g, n) =>
              let (r, es) := callback (firstn n t) g in
              let (out, log) := sub_from (n - 1) t' in
              (r ++ out, es ++ log)
          | None =>
              let (out, log) := sub_from 0 t' in (c :: out, log)
          end
      end
  end.

Definition re_sub (t : text) : text * list E := sub_from 0 t.

End Sub.

(** ** The five repair rules of [repair_bareword_values]

    Each pattern is a sequence of character classes in which neighbouring
    classes are disjoint, so the backtracking matcher of [re] finds a match
    exactly when the greedy left-to-right reading below does, and the same
    one. *)

(** One entry of [fixes]; [describe] gives the message the source formats. *)
Inductive fix_entry : Type :=
| ConvertedNumberWord (bareword converted : string)
| QuotedBareword (bareword : string)
| QuotedNumberUnit (number unit : string)
| RemovedTrailingComma (closer : string)
| QuotedUnquotedKey (key : string)
| RemovedBareNumber (number : string).

Definition describe (f : fix_entry) : string :=
  match f with
  | ConvertedNumberWord b c =>
      String.append "Converted number word to digit: "
        (String.append b (String.append " → " c))
  | QuotedBareword b => String.append "Quoted bareword: " b
  | QuotedNumberUnit n u =>
      String.append "Quoted number with unit: " (String.append n (String.append " " u))
  | RemovedTrailingComma c => String.append "Removed trailing comma before " c
  | QuotedUnquotedKey k => String.append "Quoted unquoted key: " k
  | RemovedBareNumber n => String.append "Removed bare number in object: " n
  end.

(** The rule an entry comes from, numbered as the passes are applied. *)
Inductive rule : Type :=
| BarewordRule | NumberUnitRule | TrailingCommaRule | UnquotedKeyRule | BareNumberRule.

Definition rule_of (f : fix_entry) : rule :=
  match f with
  | ConvertedNumberWord _ _ | QuotedBareword _ => BarewordRule
  | QuotedNumberUnit _ _ => NumberUnitRule
  | RemovedTrailingComma _ => TrailingCommaRule
  | QuotedUnquotedKey _ => UnquotedKeyRule
  | RemovedBareNumber _ => BareNumberRule
  end.

Definition str (t : text) : string := string_of_list_ascii t.

(** [pattern_bareword]: a colon, [\s*], group 1 = [[A-Z][a-zA-Z]*], [\s*],
    group 2 = [[,\}]]. *)
Definition pattern_bareword (t : text) : option ((text * ascii) * nat) :=
  match t with
  | c0 :: r0 =>
      if Ascii.eqb c0 ":" then
        let (ws1, r1) := span is_space r0 in
        match r1 with
        | c :: r2 =>
            if is_upper c then
              let (w, r3) := span is_alpha r2 in
              let (ws2, r4) := span is_space r3 in
              match r4 with
              | d :: _ =>
                  if is_value_delim d
                  then Some ((c :: w, d), 1 + length ws1 + (1 + length w) + length ws2 + 1)
                  else None
              | [] => None
              end
            else None
        | [] => None
        end
      else None
  | [] => None
  end.

(** The optional [\.\d+] after the digits of a number: what it matches
    (nothing when no digit follows the point) and what comes after. *)
Definition optional_fraction (t : text) : text * text :=
  match t with
  | c :: r =>
      if Ascii.eqb c "." then
        let (fd, r') := span is_digit r in
        match fd with
        | [] => ([], t)
        | _ :: _ => (c :: fd, r')
        end
      else ([], t)
  | [] => ([], t)
  end.

(** [pattern_number_unit]: a colon, [\s*], group 1 = [\d+] with an optional
    [\.\d+], [\s+], group 2 = [[a-z]+], [\s*], group 3 = [[,\}]]. *)
Definition pattern_number_unit (t : text) : option ((text * text * ascii) * nat) :=
  match t with
  | c0 :: r0 =>
      if Ascii.eqb c0 ":" then
        let (ws1, r1) := span is_space r0 in
        let (ip, r2) := span is_digit r1 in
        match ip with
        | [] => None
        | _ :: _ =>
            let (fp, r3) := optional_fraction r2 in
            let (ws2, r4) := span is_space r3 in
            match ws2 with
            | [] => None
            | _ :: _ =>
                let (u, r5) := span is_lower r4 in
                match u with
                | [] => None
                | _ :: _ =>
                    let (ws3, r6) := span is_space r5 in
                    match r6 with
                    | d :: _ =>
                        if is_value_delim d
                        then Some ((ip ++ fp, u, d),
                                   1 + length ws1 + length ip + length fp
                                   + length ws2 + length u + length ws3 + 1)
                        else None
                    | [] => None
                    end
                end
            end
        end
      else None
  | [] => None
  end.

(** [pattern_trailing_comma]: a comma, [\s*], group 1 = [[\}\]]]. *)
Definition pattern_trailing_comma (t : text) : option (ascii * nat) :=
  match t with
  | c0 :: r0 =>
      if Ascii.eqb c0 "," then
        let (ws, r1) := span is_space r0 in
        match r1 with
        | c :: _ => if is_closer c then Some (c, 1 + length ws + 1) else None
        | [] => None
        end
      else None
  | [] => None
  end.

(** [pattern_unquoted_key]: an opening brace, [\s*],
    group 1 = [[a-zA-Z_][a-zA-Z0-9_]*], [\s*], a colon. *)
Definition pattern_unquoted_key (t : text) : option (text * nat) :=
  match t with
  | c0 :: r0 =>
      if Ascii.eqb c0 "{" then
        let (ws1, r1) := span is_space r0 in
        match r1 with
        | c :: r2 =>
            if is_ident_start c then
              let (k, r3) := span is_ident_char r2 in
              let (ws2, r4) := span is_space r3 in
              match r4 with
              | d :: _ =>
                  if Ascii.eqb d ":"
                  then Some (c :: k, 1 + length ws1 + (1 + length k) + length ws2 + 1)
                  else None
              | [] => None
              end
            else None
        | [] => None
        end
      else None
  | [] => None
  end.

(** [pattern_bare_number_in_object]: a comma, [\s*], group 1 = [\d+],
    [\s*], group 2 = [[,\}]]. *)
Definition pattern_bare_number_in_object (t : text) : option ((text * ascii) * nat) :=
  match t with
  | c0 :: r0 =>
      if Ascii.eqb c0 "," then
        let (ws1, r1) := span is_space r0 in
        let (n, r2) := span is_digit r1 in
        match n with
        | [] => None
        | _ :: _ =>
            let (ws2, r3) := span is_space r2 in
            match r3 with
            | d :: _ =>
                if is_value_delim d
                then Some ((n, d), 1 + length ws1 + length n + length ws2 + 1)
                else None
            | [] => None
            end
        end
      else None
  | [] => None
  end.

(** [bareword.lower() in {'true', 'false', 'null'}] *)
Definition is_reserved (bareword : text) : bool :=
  let w := str (str_lower bareword) in
  String.eqb w "true" || String.eqb w "false" || String.eqb w "null".

Section Repair.

(** [int(w2n.word_to_num(w))] of the [word2number] package, [None] when
    the call raises. *)
Variable word_to_num : string -> option Z.

(** [str(n)] for an [int]. *)
Definition str_of_int (n : Z) : text :=
  list_ascii_of_string (DecimalString.NilZero.string_of_int (Z.to_int n)).

Definition try_convert_number_word (word : text) : text :=
  match word with
  | [] => word
  | _ :: _ =>
      let word_lower := str_lower word in
      match word_to_num (str word_lower) with
      | Some result => str_of_int result
      | None => word
      end
  end.

Definition fix_any_bareword (group0 : text) (g : text * ascii) : text * list fix_entry :=
  let (bareword, delimiter) := g in
  if is_reserved bareword then (group0, [])
  else
    let converted := try_convert_number_word bareword in
    if negb (text_eqb converted bareword) && str_isdigit converted
    then (":"%char :: " "%char :: converted ++ [delimiter],
          [ConvertedNumberWord (str bareword) (str converted)])
    else (":"%char :: " "%char :: dquote :: bareword ++ [dquote; delimiter],
          [QuotedBareword (str bareword)]).

Definition fix_number_unit (group0 : text) (g : text * text * ascii) : text * list fix_entry :=
  let '(number, unit, delimiter) := g in
  (":"%char :: " "%char :: dquote :: number ++ " "%char :: unit ++ [dquote; delimiter],
   [QuotedNumberUnit (str number) (str unit)]).

Definition fix_trailing_comma (group0 : text) (closer : ascii) : text * list fix_entry :=
  ([closer], [RemovedTrailingComma (str [closer])]).

(** The replacement of the source is an f-string that spells an opening
    brace, two double quotes, the key, one double quote and a colon. *)
Definition fix_unquoted_key (group0 : text) (key : text) : text * list fix_entry :=
  ("{"%char :: dquote :: dquote :: key ++ [dquote; ":"%char],
   [QuotedUnquotedKey (str key)]).

Definition fix_bare_number (group0 : text) (g : text * ascii) : text * list fix_entry :=
  let (number, delimiter) := g in
  ([delimiter], [RemovedBareNumber (str number)]).

Definition bareword_pass := re_sub pattern_bareword fix_any_bareword.
Definition number_unit_pass := re_sub pattern_number_unit fix_number_unit.
Definition trailing_comma_pass := re_sub pattern_trailing_comma fix_trailing_comma.
Definition unquoted_key_pass := re_sub pattern_unquoted_key fix_unquoted_key.
Definition bare_number_pass := re_sub pattern_bare_number_in_object fix_bare_number.

(** The five passes in the order of the source, each on the output of the
    one before, all appending to the one list [fixes]. *)
Definition repair_text (raw : text) : text * list fix_entry :=
  let (t1, f1) := bareword_pass raw in
  let (t2, f2) := number_unit_pass t1 in
  let (t3, f3) := trailing_comma_pass t2 in
  let (t4, f4) := unquoted_key_pass t3 in
  let (t5, f5) := bare_number_pass t4 in
  (t5, f1 ++ f2 ++ f3 ++ f4 ++ f5).

Definition repair_bareword_values (raw_json_str : string) : string * list fix_entry :=
  let (repaired, fixes) := repair_text (list_ascii_of_string raw_json_str) in
  (str repaired, fixes).

End Repair.

(** ** Python values and floats *)

(** A finite float stands for the rational it was read from. *)
Inductive pyfloat : Type :=
| Finite (x : Q)
| Infinity (negative : bool)
| NaN.

(** What [json.loads] produces. *)
#[local] Set Warnings "-register-all".
Inductive pyvalue : Type :=
| PNone
| PBool (b : bool)
| PInt (n : Z)
| PFloat (f : pyfloat)
| PStr (s : string)
| PList (items : list pyvalue)
| PDict (entries : list (string * pyvalue)).

Inductive exn : Type := ValueError | TypeError | OverflowError.

Inductive result (A : Type) : Type :=
| Return (a : A)
| Raise (e : exn).
Arguments Return {A} a.
Arguments Raise {A} e.

(** The least magnitude that no longer rounds to a finite binary64: half
    an ulp above the largest finite float. *)
Definition float_overflow_threshold : Z := (2 ^ 1024 - 2 ^ 970)%Z.

(** [float(n)] for an [int]: [OverflowError] ("int too large to convert to
    float") from the threshold on. *)
Definition float_of_int (n : Z) : result pyfloat :=
  if (float_overflow_threshold <=? Z.abs n)%Z then Raise OverflowError
  else Return (Finite (inject_Z n)).

Definition digit_value (c : ascii) : Z := (Z.of_N (code c) - 48)%Z.

Definition digits_value (t : text) : Z :=
  fold_left (fun acc c => (10 * acc + digit_value c)%Z) t 0%Z.

(** The float denoted by mantissa [m] and decimal exponent [e]; a literal
    beyond the finite range reads as an infinity. *)
Definition decimal_float (negative : bool) (m e : Z) : pyfloat :=
  let x := if (0 <=? e)%Z then inject_Z (m * 10 ^ e) else Qred (Qmake m (Z.to_pos (10 ^ (- e)))) in
  if Qle_bool (inject_Z float_overflow_threshold) x then Infinity negative
  else Finite (if negative then Qred (Qopp x) else x).

Definition parse_sign (t : text) : bool * text :=
  match t with
  | "-"%char :: r => (true, r)
  | "+"%char :: r => (false, r)
  | _ => (false, t)
  end.

(** An unsigned decimal literal: digits with an optional point, at least one
    digit, and an optional exponent. *)
Definition parse_decimal (negative : bool) (t : text) : option pyfloat :=
  let (ip, r1) := span is_digit t in
  let (fp, r2) :=
    match r1 with
    | "."%char :: r => span is_digit r
    | _ => ([], r1)
    end in
  match ip ++ fp with
  | [] => None
  | _ :: _ =>
      let m := digits_value (ip ++ fp) in
      let e := (- Z.of_nat (length fp))%Z in
      match r2 with
      | [] => Some (decimal_float negative m e)
      | c :: r3 =>
          if Ascii.eqb (lower c) "e" then
            let (eneg, r4) := parse_sign r3 in
            let (ed, r5) := span is_digit r4 in
            match ed, r5 with
            | _ :: _, [] =>
                let x := digits_value ed in
                Some (decimal_float negative m (e + (if eneg then - x else x)))
            | _, _ => None
            end
          else None
      end
  end.

(** A float literal as both [float()] and the schema library read it: a
    sign, then [inf], [infinity] or [nan] in any case, or a decimal. *)
Definition float_literal (t : text) : option pyfloat :=
  let (negative, r) := parse_sign t in
  let w := str (str_lower r) in
  if String.eqb w "inf" || String.eqb w "infinity" then Some (Infinity negative)
  else if String.eqb w "nan" then Some NaN
  else parse_decimal negative r.

(** [float()] allows an underscore between two digits; [None] when an
    underscore stands elsewhere. *)
Fixpoint strip_digit_underscores (prev : option ascii) (t : text) : option text :=
  match t with
  | [] => match prev with Some "_"%char => None | _ => Some [] end
  | c :: t' =>
      if Ascii.eqb c "_" then
        match prev with
        | Some p => if is_digit p then strip_digit_underscores (Some c) t' else None
        | None => None
        end
      else
        match prev with
        | Some "_"%char =>
            if is_digit c then option_map (cons c) (strip_digit_underscores (Some c) t') else None
        | _ => option_map (cons c) (strip_digit_underscores (Some c) t')
        end
  end.

(** What [float()] does to a [str] first: an ASCII string is taken as it
    is; in another one, a whitespace character from U+007F on becomes a
    space and any other character from U+007F on (none is a decimal digit)
    a question mark, at which the conversion fails. *)
Definition to_ascii_space (s : text) : text :=
  if forallb is_ascii s then s
  else map (fun c => if (code c <? 127)%N then c
                     else if is_space c then " "%char else "?"%char) s.

(** [float(s)] for a [str]: [None] stands for [ValueError]. *)
Definition float_of_str (s : text) : option pyfloat :=
  match strip_digit_underscores None (strip_with is_ascii_space (to_ascii_space s)) with
  | Some t => float_literal t
  | None => None
  end.

(** The builtin [float(v)]. *)
Definition py_float (v : pyvalue) : result pyfloat :=
  match v with
  | PNone => Raise TypeError
  | PBool b => Return (Finite (inject_Z (if b then 1 else 0)))
  | PInt n => float_of_int n
  | PFloat f => Return f
  | PStr s =>
      match float_of_str (list_ascii_of_string s) with
      | Some f => Return f
      | None => Raise ValueError
      end
  | PList _ | PDict _ => Raise TypeError
  end.

(** ** The schema of [src/models/property.py]

    Each class is a record of its validated fields.  Each validator is a
    [mode="before"] validator: it receives the raw value of its field and
    returns the value handed on to the type check of the field. *)

Definition YES : text := list_ascii_of_string "YES".
Definition NO : text := list_ascii_of_string "NO".

Module ValuationRecord.

Record t : Type := {
  list_price : option pyfloat;
  previous_rent : option pyfloat;
  arv : option pyfloat;
  rent_zestimate : option pyfloat;
  low_fmr : option pyfloat;
  high_fmr : option pyfloat;
  zestimate : option pyfloat;
  expected_rent : option pyfloat;
  redfin_value : option pyfloat
}.

End ValuationRecord.

Module HOARecord.

Record t : Type := {
  hoa_amount : option pyfloat;
  hoa_flag : option string
}.

Definition validate_flag (v : pyvalue) : pyvalue :=
  match v with
  | PNone => PNone
  | PStr s =>
      let v_upper := str_upper (str_strip (list_ascii_of_string s)) in
      if negb (text_eqb v_upper YES || text_eqb v_upper NO) then PNone
      else PStr (str v_upper)
  | _ => PNone
  end.

End HOARecord.

Module RehabRecord.

Record t : Type := {
  underwriting_rehab : option pyfloat;
  rehab_calculation : option pyfloat;
  paint : option string;
  flooring_flag : option string;
  foundation_flag : option string;
  roof_flag : option string;
  hvac_flag : option string;
  kitchen_flag : option string;
  bathroom_flag : option string;
  appliances_flag : option string;
  windows_flag : option string;
  landscaping_flag : option string;
  trashout_flag : option string
}.

Definition normalize_flags (v : pyvalue) : pyvalue :=
  match v with
  | PNone => PNone
  | PStr s =>
      let v_upper := str_upper (str_strip (list_ascii_of_string s)) in
      if negb (text_eqb v_upper YES || text_eqb v_upper NO) then PNone
      else PStr (str v_upper)
  | _ => PNone
  end.

End RehabRecord.

Module Property.

Record t : Type := {
  property_title : string;
  address : string;
  street_address : string;
  city : string;
  state : string;
  zip_code : string;
  latitude : pyfloat;
  longitude : pyfloat;
  property_type : string;
  year_built : option Z;
  sqft_total : option pyfloat;
  sqft_basement : option pyfloat;
  sqft_mu : option pyfloat;
  bed : option Z;
  bath : option Z;
  layout : option string;
  pool : option string;
  parking : option string;
  basement_yes_no : option string;
  water : option string;
  sewage : option string;
  htw : option string;
  commercial : option string;
  highway : option string;
  train : option string;
  flood : option string;
  occupancy : option string;
  net_yield : option pyfloat;
  irr : option pyfloat;
  taxes : option pyfloat;
  tax_rate : option pyfloat;
  market : option string;
  source : option string;
  neighborhood_rating : option Z;
  school_average : option pyfloat;
  subdivision : option string;
  reviewed_status : option string;
  most_recent_status : option string;
  selling_reason : option string;
  final_reviewer : option string;
  seller_retained_broker : option string;
  rent_restricted : option string;
  valuation : list ValuationRecord.t;
  hoa : list HOARecord.t;
  rehab : list RehabRecord.t
}.

(** [c.isdigit() or c == "."] *)
Definition is_digit_or_point (c : ascii) : bool := isdigit c || Ascii.eqb c ".".

Definition clean_sqft_total (v : pyvalue) : result pyvalue :=
  match v with
  | PNone => Return PNone
  | PStr s =>
      let numeric_str := List.filter is_digit_or_point (list_ascii_of_string s) in
      match numeric_str with
      | [] => Return PNone
      | _ :: _ =>
          match py_float (PStr (str numeric_str)) with
          | Return f => Return (PFloat f)
          | Raise ValueError => Return PNone
          | Raise e => Raise e
          end
      end
  | _ =>
      match py_float v with
      | Return f => Return (PFloat f)
      | Raise ValueError | Raise TypeError => Return PNone
      | Raise e => Raise e
      end
  end.

Definition normalize_empty_strings (v : pyvalue) : pyvalue :=
  match v with
  | PStr s =>
      match str_strip (list_ascii_of_string s) with
      | [] => PNone
      | _ :: _ => v
      end
  | _ => v
  end.

Definition normalize_yes_no_flags (v : pyvalue) : pyvalue :=
  match v with
  | PNone => PNone
  | PStr s =>
      let v_upper := str_upper (str_strip (list_ascii_of_string s)) in
      if text_eqb v_upper YES || text_eqb v_upper NO then PStr (str v_upper)
      else v
  | _ => v
  end.

End Property.

(** ** Validation of one field

    The type check that follows a before-validator is the schema library's
    (pydantic, lax mode); it is not part of the repository and is modelled
    here for the two field types the claims speak of.  A field either
    validates, or adds a field error to the record's [ValidationError], or
    lets an exception other than [ValueError] escape [model_validate]. *)

Inductive field_outcome (A : Type) : Type :=
| Accepted (a : A)
| Rejected
| Escapes (e : exn).
Arguments Accepted {A} a.
Arguments Rejected {A}.
Arguments Escapes {A} e.

Definition run_before (before : option (pyvalue -> result pyvalue)) (v : pyvalue)
  : field_outcome pyvalue :=
  match before with
  | None => Accepted v
  | Some f =>
      match f v with
      | Return v' => Accepted v'
      | Raise ValueError => Rejected
      | Raise e => Escapes e
      end
  end.

(** The library trims a string with Rust's [str::trim], which removes
    the characters of the Unicode property White_Space: on this range tab
    to carriage return, the space, U+0085 and U+00A0. *)
Definition is_rust_space (c : ascii) : bool :=
  in_range 9 13 c || Ascii.eqb c " " || (code c =? 133)%N || (code c =? 160)%N.

Definition rust_trim (t : text) : text := strip_with is_rust_space t.

Fixpoint has_double_underscore (t : text) : bool :=
  match t with
  | "_"%char :: (("_"%char :: _) as t') => true
  | _ :: t' => has_double_underscore t'
  | [] => false
  end.

(** The library's second attempt on a string: underscores removed, unless
    one leads, one trails, two are adjacent or there is none. *)
Definition strip_underscores (t : text) : option text :=
  let is_us := fun c => Ascii.eqb c "_" in
  if match t with c :: _ => is_us c | [] => false end
     || match rev t with c :: _ => is_us c | [] => false end
     || negb (existsb is_us t)
     || has_double_underscore t
  then None
  else Some (List.filter (fun c => negb (is_us c)) t).

(** A string offered to a [float] field. *)
Definition lax_float_of_str (t : text) : option pyfloat :=
  match float_literal (rust_trim t) with
  | Some f => Some f
  | None =>
      match strip_underscores t with
      | Some t' => float_literal t'
      | None => None
      end
  end.

(** The type check of an [Optional[float]] field. *)
Definition optional_float_schema (v : pyvalue) : field_outcome (option pyfloat) :=
  match v with
  | PNone => Accepted None
  | PFloat f => Accepted (Some f)
  | PBool _ | PInt _ =>
      match py_float v with
      | Return f => Accepted (Some f)
      | Raise _ => Rejected
      end
  | PStr s =>
      match lax_float_of_str (list_ascii_of_string s) with
      | Some f => Accepted (Some f)
      | None => Rejected
      end
  | PList _ | PDict _ => Rejected
  end.

(** The type check of an [Optional[str]] field. *)
Definition optional_str_schema (v : pyvalue) : field_outcome (option string) :=
  match v with
  | PNone => Accepted None
  | PStr s => Accepted (Some s)
  | _ => Rejected
  end.

(** The float fields of [Property], under their aliases. *)
Inductive float_field : Type :=
| Latitude | Longitude | SQFT_Total | SQFT_Basement | SQFT_MU
| Net_Yield | IRR | Taxes | Tax_Rate | School_Average.

(** The [field_validator] decorators of [Property] on float fields. *)
Definition float_field_before (f : float_field) : option (pyvalue -> result pyvalue) :=
  match f with
  | SQFT_Total => Some Property.clean_sqft_total
  | _ => None
  end.

Definition float_field_required (f : float_field) : bool :=
  match f with
  | Latitude | Longitude => true
  | _ => false
  end.

Definition validate_float_field (f : float_field) (v : pyvalue)
  : field_outcome (option pyfloat) :=
  match run_before (float_field_before f) v with
  | Accepted v' =>
      match optional_float_schema v' with
      | Accepted None => if float_field_required f then Rejected else Accepted None
      | o => o
      end
  | Rejected => Rejected
  | Escapes e => Escapes e
  end.

(** The tri-state flag fields, under their aliases: the flag of
    [HOARecord], the ten condition flags of [RehabRecord] and the four
    yes/no fields of [Property]. *)
Inductive flag_field : Type :=
| HOA_Flag
| Flooring_Flag | Foundation_Flag | Roof_Flag | HVAC_Flag | Kitchen_Flag
| Bathroom_Flag | Appliances_Flag | Windows_Flag | Landscaping_Flag | Trashout_Flag
| Rent_Restricted | Pool | Commercial | HTW.

Definition is_property_flag (f : flag_field) : bool :=
  match f with
  | Rent_Restricted | Pool | Commercial | HTW => true
  | _ => false
  end.

(** The [field_validator] decorators on flag fields. *)
Definition flag_field_before (f : flag_field) : pyvalue -> pyvalue :=
  match f with
  | HOA_Flag => HOARecord.validate_flag
  | Rent_Restricted | Pool | Commercial | HTW => Property.normalize_yes_no_flags
  | _ => RehabRecord.normalize_flags
  end.

Definition validate_flag_field (f : flag_field) (v : pyvalue) : field_outcome (option string) :=
  optional_str_schema (flag_field_before f v).

(** ** The batch loop of [load_properties_from_json] ([src/etl/extract.py])

    The model starts at the parsed document [raw_data]; reading the file,
    repairing it and parsing it come before and are not part of it.
    [Property.model_validate] is a parameter: it returns the validated
    record, raises the library's [ValidationError], or lets another
    exception through. *)

Section Extract.

Variable Errors : Type.

Inductive validation : Type :=
| Validated (p : Property.t)
| ValidationError (e : Errors)
| OtherException (x : exn).

Variable model_validate : pyvalue -> validation.

Record invalid_record : Type := {
  record_index : nat;
  raw_record : pyvalue;
  errors : Errors
}.

(** How the call ends: it returns the two lists, or an exception leaves
    it.  The lists are kept in both cases, as they stand at that point. *)
Inductive ending : Type :=
| Returns
| RaisesValidationError (e : Errors)
| RaisesOther (x : exn).

Record run : Type := {
  valid_properties : list Property.t;
  invalid_records : list invalid_record;
  how : ending
}.

(** [raw_data[:n]] *)
Definition slice_to {A : Type} (n : Z) (l : list A) : list A :=
  if (0 <=? n)%Z then firstn (Z.to_nat n) l
  else firstn (Z.to_nat (Z.of_nat (length l) + n)) l.

(** The records to process: a document that is not a list is one record;
    a [max_records] that is neither [None] nor zero cuts the list. *)
Definition records_of (max_records : option Z) (raw_data : pyvalue) : list pyvalue :=
  let raw_data := match raw_data with PList l => l | _ => [raw_data] end in
  match max_records with
  | Some n => if (n =? 0)%Z then raw_data else slice_to n raw_data
  | None => raw_data
  end.

(** [for idx, raw_record in enumerate(raw_data, 1)] *)
Fixpoint validate_loop (skip_invalid : bool) (idx : nat) (raw_data : list pyvalue)
    (valid : list Property.t) (invalid : list invalid_record) : run :=
  match raw_data with
  | [] => {| valid_properties := valid; invalid_records := invalid; how := Returns |}
  | raw :: rest =>
      match model_validate raw with
      | Validated p => validate_loop skip_invalid (S idx) rest (valid ++ [p]) invalid
      | ValidationError e =>
          let invalid' :=
            invalid ++ [{| record_index := idx; raw_record := raw; errors := e |}] in
          if skip_invalid then validate_loop skip_invalid (S idx) rest valid invalid'
          else {| valid_properties := valid; invalid_records := invalid';
                  how := RaisesValidationError e |}
      | OtherException x =>
          {| valid_properties := valid; invalid_records := invalid; how := RaisesOther x |}
      end
  end.

Definition load_properties_from_json (max_records : option Z) (skip_invalid : bool)
    (raw_data : pyvalue) : run :=
  validate_loop skip_invalid 1 (records_of max_records raw_data) [] [].

End Extract.

Arguments Validated {Errors} p.
Arguments ValidationError {Errors} e.
Arguments OtherException {Errors} x.
Arguments record_index {Errors} i.
Arguments raw_record {Errors} i.
Arguments errors {Errors} i.
Arguments valid_properties {Errors} r.
Arguments invalid_records {Errors} r.
Arguments how {Errors} r.
Arguments Returns {Errors}.
Arguments RaisesValidationError {Errors} e.
Arguments RaisesOther {Errors} x.
Arguments validate_loop {Errors} model_validate skip_invalid idx raw_data valid invalid.
Arguments load_properties_from_json {Errors} model_validate max_records skip_invalid raw_data.

(** ** The denormaliser ([src/etl/transform.py])

    A row is the dictionary the source builds, as a record of its keys. *)

Module PropertyRow.

Record t : Type := {
  property_title : string;
  address : string;
  street_address : string;
  city : string;
  state : string;
  zip_code : string;
  latitude : pyfloat;
  longitude : pyfloat;
  property_type : string;
  year_built : option Z;
  sqft_total : option pyfloat;
  sqft_basement : option pyfloat;
  sqft_mu : option pyfloat;
  bed : option Z;
  bath : option Z;
  layout : option string;
  pool : option string;
  parking : option string;
  basement_yes_no : option string;
  water : option string;
  sewage : option string;
  htw : option string;
  commercial : option string;
  highway : option string;
  train : option string;
  flood : option string;
  occupancy : option string;
  net_yield : option pyfloat;
  irr : option pyfloat;
  taxes : option pyfloat;
  tax_rate : option pyfloat;
  market : option string;
  source : option string;
  neighborhood_rating : option Z;
  school_average : option pyfloat;
  subdivision : option string;
  reviewed_status : option string;
  most_recent_status : option string;
  selling_reason : option string;
  final_reviewer : option string;
  seller_retained_broker : option string;
  rent_restricted : option string
}.

Definition of_property (p : Property.t) : t := {|
  property_title := Property.property_title p;
  address := Property.address p;
  street_address := Property.street_address p;
  city := Property.city p;
  state := Property.state p;
  zip_code := Property.zip_code p;
  latitude := Property.latitude p;
  longitude := Property.longitude p;
  property_type := Property.property_type p;
  year_built := Property.year_built p;
  sqft_total := Property.sqft_total p;
  sqft_basement := Property.sqft_basement p;
  sqft_mu := Property.sqft_mu p;
  bed := Property.bed p;
  bath := Property.bath p;
  layout := Property.layout p;
  pool := Property.pool p;
  parking := Property.parking p;
  basement_yes_no := Property.basement_yes_no p;
  water := Property.water p;
  sewage := Property.sewage p;
  htw := Property.htw p;
  commercial := Property.commercial p;
  highway := Property.highway p;
  train := Property.train p;
  flood := Property.flood p;
  occupancy := Property.occupancy p;
  net_yield := Property.net_yield p;
  irr := Property.irr p;
  taxes := Property.taxes p;
  tax_rate := Property.tax_rate p;
  market := Property.market p;
  source := Property.source p;
  neighborhood_rating := Property.neighborhood_rating p;
  school_average := Property.school_average p;
  subdivision := Property.subdivision p;
  reviewed_status := Property.reviewed_status p;
  most_recent_status := Property.most_recent_status p;
  selling_reason := Property.selling_reason p;
  final_reviewer := Property.final_reviewer p;
  seller_retained_broker := Property.seller_retained_broker p;
  rent_restricted := Property.rent_restricted p
|}.

End PropertyRow.

Module ValuationRow.

Record t : Type := {
  property_id : nat;
  valuation_index : nat;
  list_price : option pyfloat;
  previous_rent : option pyfloat;
  arv : option pyfloat;
  rent_zestimate : option pyfloat;
  low_fmr : option pyfloat;
  high_fmr : option pyfloat;
  zestimate : option pyfloat;
  expected_rent : option pyfloat;
  redfin_value : option pyfloat
}.

Definition make (property_id : nat) (entry : nat * ValuationRecord.t) : t :=
  let (val_idx, val_record) := entry in {|
    property_id := property_id;
    valuation_index := val_idx + 1;
    list_price := ValuationRecord.list_price val_record;
    previous_rent := ValuationRecord.previous_rent val_record;
    arv := ValuationRecord.arv val_record;
    rent_zestimate := ValuationRecord.rent_zestimate val_record;
    low_fmr := ValuationRecord.low_fmr val_record;
    high_fmr := ValuationRecord.high_fmr val_record;
    zestimate := ValuationRecord.zestimate val_record;
    expected_rent := ValuationRecord.expected_rent val_record;
    redfin_value := ValuationRecord.redfin_value val_record
  |}.

End ValuationRow.

Module HoaRow.

Record t : Type := {
  property_id : nat;
  hoa_index : nat;
  hoa_amount : option pyfloat;
  hoa_flag : option string
}.

Definition make (property_id : nat) (entry : nat * HOARecord.t) : t :=
  let (hoa_idx, hoa_record) := entry in {|
    property_id := property_id;
    hoa_index := hoa_idx + 1;
    hoa_amount := HOARecord.hoa_amount hoa_record;
    hoa_flag := HOARecord.hoa_flag hoa_record
  |}.

End HoaRow.

Module RehabRow.

Record t : Type := {
  property_id : nat;
  rehab_index : nat;
  underwriting_rehab : option pyfloat;
  rehab_calculation : option pyfloat;
  paint : option string;
  flooring_flag : option string;
  foundation_flag : option string;
  roof_flag : option string;
  hvac_flag : option string;
  kitchen_flag : option string;
  bathroom_flag : option string;
  appliances_flag : option string;
  windows_flag : option string;
  landscaping_flag : option string;
  trashout_flag : option string
}.

Definition make (property_id : nat) (entry : nat * RehabRecord.t) : t :=
  let (rehab_idx, rehab_record) := entry in {|
    property_id := property_id;
    rehab_index := rehab_idx + 1;
    underwriting_rehab := RehabRecord.underwriting_rehab rehab_record;
    rehab_calculation := RehabRecord.rehab_calculation rehab_record;
    paint := RehabRecord.paint rehab_record;
    flooring_flag := RehabRecord.flooring_flag rehab_record;
    foundation_flag := RehabRecord.foundation_flag rehab_record;
    roof_flag := RehabRecord.roof_flag rehab_record;
    hvac_flag := RehabRecord.hvac_flag rehab_record;
    kitchen_flag := RehabRecord.kitchen_flag rehab_record;
    bathroom_flag := RehabRecord.bathroom_flag rehab_record;
    appliances_flag := RehabRecord.appliances_flag rehab_record;
    windows_flag := RehabRecord.windows_flag rehab_record;
    landscaping_flag := RehabRecord.landscaping_flag rehab_record;
    trashout_flag := RehabRecord.trashout_flag rehab_record
  |}.

End RehabRow.

(** The dictionary [facts] with its four row lists. *)
Record facts : Type := {
  properties : list PropertyRow.t;
  valuations : list ValuationRow.t;
  hoa_fees : list HoaRow.t;
  rehab_assessments : list RehabRow.t
}.

(** [enumerate(l)] *)
Definition enumerate {A : Type} (l : list A) : list (nat * A) :=
  combine (seq 0 (length l)) l.

(** One turn of the loop over [properties]: the row of the property is
    appended, [property_id] is the length of the row list after that, and
    the child rows follow in the order of their lists. *)
Definition transform_step (f : facts) (property_obj : Property.t) : facts :=
  let rows := properties f ++ [PropertyRow.of_property property_obj] in
  let property_id := length rows in
  {| properties := rows;
     valuations :=
       valuations f ++ map (ValuationRow.make property_id) (enumerate (Property.valuation property_obj));
     hoa_fees :=
       hoa_fees f ++ map (HoaRow.make property_id) (enumerate (Property.hoa property_obj));
     rehab_assessments :=
       rehab_assessments f ++ map (RehabRow.make property_id) (enumerate (Property.rehab property_obj))
  |}.

Definition empty_facts : facts :=
  {| properties := []; valuations := []; hoa_fees := []; rehab_assessments := [] |}.

Definition transform_properties_to_facts (ps : list Property.t) : facts :=
  fold_left transform_step ps empty_facts.

(** ** The dimension extractor *)

Record dimensions : Type := {
  markets : gset string;
  sources : gset string;
  property_types : gset string;
  layouts : gset string
}.

(** [if prop.get(key): dimensions[name].add(prop[key])]: a value is added
    when it is neither [None] nor the empty string. *)
Definition add_if_truthy (v : option string) (s : gset string) : gset string :=
  match v with
  | Some x => if String.eqb x EmptyString then s else s ∪ {[ x ]}
  | None => s
  end.

Definition dimension_step (d : dimensions) (prop : PropertyRow.t) : dimensions :=
  {| markets := add_if_truthy (PropertyRow.market prop) (markets d);
     sources := add_if_truthy (PropertyRow.source prop) (sources d);
     property_types := add_if_truthy (Some (PropertyRow.property_type prop)) (property_types d);
     layouts := add_if_truthy (PropertyRow.layout prop) (layouts d) |}.

Definition empty_dimensions : dimensions :=
  {| markets := ∅; sources := ∅; property_types := ∅; layouts := ∅ |}.

Definition extract_dimension_values (f : facts) : dimensions :=
  fold_left dimension_step (properties f) empty_dimensions.

Definition transform_properties (ps : list Property.t) : facts * dimensions :=
  let f := transform_properties_to_facts ps in
  (f, extract_dimension_values f).

(** ** The target patterns of the repair rules, as shapes of the text

    The defect a rule repairs is described here by the way the text
    decomposes, independently of the matcher. *)

Definition all_space (ws : text) : Prop := forallb is_space ws = true.

(** [[A-Z][a-zA-Z]*] *)
Definition is_capitalised_word (w : text) : bool :=
  match w with
  | c :: w' => is_upper c && forallb is_alpha w'
  | [] => false
  end.

(** [[a-zA-Z_][a-zA-Z0-9_]*] *)
Definition is_identifier (k : text) : bool :=
  match k with
  | c :: k' => is_ident_start c && forallb is_ident_char k'
  | [] => false
  end.

(** [w] stands as a bare capitalised word in value position: after a colon
    and before a comma or a closing brace. *)
Definition bareword_value (t w : text) : Prop :=
  exists pre ws1 ws2 d post,
    t = pre ++ ":"%char :: ws1 ++ w ++ ws2 ++ d :: post
    /\ all_space ws1 /\ is_capitalised_word w = true
    /\ all_space ws2 /\ is_value_delim d = true.

(** A comma stands right before a closing brace or bracket. *)
Definition has_trailing_comma (t : text) : Prop :=
  exists pre ws c post,
    t = pre ++ ","%char :: ws ++ c :: post
    /\ all_space ws /\ is_closer c = true.

(** A bare identifier stands as a key right after an opening brace. *)
Definition has_unquoted_key (t : text) : Prop :=
  exists pre ws1 k ws2 post,
    t = pre ++ "{"%char :: ws1 ++ k ++ ws2 ++ ":"%char :: post
    /\ all_space ws1 /\ is_identifier k = true /\ all_space ws2.

(** The text already has the form the bareword, trailing-comma and
    unquoted-key rules aim at: every bare capitalised value is one of the
    reserved words, no comma trails, every key after a brace is quoted. *)
Definition satisfies_targets (t : text) : Prop :=
  (forall w, bareword_value t w -> is_reserved w = true)
  /\ ~ has_trailing_comma t
  /\ ~ has_unquoted_key t.

(** [ok] holds of the text from every position on. *)
Fixpoint every_suffix (ok : text -> bool) (t : text) : bool :=
  ok t && match t with
          | [] => true
          | _ :: t' => every_suffix ok t'
          end.

Definition no_match {G : Type} (pattern : text -> option (G * nat)) (s : text) : bool :=
  match pattern s with
  | Some _ => false
  | None => true
  end.

Definition bareword_reserved (s : text) : bool :=
  match pattern_bareword s with
  | Some ((w, _), _) => is_reserved w
  | None => true
  end.

(** A decision of [satisfies_targets]. *)
Definition targets_check (t : text) : bool :=
  every_suffix bareword_reserved t
  && every_suffix (no_match pattern_trailing_comma) t
  && every_suffix (no_match pattern_unquoted_key) t.

(** The text up to its first colon, colon included. *)
Fixpoint upto_colon (t : text) : text :=
  match t with
  | [] => []
  | c :: t' => if Ascii.eqb c ":" then [c] else c :: upto_colon t'
  end.

(** ** The claims about single fields, in the words of the specification *)

(** The canonical token of a value that is a string equal to "yes" or to
    "no" once trimmed, whatever the case of its letters. *)
Definition yes_no_token (v : pyvalue) : option string :=
  match v with
  | PStr s =>
      let w := str (str_lower (str_strip (list_ascii_of_string s))) in
      if String.eqb w "yes" then Some "YES"%string
      else if String.eqb w "no" then Some "NO"%string
      else None
  | _ => None
  end.

(** Every character that is neither a digit nor a decimal point is
    stripped and what remains is parsed as a float; [None] when it is not
    one.  A digit is a character of which [str.isdigit] holds. *)
Definition strip_then_parse (s : string) : option pyfloat :=
  float_of_str
    (List.filter (fun c => isdigit c || Ascii.eqb c ".") (list_ascii_of_string s)).

(** The records of [raw_data] that validate, each with its 1-based
    position counted from [idx], in the order of the input. *)
Fixpoint validated_from {Errors : Type} (model_validate : pyvalue -> validation Errors)
    (idx : nat) (raw_data : list pyvalue) : list (nat * Property.t) :=
  match raw_data with
  | [] => []
  | raw :: rest =>
      match model_validate raw with
      | Validated p => (idx, p) :: validated_from model_validate (S idx) rest
      | _ => validated_from model_validate (S idx) rest
      end
  end.

(** The entries for the records of [raw_data] that fail validation. *)
Fixpoint failures_from {Errors : Type} (model_validate : pyvalue -> validation Errors)
    (idx : nat) (raw_data : list pyvalue) : list (invalid_record Errors) :=
  match raw_data with
  | [] => []
  | raw :: rest =>
      match model_validate raw with
      | ValidationError e =>
          {| record_index := idx; raw_record := raw; errors := e |}
            :: failures_from model_validate (S idx) rest
      | _ => failures_from model_validate (S idx) rest
      end
  end.

(** No exception other than [ValidationError] leaves [model_validate]. *)
Definition validates_or_fails {Errors : Type} (model_validate : pyvalue -> validation Errors)
    (raw : pyvalue) : Prop :=
  match model_validate raw with
  | OtherException _ => False
  | _ => True
  end.

(** ** The rows of one parent *)

(** The child rows the loop emits for the properties [ps], the first of
    which receives the identifier [S base]. *)
Fixpoint child_rows {C R : Type} (children : Property.t -> list C)
    (make : nat -> nat * C -> R) (base : nat) (ps : list Property.t) : list R :=
  match ps with
  | [] => []
  | p :: ps' => map (make (S base)) (enumerate (children p)) ++ child_rows children make (S base) ps'
  end.

(** The rows of one parent, in the order of the row list. *)
Definition rows_of {R : Type} (pid : R -> nat) (id : nat) (rows : list R) : list R :=
  List.filter (fun r => Nat.eqb (pid r) id) rows.

(** ** Concrete data on which the statements are exercised *)

(** A property with the given title, market and valuations, a fixed
    location, and every other optional field absent. *)
Definition sample_property (title : string) (market : option string)
    (valuation : list ValuationRecord.t) : Property.t := {|
  Property.property_title := title;
  Property.address := "1 Main St";
  Property.street_address := "1 Main St";
  Property.city := "Springfield";
  Property.state := "TX";
  Property.zip_code := "75001";
  Property.latitude := Finite (inject_Z 32);
  Property.longitude := Finite (inject_Z (-96));
  Property.property_type := "SFR";
  Property.year_built := None;
  Property.sqft_total := None;
  Property.sqft_basement := None;
  Property.sqft_mu := None;
  Property.bed := None;
  Property.bath := None;
  Property.layout := None;
  Property.pool := None;
  Property.parking := None;
  Property.basement_yes_no := None;
  Property.water := None;
  Property.sewage := None;
  Property.htw := None;
  Property.commercial := None;
  Property.highway := None;
  Property.train := None;
  Property.flood := None;
  Property.occupancy := None;
  Property.net_yield := None;
  Property.irr := None;
  Property.taxes := None;
  Property.tax_rate := None;
  Property.market := market;
  Property.source := None;
  Property.neighborhood_rating := None;
  Property.school_average := None;
  Property.subdivision := None;
  Property.reviewed_status := None;
  Property.most_recent_status := None;
  Property.selling_reason := None;
  Property.final_reviewer := None;
  Property.seller_retained_broker := None;
  Property.rent_restricted := None;
  Property.valuation := valuation;
  Property.hoa := [];
  Property.rehab := []
|}.

(** A valuation snapshot with a list price and nothing else. *)
Definition sample_valuation (price : Z) : ValuationRecord.t := {|
  ValuationRecord.list_price := Some (Finite (inject_Z price));
  ValuationRecord.previous_rent := None;
  ValuationRecord.arv := None;
  ValuationRecord.rent_zestimate := None;
  ValuationRecord.low_fmr := None;
  ValuationRecord.high_fmr := None;
  ValuationRecord.zestimate := None;
  ValuationRecord.expected_rent := None;
  ValuationRecord.redfin_value := None
|}.

(** A stand-in for [model_validate] on which the loop can be run: a record
    made of a title alone validates, anything else is a validation error. *)
Definition sample_validate (raw : pyvalue) : validation string :=
  match raw with
  | PDict [(_, PStr title)] => Validated (sample_property title None [])
  | _ => ValidationError "Field required"
  end.

(** Three records, the second of which does not validate. *)
Definition sample_document : pyvalue :=
  PList [PDict [("Property_Title"%string, PStr "A")];
         PDict [];
         PDict [("Property_Title"%string, PStr "C")]].

(** [p] with the given [sqft_total]. *)
Definition with_sqft_total (sqft : option pyfloat) (p : Property.t) : Property.t := {|
  Property.property_title := Property.property_title p;
  Property.address := Property.address p;
  Property.street_address := Property.street_address p;
  Property.city := Property.city p;
  Property.state := Property.state p;
  Property.zip_code := Property.zip_code p;
  Property.latitude := Property.latitude p;
  Property.longitude := Property.longitude p;
  Property.property_type := Property.property_type p;
  Property.year_built := Property.year_built p;
  Property.sqft_total := sqft;
  Property.sqft_basement := Property.sqft_basement p;
  Property.sqft_mu := Property.sqft_mu p;
  Property.bed := Property.bed p;
  Property.bath := Property.bath p;
  Property.layout := Property.layout p;
  Property.pool := Property.pool p;
  Property.parking := Property.parking p;
  Property.basement_yes_no := Property.basement_yes_no p;
  Property.water := Property.water p;
  Property.sewage := Property.sewage p;
  Property.htw := Property.htw p;
  Property.commercial := Property.commercial p;
  Property.highway := Property.highway p;
  Property.train := Property.train p;
  Property.flood := Property.flood p;
  Property.occupancy := Property.occupancy p;
  Property.net_yield := Property.net_yield p;
  Property.irr := Property.irr p;
  Property.taxes := Property.taxes p;
  Property.tax_rate := Property.tax_rate p;
  Property.market := Property.market p;
  Property.source := Property.source p;
  Property.neighborhood_rating := Property.neighborhood_rating p;
  Property.school_average := Property.school_average p;
  Property.subdivision := Property.subdivision p;
  Property.reviewed_status := Property.reviewed_status p;
  Property.most_recent_status := Property.most_recent_status p;
  Property.selling_reason := Property.selling_reason p;
  Property.final_reviewer := Property.final_reviewer p;
  Property.seller_retained_broker := Property.seller_retained_broker p;
  Property.rent_restricted := Property.rent_restricted p;
  Property.valuation := Property.valuation p;
  Property.hoa := Property.hoa p;
  Property.rehab := Property.rehab p
|}.

(** A stand-in for [model_validate] that validates [SQFT_Total] the way
    the model does: a record made of a title and a value for [SQFT_Total]
    validates when [validate_float_field] accepts the value, fails
    validation when it rejects it, and lets through the exception that
    escapes it; any other record is handled as by [sample_validate]. *)
Definition sample_validate_sqft (raw : pyvalue) : validation string :=
  match raw with
  | PDict [(_, PStr title); (key, value)] =>
      if String.eqb key "SQFT_Total" then
        match validate_float_field SQFT_Total value with
        | Accepted sqft => Validated (with_sqft_total sqft (sample_property title None []))
        | Rejected => ValidationError "Input should be a valid number"
        | Escapes x => OtherException x
        end
      else ValidationError "Extra inputs are not permitted"
  | _ => sample_validate raw
  end.

(** Three records: the first and the third are made of a title, the second
    has the integer 10^400 for [SQFT_Total]. *)
Definition overflow_document : pyvalue :=
  PList [PDict [("Property_Title"%string, PStr "A")];
         PDict [("Property_Title"%string, PStr "B"); ("SQFT_Total"%string, PInt (10 ^ 400))];
         PDict [("Property_Title"%string, PStr "C")]].

(** A stand-in for the number-word library: it knows the word "five". *)
Definition sample_word_to_num (w : string) : option Z :=
  if String.eqb w "five" then Some 5%Z else None.

(** A record whose keys and string values are quoted, with a reserved
    word, an array of numbers and a number followed by a unit. *)
Definition sample_repaired_text : string :=
  str (q "{'City': 'Springfield', 'Pool': True, 'Beds': [1, 2], 'SQFT_Total': 5649 sqft}").

(** ** Proof automation

    Facts about single characters are settled by running through the
    characters. *)

Ltac by_cases_on_char c := destruct c as [[] [] [] [] [] [] [] []]; reflexivity.

Ltac by_cases_on_class c :=
  destruct c as [[] [] [] [] [] [] [] []]; vm_compute; intros; repeat split; congruence.


(** * The rest of the pipeline

    The functions around the ones above: the summary of
    [preprocess_json_string], the reading of the schema file and the order
    of the loads in [src/etl/load.py], and [run_etl]. *)

(** ** Splitting and joining *)

(** [t.split(sep)] for a separator of one character: the pieces between
    the separators, at least one. *)
Fixpoint split_on (sep : ascii) (t : text) : list text :=
  match t with
  | [] => [[]]
  | c :: r =>
      if Ascii.eqb c sep then [] :: split_on sep r
      else
        match split_on sep r with
        | p :: ps => (c :: p) :: ps
        | [] => [[c]]
        end
  end.

(** [sep.join(parts)] *)
Fixpoint join_with (sep : ascii) (parts : list text) : text :=
  match parts with
  | [] => []
  | p :: rest =>
      match rest with
      | [] => p
      | _ :: _ => p ++ sep :: join_with sep rest
      end
  end.

Definition newline : ascii := "010"%char.

(** ** The statements of a schema file ([DatabaseLoader.execute_sql_file]) *)

(** ['--' in line] *)
Fixpoint has_dashes (t : text) : bool :=
  match t with
  | c :: r =>
      match r with
      | d :: _ => (Ascii.eqb c "-" && Ascii.eqb d "-") || has_dashes r
      | [] => false
      end
  | [] => false
  end.

(** [line[:line.index('--')]] when the line holds two dashes in a row, the
    line itself otherwise. *)
Fixpoint cut_comment (line : text) : text :=
  match line with
  | c :: r =>
      match r with
      | d :: _ => if Ascii.eqb c "-" && Ascii.eqb d "-" then [] else c :: cut_comment r
      | [] => [c]
      end
  | [] => []
  end.

(** The content of the file with its comments removed, line by line. *)
Definition remove_sql_comments (sql_content : text) : text :=
  join_with newline (map cut_comment (split_on newline sql_content)).

Definition is_nonempty (t : text) : bool :=
  match t with [] => false | _ :: _ => true end.

(** The statements [execute_sql_file] hands to [cursor.execute], in this
    order: the pieces between semicolons, stripped, the empty ones left
    out. *)
Definition sql_statements (sql_content : text) : list text :=
  List.filter is_nonempty (map str_strip (split_on ";"%char (remove_sql_comments sql_content))).

(** ** [preprocess_json_string] ([src/etl/preprocess.py])

    [json.loads] is not part of the repository: it is a parameter that
    returns the parsed document or raises [JSONDecodeError] with the line
    and column of the error and its message. *)

Inductive json_result : Type :=
| JsonValue (v : pyvalue)
| JSONDecodeError (lineno colno : nat) (msg : string).

(** [str(n)] for a natural number. *)
Definition str_of_nat (n : nat) : text :=
  list_ascii_of_string (DecimalString.NilZero.string_of_uint (Nat.to_uint n)).

(** One line of the context: the marker, the number of the line and its
    first hundred characters.  [i] counts the lines from zero; the line of
    the error is the one with [i == lineno - 1]. *)
Definition context_line (lines : list text) (lineno i : nat) : text :=
  list_ascii_of_string (if Nat.eqb (i + 1) lineno then ">>> " else "    ")
  ++ list_ascii_of_string "Line " ++ str_of_nat (i + 1) ++ list_ascii_of_string ": "
  ++ firstn 100 (nth i lines []).

(** [context_lines] for an error on line [lineno] of [cleaned]:
    [range(max(0, lineno - 2), min(len(lines), lineno + 1))]. *)
Definition context_lines (cleaned : text) (lineno : nat) : list text :=
  let lines := split_on newline cleaned in
  let start := lineno - 2 in
  let stop := Nat.min (length lines) (lineno + 1) in
  map (context_line lines lineno) (seq start (stop - start)).

(** The dictionary [summary]; a key that is not set is [None]. *)
Record summary : Type := {
  original_length : nat;
  fixes_applied : list fix_entry;
  success : bool;
  error_line : option nat;
  error_context : option string;
  cleaned_length : nat;
  fixes_count : nat;
  error_col : option nat;
  error_msg : option string
}.

Section Preprocess.

Variable word_to_num : string -> option Z.
Variable json_loads : string -> json_result.

Definition preprocess_json_string (raw_json_str : string) : string * summary :=
  let (cleaned, bareword_fixes) := repair_bareword_values word_to_num raw_json_str in
  match json_loads cleaned with
  | JsonValue _ =>
      (cleaned,
       {| original_length := String.length raw_json_str;
          fixes_applied := bareword_fixes;
          success := true;
          error_line := None;
          error_context := None;
          cleaned_length := String.length cleaned;
          fixes_count := length bareword_fixes;
          error_col := None;
          error_msg := None |})
  | JSONDecodeError lineno colno msg =>
      (cleaned,
       {| original_length := String.length raw_json_str;
          fixes_applied := bareword_fixes;
          success := false;
          error_line := Some lineno;
          error_context :=
            Some (str (join_with newline (context_lines (list_ascii_of_string cleaned) lineno)));
          cleaned_length := String.length cleaned;
          fixes_count := length bareword_fixes;
          error_col := Some colno;
          error_msg := Some msg |})
  end.

End Preprocess.

(** ** The loads of [load_to_database] ([src/etl/load.py])

    The database is a parameter: every call of the loader either returns
    or raises.  What the function does is the list of the calls it makes, in
    order, and whether it returns. *)

Inductive db_call : Type :=
| Connect
| ExecuteSqlFile (path : string)
| LoadProperties (rows : list PropertyRow.t)
| LoadValuations (rows : list ValuationRow.t)
| LoadHoaFees (rows : list HoaRow.t)
| LoadRehabAssessments (rows : list RehabRow.t)
| Disconnect.

Section Load.

(** Whether the call returns; otherwise it raises. *)
Variable succeeds : db_call -> bool.

(** The calls of the [try] block one after the other, up to the first that
    raises. *)
Fixpoint run_calls (calls : list db_call) : list db_call * bool :=
  match calls with
  | [] => ([], true)
  | c :: rest =>
      if succeeds c then let (made, ok) := run_calls rest in (c :: made, ok)
      else ([c], false)
  end.

(** The calls of the [try] block: a table is loaded when [facts] has rows
    for it, the schema file is run when a path is given. *)
Definition load_calls (f : facts) (sql_init_file : option string) : list db_call :=
  Connect
  :: match sql_init_file with
     | Some path => if String.eqb path EmptyString then [] else [ExecuteSqlFile path]
     | None => []
     end
  ++ match properties f with [] => [] | _ :: _ => [LoadProperties (properties f)] end
  ++ match valuations f with [] => [] | _ :: _ => [LoadValuations (valuations f)] end
  ++ match hoa_fees f with [] => [] | _ :: _ => [LoadHoaFees (hoa_fees f)] end
  ++ match rehab_assessments f with
     | [] => []
     | _ :: _ => [LoadRehabAssessments (rehab_assessments f)]
     end.

(** [finally: loader.disconnect()] *)
Definition load_to_database (f : facts) (sql_init_file : option string) : list db_call * bool :=
  let (made, ok) := run_calls (load_calls f sql_init_file) in
  (made ++ [Disconnect], ok).

End Load.

(** ** [run_etl] ([src/etl/run_etl.py]) *)

(** [ETLConfig.MAX_RECORDS if ETLConfig.MAX_RECORDS > 0 else None] *)
Definition etl_max_records (MAX_RECORDS : Z) : option Z :=
  if (0 <? MAX_RECORDS)%Z then Some MAX_RECORDS else None.

Section Pipeline.

Variable word_to_num : string -> option Z.
Variable json_loads : string -> json_result.
Variable Errors : Type.
Variable model_validate : pyvalue -> validation Errors.
Variable succeeds : db_call -> bool.

(** How [load_properties_from_json] ends when it is followed from its
    first line: the file is missing, or the repaired text does not parse,
    or the loop runs on the parsed document. *)
Inductive extraction : Type :=
| RaisesFileNotFoundError
| RaisesJSONDecodeError (lineno colno : nat) (msg : string)
| Ran (r : run Errors).

(** [load_and_preprocess_json] and [load_properties_from_json] from its
    first line.  [json_file] is the content of the file at
    [json_file_path], [None] when there is no such file. *)
Definition load_properties_from_file (json_file : option string)
    (max_records : option Z) (skip_invalid : bool) : extraction :=
  match json_file with
  | None => RaisesFileNotFoundError
  | Some raw_json_str =>
      let (cleaned_json_str, preprocess_summary) :=
        preprocess_json_string word_to_num json_loads raw_json_str in
      match json_loads cleaned_json_str with
      | JSONDecodeError lineno colno msg => RaisesJSONDecodeError lineno colno msg
      | JsonValue raw_data =>
          Ran (load_properties_from_json model_validate max_records skip_invalid raw_data)
      end
  end.

(** What [run_etl] returns, and the calls it makes to the database.  Any
    exception ends it with [False].  The lines it writes to the log are
    left out; the one that reads the first item of the errors of an invalid
    record relies on a validation error having at least one item. *)
Definition run_etl (json_file : option string) (MAX_RECORDS : Z) (SKIP_INVALID : bool)
    (SQL_SCHEMA_FILE : string) : bool * list db_call :=
  match load_properties_from_file json_file (etl_max_records MAX_RECORDS) SKIP_INVALID with
  | Ran out =>
      match how out with
      | Returns =>
          match valid_properties out with
          | [] => (false, [])
          | _ :: _ =>
              let (f, dims) := transform_properties (valid_properties out) in
              let (made, ok) := load_to_database succeeds f (Some SQL_SCHEMA_FILE) in
              (ok, made)
          end
      | _ => (false, [])
      end
  | _ => (false, [])
  end.

End Pipeline.

(** ** Notions used in the statements below *)

(** [p] is a piece of [t]: some of its characters in a row. *)
Definition part_of (p t : text) : Prop := exists a b, t = a ++ p ++ b.

(** Neither the first nor the last character is whitespace. *)
Definition is_stripped (t : text) : Prop :=
  match t with c :: _ => is_space c = false | [] => True end
  /\ match rev t with c :: _ => is_space c = false | [] => True end.

(** A row with its parent's identifier moved up by [k]. *)
Definition shift_valuation (k : nat) (r : ValuationRow.t) : ValuationRow.t := {|
  ValuationRow.property_id := ValuationRow.property_id r + k;
  ValuationRow.valuation_index := ValuationRow.valuation_index r;
  ValuationRow.list_price := ValuationRow.list_price r;
  ValuationRow.previous_rent := ValuationRow.previous_rent r;
  ValuationRow.arv := ValuationRow.arv r;
  ValuationRow.rent_zestimate := ValuationRow.rent_zestimate r;
  ValuationRow.low_fmr := ValuationRow.low_fmr r;
  ValuationRow.high_fmr := ValuationRow.high_fmr r;
  ValuationRow.zestimate := ValuationRow.zestimate r;
  ValuationRow.expected_rent := ValuationRow.expected_rent r;
  ValuationRow.redfin_value := ValuationRow.redfin_value r
|}.

Definition shift_hoa (k : nat) (r : HoaRow.t) : HoaRow.t := {|
  HoaRow.property_id := HoaRow.property_id r + k;
  HoaRow.hoa_index := HoaRow.hoa_index r;
  HoaRow.hoa_amount := HoaRow.hoa_amount r;
  HoaRow.hoa_flag := HoaRow.hoa_flag r
|}.

Definition shift_rehab (k : nat) (r : RehabRow.t) : RehabRow.t := {|
  RehabRow.property_id := RehabRow.property_id r + k;
  RehabRow.rehab_index := RehabRow.rehab_index r;
  RehabRow.underwriting_rehab := RehabRow.underwriting_rehab r;
  RehabRow.rehab_calculation := RehabRow.rehab_calculation r;
  RehabRow.paint := RehabRow.paint r;
  RehabRow.flooring_flag := RehabRow.flooring_flag r;
  RehabRow.foundation_flag := RehabRow.foundation_flag r;
  RehabRow.roof_flag := RehabRow.roof_flag r;
  RehabRow.hvac_flag := RehabRow.hvac_flag r;
  RehabRow.kitchen_flag := RehabRow.kitchen_flag r;
  RehabRow.bathroom_flag := RehabRow.bathroom_flag r;
  RehabRow.appliances_flag := RehabRow.appliances_flag r;
  RehabRow.windows_flag := RehabRow.windows_flag r;
  RehabRow.landscaping_flag := RehabRow.landscaping_flag r;
  RehabRow.trashout_flag := RehabRow.trashout_flag r
|}.

(** The key of a child row, the parent first, in dictionary order. *)
Definition key_lt (a b : nat * nat) : Prop :=
  fst a < fst b \/ (fst a = fst b /\ snd a < snd b).

(** The number of children of the properties, all together. *)
Definition total_children {C : Type} (children : Property.t -> list C)
    (ps : list Property.t) : nat :=
  list_sum (map (fun p => length (children p)) ps).

(** A stand-in for [model_validate] that lets an exception through: a
    record that is a number raises [OverflowError]; otherwise as
    [sample_validate]. *)
Definition sample_validate_raising (raw : pyvalue) : validation string :=
  match raw with
  | PInt _ => OtherException OverflowError
  | _ => sample_validate raw
  end.

(** What is left of a text when whitespace and double quotes are taken
    out. *)
Definition without_layout (t : text) : text :=
  List.filter (fun c => negb (is_space c || Ascii.eqb c dquote)) t.

(** What is left when whitespace, double quotes, commas and digits are
    taken out. *)
Definition without_layout_commas_digits (t : text) : text :=
  List.filter
    (fun c => negb (is_space c || Ascii.eqb c dquote || Ascii.eqb c "," || is_digit c)) t.

(** The entry reports a quoting: nothing was removed or replaced. *)
Definition is_quoting (e : fix_entry) : bool :=
  match e with
  | QuotedBareword _ | QuotedNumberUnit _ _ | QuotedUnquotedKey _ => true
  | _ => false
  end.

Definition is_conversion (e : fix_entry) : bool :=
  match e with
  | ConvertedNumberWord _ _ => true
  | _ => false
  end.

(** The character [c] does not occur in [t]. *)
Definition has_no (c : ascii) (t : text) : bool :=
  forallb (fun x => negb (Ascii.eqb x c)) t.

(** An entry for a converted number word tells of a conversion that
    [word_to_num] made, to a number that is not negative. *)
Definition is_plain_conversion (word_to_num : string -> option Z) (e : fix_entry) : Prop :=
  match e with
  | ConvertedNumberWord bareword converted =>
      exists n, (0 <= n)%Z
        /\ word_to_num (str (str_lower (list_ascii_of_string bareword))) = Some n
        /\ converted = str (str_of_int n)
  | _ => True
  end.

(** The place of a call in the order of [load_to_database]. *)
Definition rank (c : db_call) : nat :=
  match c with
  | Connect => 0
  | ExecuteSqlFile _ => 1
  | LoadProperties _ => 2
  | LoadValuations _ => 3
  | LoadHoaFees _ => 4
  | LoadRehabAssessments _ => 5
  | Disconnect => 6
  end.

(** The call loads a table whose rows refer to [properties]. *)
Definition is_child_load (c : db_call) : bool :=
  match c with
  | LoadValuations _ | LoadHoaFees _ | LoadRehabAssessments _ => true
  | _ => false
  end.

(** A stand-in for [json.loads]: it knows one text, that of
    [sample_document]. *)
Definition sample_json_loads (s : string) : json_result :=
  if String.eqb s (str (q "[{'Property_Title': 'A'}, {}, {'Property_Title': 'C'}]"))
  then JsonValue sample_document
  else JSONDecodeError 1 1 "Expecting value".

(** A database in which every call returns. *)
Definition sample_database (c : db_call) : bool := true.

(** The line carries the marker of the line of the error. *)
Definition is_marked (line : text) : bool :=
  text_eqb (firstn 4 line) (list_ascii_of_string ">>> ").

(** A digit, a point or a question mark: what [float()] is left with
    when it is given digits, superscripts and points. *)
Definition is_plain (c : ascii) : bool :=
  is_digit c || Ascii.eqb c "." || Ascii.eqb c "?".

(** The character read before the current one, if any, is not an
    underscore. *)
Definition no_underscore_before (prev : option ascii) : Prop :=
  match prev with
  | Some c => Ascii.eqb c "_" = false
  | None => True
  end.

(** * Statements and proofs *)

(** ** The models at work

    The scenarios of the specification, run on the models. *)

Example repair_scenarios :
  repair_bareword_values sample_word_to_num (str (q "{'City': Springfield, 'Bed': 3,}"))
  = (str (q "{'City': 'Springfield', 'Bed': 3}"),
     [QuotedBareword "Springfield"; RemovedTrailingComma "}"])
  /\ repair_bareword_values sample_word_to_num (str (q "{'SQFT_Total': 5649 sqft, 'Bed': Five}"))
     = (str (q "{'SQFT_Total': '5649 sqft', 'Bed': 5}"),
        [ConvertedNumberWord "Five" "5"; QuotedNumberUnit "5649" "sqft"])
  /\ repair_bareword_values sample_word_to_num (str (q "{'Pool': True, 'HOA': null}"))
     = (str (q "{'Pool': True, 'HOA': null}"), []).
Proof. repeat split; vm_compute; reflexivity. Qed.

Example denormalize_scenario :
  let f := transform_properties_to_facts
             [sample_property "A" None [];
              sample_property "B" None [sample_valuation 100; sample_valuation 200]] in
  map (fun r => (ValuationRow.property_id r, ValuationRow.valuation_index r)) (valuations f)
  = [(2, 1); (2, 2)]
  /\ hoa_fees f = []
  /\ length (properties f) = 2.
Proof. repeat split. Qed.

Example clean_sqft_total_scenarios :
  Property.clean_sqft_total (PStr "5649 sqft") = Return (PFloat (Finite (inject_Z 5649)))
  /\ Property.clean_sqft_total (PStr "12.50") = Return (PFloat (Finite (25 # 2)))
  /\ Property.clean_sqft_total (PStr "1.2.3") = Return PNone
  /\ Property.clean_sqft_total (PStr "unknown") = Return PNone
  /\ Property.clean_sqft_total (PInt 1200) = Return (PFloat (Finite (inject_Z 1200)))
  /\ Property.clean_sqft_total (PList []) = Return PNone.
Proof. repeat split; vm_compute; reflexivity. Qed.

(** *** The repair engine *)

Lemma span_inv (p : ascii -> bool) (t a b : text) :
  span p t = (a, b) ->
  t = a ++ b /\ forallb p a = true
  /\ match b with c :: _ => p c = false | [] => True end.
Proof.
  revert a b. induction t as [|c t IH]; simpl; intros a b H.
  - injection H as <- <-. repeat split.
  - destruct (p c) eqn:Hc.
    + destruct (span p t) as [a' b'] eqn:E. injection H as <- <-.
      destruct (IH a' b' eq_refl) as (-> & Ha & Hb). simpl. rewrite Hc. repeat split; assumption.
    + injection H as <- <-. repeat split. exact Hc.
Qed.

Lemma span_intro (p : ascii -> bool) (a b : text) :
  forallb p a = true ->
  match b with c :: _ => p c = false | [] => True end ->
  span p (a ++ b) = (a, b).
Proof.
  intros Ha Hb. induction a as [|x a IH]; simpl.
  - destruct b as [|c b]; simpl; [reflexivity|]. now rewrite Hb.
  - simpl in Ha. apply andb_prop in Ha. destruct Ha as [Hx Ha].
    rewrite Hx, (IH Ha). reflexivity.
Qed.

Section SubFacts.

Context {G E : Type}.
Variable pattern : text -> option (G * nat).
Variable callback : text -> G -> text * list E.

Lemma sub_from_skip (k : nat) (t : text) :
  sub_from pattern callback k t = sub_from pattern callback 0 (skipn k t).
Proof.
  revert k. induction t as [|c t IH]; intros k.
  - rewrite skipn_nil. now destruct k.
  - destruct k as [|k]; [reflexivity|]. simpl skipn. simpl sub_from at 1. apply IH.
Qed.

Lemma sub_from_cons (c : ascii) (t : text) :
  sub_from pattern callback 0 (c :: t)
  = match pattern (c :: t) with
    | Some (g, n) =>
        let (r, es) := callback (firstn n (c :: t)) g in
        let (out, log) := sub_from pattern callback (n - 1) t in
        (r ++ out, es ++ log)
    | None =>
        let (out, log) := sub_from pattern callback 0 t in (c :: out, log)
    end.
Proof. reflexivity. Qed.

(** A pass whose callback returns group 0 at every match, and appends
    nothing, leaves the text as it is. *)
Lemma sub_noop (t : text) :
  (forall pre s g n, t = pre ++ s -> pattern s = Some (g, n) ->
     1 <= n /\ callback (firstn n s) g = (firstn n s, [])) ->
  re_sub pattern callback t = (t, []).
Proof.
  unfold re_sub. remember (length t) as m eqn:Hm.
  assert (Hle : length t <= m) by lia. clear Hm. revert t Hle.
  induction m as [|m IH]; intros t Hle H.
  - destruct t; [reflexivity|simpl in Hle; lia].
  - destruct t as [|c t]; [reflexivity|].
    simpl sub_from. destruct (pattern (c :: t)) as [[g n]|] eqn:Hp.
    + destruct (H [] (c :: t) g n eq_refl Hp) as [Hn Hcb].
      rewrite Hcb, sub_from_skip.
      rewrite (IH (skipn (n - 1) t)).
      * destruct n as [|n]; [lia|]. simpl. rewrite ?Nat.sub_0_r.
        now rewrite firstn_skipn.
      * rewrite length_skipn. simpl in Hle. lia.
      * intros pre s g' n' Hs. apply (H (c :: firstn (n - 1) t ++ pre)).
        simpl. rewrite <- app_assoc, <- Hs. now rewrite firstn_skipn.
    + rewrite (IH t).
      * reflexivity.
      * simpl in Hle. lia.
      * intros pre s g' n' Hs. apply (H (c :: pre)). simpl. now rewrite Hs.
Qed.

End SubFacts.

Lemma every_suffix_iff (ok : text -> bool) (t : text) :
  every_suffix ok t = true <-> forall pre s, t = pre ++ s -> ok s = true.
Proof.
  induction t as [|c t IH]; simpl.
  - rewrite andb_true_r. split.
    + intros H pre s Hs. symmetry in Hs. apply app_eq_nil in Hs. destruct Hs as [_ ->]. exact H.
    + intros H. now apply (H [] []).
  - rewrite andb_true_iff, IH. split.
    + intros [H1 H2] [|x pre] s Hs; simpl in Hs.
      * now subst s.
      * injection Hs as _ Hs. now apply (H2 pre).
    + intros H. split; [now apply (H [])|].
      intros pre s Hs. apply (H (c :: pre)). simpl. now rewrite Hs.
Qed.

Lemma every_suffix_tail (ok : text -> bool) (a b : text) :
  every_suffix ok (a ++ b) = true -> every_suffix ok b = true.
Proof.
  rewrite !every_suffix_iff. intros H pre s Hs. apply (H (a ++ pre)).
  now rewrite <- app_assoc, Hs.
Qed.

Lemma every_suffix_skip (ok : text -> bool) (a b : text) :
  (forall c x, In c a -> ok (c :: x) = true) ->
  every_suffix ok (a ++ b) = every_suffix ok b.
Proof.
  intros H. induction a as [|c a IH]; [reflexivity|].
  simpl. rewrite (H c (a ++ b)) by now left. simpl. apply IH.
  intros c' x Hc'. apply H. now right.
Qed.

(** Classes of characters that exclude one another. *)

Lemma closer_not_space c : is_closer c = true -> is_space c = false.
Proof. by_cases_on_class c. Qed.
Lemma delim_not_space c : is_value_delim c = true -> is_space c = false.
Proof. by_cases_on_class c. Qed.
Lemma delim_not_alpha c : is_value_delim c = true -> is_alpha c = false.
Proof. by_cases_on_class c. Qed.
Lemma space_not_alpha c : is_space c = true -> is_alpha c = false.
Proof. by_cases_on_class c. Qed.
Lemma upper_not_space c : is_upper c = true -> is_space c = false.
Proof. by_cases_on_class c. Qed.
Lemma ident_start_not_space c : is_ident_start c = true -> is_space c = false.
Proof. by_cases_on_class c. Qed.
Lemma space_not_ident_char c : is_space c = true -> is_ident_char c = false.
Proof. by_cases_on_class c. Qed.
Lemma space_not_colon c : is_space c = true -> Ascii.eqb c ":" = false.
Proof. by_cases_on_class c. Qed.
Lemma digit_not_colon c : is_digit c = true -> Ascii.eqb c ":" = false.
Proof. by_cases_on_class c. Qed.
Lemma ident_char_not_colon c : is_ident_char c = true -> Ascii.eqb c ":" = false.
Proof. by_cases_on_class c. Qed.
Lemma ident_start_not_colon c : is_ident_start c = true -> Ascii.eqb c ":" = false.
Proof. by_cases_on_class c. Qed.
Lemma closer_not_colon c : is_closer c = true -> Ascii.eqb c ":" = false.
Proof. by_cases_on_class c. Qed.
Lemma digit_starts_no_repair c :
  isdigit c = true -> Ascii.eqb c "," = false /\ Ascii.eqb c "{" = false.
Proof. by_cases_on_class c. Qed.
Lemma lower_starts_no_repair c :
  is_lower c = true -> Ascii.eqb c "," = false /\ Ascii.eqb c "{" = false.
Proof. by_cases_on_class c. Qed.

Lemma head_stop (p : ascii -> bool) (ws rest : text) (c : ascii) :
  p c = false -> (forall x, is_space x = true -> p x = false) ->
  forallb is_space ws = true ->
  match ws ++ c :: rest with x :: _ => p x = false | [] => True end.
Proof.
  intros Hc Hsp Hws. destruct ws as [|x ws]; simpl; [exact Hc|].
  simpl in Hws. apply andb_prop in Hws. now apply Hsp.
Qed.

(** What a match of each pattern looks like, and that each such shape is
    matched. *)

Lemma pattern_trailing_comma_inv (s : text) (c : ascii) (n : nat) :
  pattern_trailing_comma s = Some (c, n) ->
  exists ws post, s = ","%char :: ws ++ c :: post /\ all_space ws /\ is_closer c = true.
Proof.
  unfold pattern_trailing_comma. destruct s as [|c0 r0]; [discriminate|].
  destruct (Ascii.eqb c0 ",") eqn:E0; [|discriminate]. apply Ascii.eqb_eq in E0. subst c0.
  destruct (span is_space r0) as [ws r1] eqn:E1.
  destruct (span_inv _ _ _ _ E1) as (-> & Hws & _).
  destruct r1 as [|c' post]; [discriminate|].
  destruct (is_closer c') eqn:Ec; [|discriminate].
  intros H. injection H as <- _. now exists ws, post.
Qed.

Lemma pattern_trailing_comma_complete (ws post : text) (c : ascii) :
  all_space ws -> is_closer c = true ->
  pattern_trailing_comma (","%char :: ws ++ c :: post) = Some (c, 1 + length ws + 1).
Proof.
  intros Hws Hc. unfold pattern_trailing_comma.
  change (Ascii.eqb "," ",") with true. cbv iota.
  rewrite (span_intro is_space ws (c :: post) Hws (closer_not_space c Hc)).
  now rewrite Hc.
Qed.

Lemma pattern_unquoted_key_inv (s k : text) (n : nat) :
  pattern_unquoted_key s = Some (k, n) ->
  exists ws1 ws2 post,
    s = "{"%char :: ws1 ++ k ++ ws2 ++ ":"%char :: post
    /\ all_space ws1 /\ is_identifier k = true /\ all_space ws2.
Proof.
  unfold pattern_unquoted_key. destruct s as [|c0 r0]; [discriminate|].
  destruct (Ascii.eqb c0 "{") eqn:E0; [|discriminate]. apply Ascii.eqb_eq in E0. subst c0.
  destruct (span is_space r0) as [ws1 r1] eqn:E1.
  destruct (span_inv _ _ _ _ E1) as (-> & Hws1 & _).
  destruct r1 as [|c r2]; [discriminate|].
  destruct (is_ident_start c) eqn:Ec; [|discriminate].
  destruct (span is_ident_char r2) as [k' r3] eqn:E2.
  destruct (span_inv _ _ _ _ E2) as (-> & Hk & _).
  destruct (span is_space r3) as [ws2 r4] eqn:E3.
  destruct (span_inv _ _ _ _ E3) as (-> & Hws2 & _).
  destruct r4 as [|d post]; [discriminate|].
  destruct (Ascii.eqb d ":") eqn:Ed; [|discriminate]. apply Ascii.eqb_eq in Ed. subst d.
  intros H. injection H as <- _. exists ws1, ws2, post.
  split; [|split; [exact Hws1|split; [|exact Hws2]]].
  - reflexivity.
  - simpl. now rewrite Ec, Hk.
Qed.

Lemma pattern_unquoted_key_complete (ws1 k ws2 post : text) :
  all_space ws1 -> is_identifier k = true -> all_space ws2 ->
  exists n, pattern_unquoted_key ("{"%char :: ws1 ++ k ++ ws2 ++ ":"%char :: post) = Some (k, n).
Proof.
  intros Hws1 Hk Hws2. destruct k as [|c k']; [discriminate|].
  simpl in Hk. apply andb_prop in Hk. destruct Hk as [Hc Hk'].
  unfold pattern_unquoted_key.
  change (Ascii.eqb "{" "{") with true. cbv iota.
  change (ws1 ++ (c :: k') ++ ws2 ++ ":"%char :: post)
    with (ws1 ++ c :: (k' ++ ws2 ++ ":"%char :: post)).
  rewrite (span_intro is_space ws1 (c :: k' ++ ws2 ++ ":"%char :: post) Hws1
             (ident_start_not_space c Hc)).
  rewrite Hc.
  rewrite (span_intro is_ident_char k' (ws2 ++ ":"%char :: post) Hk').
  - rewrite (span_intro is_space ws2 (":"%char :: post) Hws2 eq_refl).
    change (Ascii.eqb ":" ":") with true. cbv iota. eexists. reflexivity.
  - apply head_stop; [reflexivity|apply space_not_ident_char|exact Hws2].
Qed.

Lemma pattern_bareword_inv (s w : text) (d : ascii) (n : nat) :
  pattern_bareword s = Some ((w, d), n) ->
  exists ws1 ws2 post,
    s = ":"%char :: ws1 ++ w ++ ws2 ++ d :: post
    /\ all_space ws1 /\ is_capitalised_word w = true
    /\ all_space ws2 /\ is_value_delim d = true.
Proof.
  unfold pattern_bareword. destruct s as [|c0 r0]; [discriminate|].
  destruct (Ascii.eqb c0 ":") eqn:E0; [|discriminate]. apply Ascii.eqb_eq in E0. subst c0.
  destruct (span is_space r0) as [ws1 r1] eqn:E1.
  destruct (span_inv _ _ _ _ E1) as (-> & Hws1 & _).
  destruct r1 as [|c r2]; [discriminate|].
  destruct (is_upper c) eqn:Ec; [|discriminate].
  destruct (span is_alpha r2) as [w' r3] eqn:E2.
  destruct (span_inv _ _ _ _ E2) as (-> & Hw & _).
  destruct (span is_space r3) as [ws2 r4] eqn:E3.
  destruct (span_inv _ _ _ _ E3) as (-> & Hws2 & _).
  destruct r4 as [|d' post]; [discriminate|].
  destruct (is_value_delim d') eqn:Ed; [|discriminate].
  intros H. injection H as <- <- _. exists ws1, ws2, post.
  split; [|split; [exact Hws1|split; [|split; [exact Hws2|exact Ed]]]].
  - reflexivity.
  - simpl. now rewrite Ec, Hw.
Qed.

Lemma pattern_bareword_complete (ws1 w ws2 post : text) (d : ascii) :
  all_space ws1 -> is_capitalised_word w = true -> all_space ws2 ->
  is_value_delim d = true ->
  exists n, pattern_bareword (":"%char :: ws1 ++ w ++ ws2 ++ d :: post) = Some ((w, d), n).
Proof.
  intros Hws1 Hw Hws2 Hd. destruct w as [|c w']; [discriminate|].
  simpl in Hw. apply andb_prop in Hw. destruct Hw as [Hc Hw'].
  unfold pattern_bareword.
  change (Ascii.eqb ":" ":") with true. cbv iota.
  change (ws1 ++ (c :: w') ++ ws2 ++ d :: post)
    with (ws1 ++ c :: (w' ++ ws2 ++ d :: post)).
  rewrite (span_intro is_space ws1 (c :: w' ++ ws2 ++ d :: post) Hws1
             (upper_not_space c Hc)).
  rewrite Hc.
  rewrite (span_intro is_alpha w' (ws2 ++ d :: post) Hw').
  - rewrite (span_intro is_space ws2 (d :: post) Hws2 (delim_not_space d Hd)).
    rewrite Hd. eexists. reflexivity.
  - apply head_stop; [now apply delim_not_alpha|apply space_not_alpha|exact Hws2].
Qed.

(** The decision agrees with the shapes. *)

Lemma trailing_comma_check (t : text) :
  every_suffix (no_match pattern_trailing_comma) t = true <-> ~ has_trailing_comma t.
Proof.
  rewrite every_suffix_iff. unfold no_match. split.
  - intros H (pre & ws & c & post & Ht & Hws & Hc).
    specialize (H pre _ Ht). now rewrite (pattern_trailing_comma_complete ws post c Hws Hc) in H.
  - intros H pre s Hs. destruct (pattern_trailing_comma s) as [[c n]|] eqn:E; [|reflexivity].
    destruct (pattern_trailing_comma_inv s c n E) as (ws & post & -> & Hws & Hc).
    exfalso. apply H. now exists pre, ws, c, post.
Qed.

Lemma unquoted_key_check (t : text) :
  every_suffix (no_match pattern_unquoted_key) t = true <-> ~ has_unquoted_key t.
Proof.
  rewrite every_suffix_iff. unfold no_match. split.
  - intros H (pre & ws1 & k & ws2 & post & Ht & Hws1 & Hk & Hws2).
    specialize (H pre _ Ht).
    destruct (pattern_unquoted_key_complete ws1 k ws2 post Hws1 Hk Hws2) as [n Hn].
    now rewrite Hn in H.
  - intros H pre s Hs. destruct (pattern_unquoted_key s) as [[k n]|] eqn:E; [|reflexivity].
    destruct (pattern_unquoted_key_inv s k n E) as (ws1 & ws2 & post & -> & Hws1 & Hk & Hws2).
    exfalso. apply H. now exists pre, ws1, k, ws2, post.
Qed.

Lemma bareword_check (t : text) :
  every_suffix bareword_reserved t = true
  <-> forall w, bareword_value t w -> is_reserved w = true.
Proof.
  rewrite every_suffix_iff. unfold bareword_reserved. split.
  - intros H w (pre & ws1 & ws2 & d & post & Ht & Hws1 & Hw & Hws2 & Hd).
    specialize (H pre _ Ht).
    destruct (pattern_bareword_complete ws1 w ws2 post d Hws1 Hw Hws2 Hd) as [n Hn].
    now rewrite Hn in H.
  - intros H pre s Hs. destruct (pattern_bareword s) as [[[w d] n]|] eqn:E; [|reflexivity].
    destruct (pattern_bareword_inv s w d n E) as (ws1 & ws2 & post & -> & Hws1 & Hw & Hws2 & Hd).
    apply H. now exists pre, ws1, ws2, d, post.
Qed.

Lemma targets_check_iff (t : text) : targets_check t = true <-> satisfies_targets t.
Proof.
  unfold targets_check, satisfies_targets.
  rewrite !andb_true_iff, bareword_check, trailing_comma_check, unquoted_key_check. tauto.
Qed.

(** A pattern that stops at the first colon reads nothing beyond it. *)

Lemma span_upto_colon (p : ascii -> bool) (t : text) :
  p ":"%char = false ->
  span p (upto_colon t) = (fst (span p t), upto_colon (snd (span p t))).
Proof.
  intros Hp. induction t as [|c t IH]; [reflexivity|].
  simpl upto_colon. destruct (Ascii.eqb c ":") eqn:Ec.
  - apply Ascii.eqb_eq in Ec. subst c. simpl. rewrite Hp. reflexivity.
  - simpl. destruct (p c) eqn:Hc.
    + rewrite IH. destruct (span p t) as [a b]. reflexivity.
    + simpl. now rewrite Ec.
Qed.

Lemma upto_colon_cons (c : ascii) (r : text) : exists u, upto_colon (c :: r) = c :: u.
Proof. simpl. destruct (Ascii.eqb c ":"); eexists; reflexivity. Qed.

Lemma trailing_comma_local (s : text) :
  pattern_trailing_comma (upto_colon s) = pattern_trailing_comma s.
Proof.
  destruct s as [|c0 r0]; [reflexivity|].
  simpl upto_colon. destruct (Ascii.eqb c0 ":") eqn:E0.
  - apply Ascii.eqb_eq in E0. subst c0. reflexivity.
  - unfold pattern_trailing_comma. destruct (Ascii.eqb c0 ","); [|reflexivity].
    rewrite (span_upto_colon is_space r0 eq_refl).
    destruct (span is_space r0) as [ws r1]. simpl fst. simpl snd.
    destruct r1 as [|c r1]; [reflexivity|].
    destruct (upto_colon_cons c r1) as [u ->]. reflexivity.
Qed.

Lemma unquoted_key_local (s : text) :
  pattern_unquoted_key (upto_colon s) = pattern_unquoted_key s.
Proof.
  destruct s as [|c0 r0]; [reflexivity|].
  simpl upto_colon. destruct (Ascii.eqb c0 ":") eqn:E0.
  - apply Ascii.eqb_eq in E0. subst c0. reflexivity.
  - unfold pattern_unquoted_key. destruct (Ascii.eqb c0 "{"); [|reflexivity].
    rewrite (span_upto_colon is_space r0 eq_refl).
    destruct (span is_space r0) as [ws1 r1]. simpl fst. simpl snd.
    destruct r1 as [|c r2]; [reflexivity|].
    simpl upto_colon. destruct (Ascii.eqb c ":") eqn:Ec.
    + destruct (is_ident_start c) eqn:Hc; [|reflexivity].
      apply ident_start_not_colon in Hc. congruence.
    + destruct (is_ident_start c); [|reflexivity].
      rewrite (span_upto_colon is_ident_char r2 eq_refl).
      destruct (span is_ident_char r2) as [k r3]. simpl fst. simpl snd.
      rewrite (span_upto_colon is_space r3 eq_refl).
      destruct (span is_space r3) as [ws2 r4]. simpl fst. simpl snd.
      destruct r4 as [|d r4]; [reflexivity|].
      destruct (upto_colon_cons d r4) as [u ->]. reflexivity.
Qed.

(** What a match of the number-with-unit pattern looks like. *)

Lemma forallb_weaken (p r : ascii -> bool) (l : text) :
  (forall x, p x = true -> r x = true) -> forallb p l = true -> forallb r l = true.
Proof.
  intros H. induction l as [|x l IH]; simpl; [reflexivity|].
  intros Hl. apply andb_prop in Hl. destruct Hl as [Hx Hl]. now rewrite (H x Hx), IH.
Qed.

Lemma digit_or_point_of_digit (c : ascii) :
  is_digit c = true -> Property.is_digit_or_point c = true.
Proof. unfold Property.is_digit_or_point, isdigit. now intros ->. Qed.

Lemma optional_fraction_inv (t fp r : text) :
  optional_fraction t = (fp, r) ->
  t = fp ++ r /\ forallb Property.is_digit_or_point fp = true.
Proof.
  unfold optional_fraction. destruct t as [|c t']; [intros H; injection H as <- <-; now split|].
  destruct (Ascii.eqb c ".") eqn:Ec; [|intros H; injection H as <- <-; now split].
  destruct (span is_digit t') as [fd r'] eqn:E.
  destruct (span_inv _ _ _ _ E) as (-> & Hfd & _).
  destruct fd as [|x fd]; intros H; injection H as <- <-; [now split|].
  split; [reflexivity|]. simpl. unfold Property.is_digit_or_point at 1. rewrite Ec, orb_true_r.
  simpl. simpl in Hfd. apply andb_prop in Hfd. destruct Hfd as [Hx Hfd].
  rewrite (digit_or_point_of_digit x Hx). simpl.
  eapply forallb_weaken; [|exact Hfd]. exact digit_or_point_of_digit.
Qed.

Lemma forallb_app_intro (p : ascii -> bool) (a b : text) :
  forallb p a = true -> forallb p b = true -> forallb p (a ++ b) = true.
Proof. intros Ha Hb. rewrite forallb_app. now rewrite Ha, Hb. Qed.

Lemma pattern_number_unit_inv (s number unit : text) (d : ascii) (n : nat) :
  pattern_number_unit s = Some ((number, unit, d), n) ->
  forallb Property.is_digit_or_point number = true
  /\ forallb is_lower unit = true
  /\ is_value_delim d = true
  /\ exists m rest, s = ":"%char :: m ++ d :: rest /\ n = length m + 2.
Proof.
  unfold pattern_number_unit. destruct s as [|c0 r0]; [discriminate|].
  destruct (Ascii.eqb c0 ":") eqn:E0; [|discriminate]. apply Ascii.eqb_eq in E0. subst c0.
  destruct (span is_space r0) as [ws1 r1] eqn:E1.
  destruct (span_inv _ _ _ _ E1) as (-> & _ & _).
  destruct (span is_digit r1) as [ip r2] eqn:E2.
  destruct (span_inv _ _ _ _ E2) as (-> & Hip & _).
  destruct ip as [|i0 ip]; [discriminate|].
  destruct (optional_fraction r2) as [fp r3] eqn:E3.
  destruct (optional_fraction_inv _ _ _ E3) as (-> & Hfp).
  destruct (span is_space r3) as [ws2 r4] eqn:E4.
  destruct (span_inv _ _ _ _ E4) as (-> & _ & _).
  destruct ws2 as [|w0 ws2]; [discriminate|].
  destruct (span is_lower r4) as [u r5] eqn:E5.
  destruct (span_inv _ _ _ _ E5) as (-> & Hu & _).
  destruct u as [|u0 u]; [discriminate|].
  destruct (span is_space r5) as [ws3 r6] eqn:E6.
  destruct (span_inv _ _ _ _ E6) as (-> & _ & _).
  destruct r6 as [|d' rest]; [discriminate|].
  destruct (is_value_delim d') eqn:Ed; [|discriminate].
  intros H. injection H as <- <- <- <-.
  split; [|split; [exact Hu|split; [exact Ed|]]].
  - apply (forallb_app_intro _ (i0 :: ip) fp); [|exact Hfp].
    eapply forallb_weaken; [|exact Hip]. exact digit_or_point_of_digit.
  - exists (ws1 ++ (i0 :: ip) ++ fp ++ (w0 :: ws2) ++ (u0 :: u) ++ ws3), rest. split.
    + now rewrite <- !app_assoc.
    + rewrite !length_app. simpl. lia.
Qed.

(** The number-with-unit pass keeps the text up to the first colon. *)
Lemma number_unit_pass_upto_colon (t : text) :
  upto_colon (fst (number_unit_pass t)) = upto_colon t.
Proof.
  unfold number_unit_pass, re_sub. induction t as [|c t IH]; [reflexivity|].
  rewrite sub_from_cons.
  destruct (pattern_number_unit (c :: t)) as [[[[number unit] d] n]|] eqn:E.
  - destruct (pattern_number_unit_inv _ _ _ _ _ E) as (_ & _ & _ & m & rest & Hs & _).
    injection Hs as -> _.
    destruct (sub_from pattern_number_unit fix_number_unit (n - 1) t) as [out log].
    reflexivity.
  - destruct (sub_from pattern_number_unit fix_number_unit 0 t) as [out log].
    simpl in *. now rewrite IH.
Qed.

Section PreservedByNumberUnit.

Context {G : Type}.
Variable pattern : text -> option (G * nat).
Hypothesis local : forall s, pattern (upto_colon s) = pattern s.
Hypothesis head : forall c x,
  Ascii.eqb c "," = false -> Ascii.eqb c "{" = false -> pattern (c :: x) = None.

Lemma no_match_head (c : ascii) (x : text) :
  Ascii.eqb c "," = false -> Ascii.eqb c "{" = false -> no_match pattern (c :: x) = true.
Proof. intros H1 H2. unfold no_match. now rewrite head. Qed.

Lemma every_suffix_cons_skip (c : ascii) (x : text) :
  no_match pattern (c :: x) = true ->
  every_suffix (no_match pattern) (c :: x) = every_suffix (no_match pattern) x.
Proof. intros H. simpl. now rewrite H. Qed.

Lemma no_match_after_pass (c : ascii) (t : text) :
  Ascii.eqb c ":" = false ->
  no_match pattern (c :: fst (number_unit_pass t)) = no_match pattern (c :: t).
Proof.
  intros Hc. unfold no_match.
  rewrite <- (local (c :: fst (number_unit_pass t))), <- (local (c :: t)).
  simpl upto_colon. rewrite Hc. now rewrite number_unit_pass_upto_colon.
Qed.

(** The number-with-unit pass creates no match of [pattern]. *)
Lemma number_unit_pass_preserves (t : text) :
  every_suffix (no_match pattern) t = true ->
  every_suffix (no_match pattern) (fst (number_unit_pass t)) = true.
Proof.
  remember (length t) as m eqn:Hm.
  assert (Hle : length t <= m) by lia. clear Hm. revert t Hle.
  induction m as [|m IH]; intros t Hle H.
  - destruct t; [exact H|simpl in Hle; lia].
  - destruct t as [|c t]; [exact H|].
    unfold number_unit_pass, re_sub. rewrite sub_from_cons.
    destruct (pattern_number_unit (c :: t)) as [[[[number unit] d] n]|] eqn:E.
    + destruct (pattern_number_unit_inv _ _ _ _ _ E)
        as (Hnum & Hunit & Hd & body & rest & Hs & Hn).
      injection Hs as -> ->.
      rewrite sub_from_skip.
      replace (skipn (n - 1) (body ++ d :: rest)) with rest.
      2:{ replace (n - 1) with (length body + 1) by lia.
          rewrite skipn_app, skipn_all2 by lia.
          replace (length body + 1 - length body) with 1 by lia. reflexivity. }
      assert (Hrest : every_suffix (no_match pattern) (d :: rest) = true).
      { apply (every_suffix_tail _ (":"%char :: body)). exact H. }
      assert (IHrest : every_suffix (no_match pattern) (fst (number_unit_pass rest)) = true).
      { apply IH.
        - simpl in Hle. rewrite length_app in Hle. simpl in Hle. lia.
        - apply (every_suffix_tail _ [d]). exact Hrest. }
      unfold number_unit_pass, re_sub in IHrest.
      destruct (sub_from pattern_number_unit fix_number_unit 0 rest) as [out log] eqn:Eout.
      unfold fix_number_unit. simpl fst.
      rewrite !every_suffix_cons_skip by (now apply no_match_head).
      rewrite <- app_assoc. rewrite every_suffix_skip.
      2:{ intros c x Hc. rewrite forallb_forall in Hnum. specialize (Hnum c Hc).
          unfold Property.is_digit_or_point in Hnum. apply orb_prop in Hnum.
          destruct Hnum as [Hdg|Hpt].
          - destruct (digit_starts_no_repair c Hdg). now apply no_match_head.
          - apply Ascii.eqb_eq in Hpt. subst c. now apply no_match_head. }
      simpl app.
      rewrite every_suffix_cons_skip by (now apply no_match_head).
      rewrite <- app_assoc. rewrite every_suffix_skip.
      2:{ intros c x Hc. rewrite forallb_forall in Hunit. specialize (Hunit c Hc).
          destruct (lower_starts_no_repair c Hunit). now apply no_match_head. }
      simpl app.
      rewrite every_suffix_cons_skip by (now apply no_match_head).
      simpl every_suffix. simpl in IHrest. rewrite IHrest, andb_true_r.
      replace out with (fst (number_unit_pass rest))
        by (unfold number_unit_pass, re_sub; now rewrite Eout).
      rewrite no_match_after_pass.
      * simpl in Hrest. apply andb_prop in Hrest. tauto.
      * destruct d as [[] [] [] [] [] [] [] []]; try reflexivity; discriminate.
    + assert (IHt : every_suffix (no_match pattern) (fst (number_unit_pass t)) = true).
      { apply IH; [simpl in Hle; lia|]. apply (every_suffix_tail _ [c]). exact H. }
      unfold number_unit_pass, re_sub in IHt.
      destruct (sub_from pattern_number_unit fix_number_unit 0 t) as [out log] eqn:Eout.
      simpl fst in *. simpl every_suffix. rewrite IHt, andb_true_r.
      replace out with (fst (number_unit_pass t))
        by (unfold number_unit_pass, re_sub; now rewrite Eout).
      destruct (Ascii.eqb c ":") eqn:Ec.
      * apply Ascii.eqb_eq in Ec. subst c. now apply no_match_head.
      * rewrite (no_match_after_pass c t Ec).
        simpl in H. apply andb_prop in H. tauto.
Qed.

End PreservedByNumberUnit.

Lemma trailing_comma_head (c : ascii) (x : text) :
  Ascii.eqb c "," = false -> Ascii.eqb c "{" = false -> pattern_trailing_comma (c :: x) = None.
Proof. intros H _. unfold pattern_trailing_comma. now rewrite H. Qed.

Lemma unquoted_key_head (c : ascii) (x : text) :
  Ascii.eqb c "," = false -> Ascii.eqb c "{" = false -> pattern_unquoted_key (c :: x) = None.
Proof. intros _ H. unfold pattern_unquoted_key. now rewrite H. Qed.

(** A pass without a match leaves the text as it is. *)
Lemma pass_without_match {G E : Type} (pattern : text -> option (G * nat))
    (callback : text -> G -> text * list E) (t : text) :
  every_suffix (no_match pattern) t = true -> re_sub pattern callback t = (t, []).
Proof.
  intros H. apply sub_noop. intros pre s g n Hs Hp.
  rewrite every_suffix_iff in H. specialize (H pre s Hs).
  unfold no_match in H. now rewrite Hp in H.
Qed.

(** The entries of a pass are those of its callback. *)
Lemma sub_entries {G E : Type} (pattern : text -> option (G * nat))
    (callback : text -> G -> text * list E) (P : E -> Prop) :
  (forall g0 g, Forall P (snd (callback g0 g))) ->
  forall k t, Forall P (snd (sub_from pattern callback k t)).
Proof.
  intros H k t. revert k. induction t as [|c t IH]; intros k; [destruct k; constructor|].
  destruct k as [|k]; [|apply IH].
  rewrite sub_from_cons. destruct (pattern (c :: t)) as [[g n]|].
  - specialize (H (firstn n (c :: t)) g). destruct (callback (firstn n (c :: t)) g) as [r es].
    specialize (IH (n - 1)). destruct (sub_from pattern callback (n - 1) t) as [out log].
    simpl in *. apply List.Forall_app. now split.
  - specialize (IH 0). now destruct (sub_from pattern callback 0 t) as [out log].
Qed.

(** X26.  On a text in which, at every place, inside a string literal or
    not, a capitalised word between a colon and a comma or closing brace is
    a reserved word, no comma stands before a closing brace or bracket and
    no bare identifier stands between an opening brace and a colon, the
    bareword, trailing-comma and unquoted-key passes of the engine change
    nothing and log nothing: the bareword pass returns the text with no
    entry, so do the trailing-comma and unquoted-key passes on the text
    they receive (the number-with-unit pass in between creates no place
    for them), the result of the engine is that of the number-with-unit
    and bare-number passes alone, and every entry of the log comes from
    one of these two. *)
Theorem repaired_text_is_left_alone (word_to_num : string -> option Z) (raw : string) :
  satisfies_targets (list_ascii_of_string raw) ->
  let t := list_ascii_of_string raw in
  let t2 := fst (number_unit_pass t) in
  bareword_pass word_to_num t = (t, [])
  /\ trailing_comma_pass t2 = (t2, [])
  /\ unquoted_key_pass t2 = (t2, [])
  /\ repair_bareword_values word_to_num raw
     = (str (fst (bare_number_pass t2)),
        snd (number_unit_pass t) ++ snd (bare_number_pass t2))
  /\ Forall (fun e => rule_of e = NumberUnitRule \/ rule_of e = BareNumberRule)
       (snd (repair_bareword_values word_to_num raw)).
Proof.
  intros (Hbare & Hcomma & Hkey) t t2.
  apply bareword_check in Hbare. apply trailing_comma_check in Hcomma.
  apply unquoted_key_check in Hkey. fold t in Hbare, Hcomma, Hkey.
  assert (P1 : bareword_pass word_to_num t = (t, [])).
  { apply sub_noop. intros pre s [w d] n Hs Hp.
    rewrite every_suffix_iff in Hbare. specialize (Hbare pre s Hs).
    unfold bareword_reserved in Hbare. rewrite Hp in Hbare.
    split.
    - unfold pattern_bareword in Hp. destruct s as [|c0 r0]; [discriminate|].
      destruct (Ascii.eqb c0 ":"); [|discriminate].
      destruct (span is_space r0) as [ws1 r1]. destruct r1 as [|c r2]; [discriminate|].
      destruct (is_upper c); [|discriminate].
      destruct (span is_alpha r2) as [w' r3]. destruct (span is_space r3) as [ws2 r4].
      destruct r4 as [|d' r5]; [discriminate|].
      destruct (is_value_delim d'); [|discriminate].
      injection Hp as _ _ <-. lia.
    - unfold fix_any_bareword. now rewrite Hbare. }
  assert (P3 : trailing_comma_pass t2 = (t2, [])).
  { apply pass_without_match.
    apply (number_unit_pass_preserves _ trailing_comma_local trailing_comma_head). exact Hcomma. }
  assert (P4 : unquoted_key_pass t2 = (t2, [])).
  { apply pass_without_match.
    apply (number_unit_pass_preserves _ unquoted_key_local unquoted_key_head). exact Hkey. }
  assert (R : repair_bareword_values word_to_num raw
     = (str (fst (bare_number_pass t2)),
        snd (number_unit_pass t) ++ snd (bare_number_pass t2))).
  { unfold repair_bareword_values, repair_text. fold t. rewrite P1.
    unfold t2 in *. destruct (number_unit_pass t) as [x2 f2]. simpl fst in *. simpl snd.
    rewrite P3, P4. destruct (bare_number_pass x2) as [x5 f5]. reflexivity. }
  split; [exact P1|]. split; [exact P3|]. split; [exact P4|]. split; [exact R|].
  rewrite R. simpl snd. apply List.Forall_app. split.
  - apply sub_entries. intros g0 [[number unit] d]. repeat constructor.
  - apply sub_entries. intros g0 [number d]. constructor; [now right|constructor].
Qed.

(** The hypothesis holds of the sample text, on which the engine quotes
    the number with its unit and does nothing else. *)
Lemma repaired_text_is_left_alone_witness :
  satisfies_targets (list_ascii_of_string sample_repaired_text)
  /\ repair_bareword_values sample_word_to_num sample_repaired_text
     = (str (q "{'City': 'Springfield', 'Pool': True, 'Beds': [1, 2], 'SQFT_Total': '5649 sqft'}"),
        [QuotedNumberUnit "5649" "sqft"]).
Proof.
  assert (H : satisfies_targets (list_ascii_of_string sample_repaired_text)).
  { apply targets_check_iff. vm_compute. reflexivity. }
  split; [exact H|].
  destruct (repaired_text_is_left_alone sample_word_to_num sample_repaired_text H)
    as (_ & _ & _ & R & _).
  rewrite R. vm_compute. reflexivity.
Defined.

(** C8: the code rewrites text that has the target form.  The patterns
    of the three rules do not look at what encloses a match.  In each of
    the three records below every key and every value is a quoted string
    and no comma trails, so each is well-formed JSON of the form the rules
    aim at; yet inside the string value the bareword rule quotes the word
    [Sold], the trailing-comma rule removes a comma, and the unquoted-key
    rule puts quotes around [a].  Each rule logs an entry and changes the
    text, the first and the third leaving it no longer well-formed. *)
Theorem repair_rules_rewrite_string_values (word_to_num : string -> option Z) :
  repair_bareword_values sample_word_to_num (str (q "{'Title': 'Note: Sold, as is'}"))
  = (str (q "{'Title': 'Note: 'Sold', as is'}"), [QuotedBareword "Sold"])
  /\ repair_bareword_values word_to_num (str (q "{'Title': 'a list (x, y,} and more'}"))
     = (str (q "{'Title': 'a list (x, y} and more'}"), [RemovedTrailingComma "}"])
  /\ repair_bareword_values word_to_num (str (q "{'Title': 'set {a: 1} here'}"))
     = (str (q "{'Title': 'set {''a': 1} here'}"), [QuotedUnquotedKey "a"]).
Proof. repeat split; vm_compute; reflexivity. Qed.

(** C5: the code doubles the opening quote.  On the text [{Bed: 3}] the
    engine logs one entry for the key and writes the key with two double
    quotes before it and one after it, where the rule is meant to give
    [{"Bed": 3}]. *)
Theorem unquoted_key_gets_doubled_quote (word_to_num : string -> option Z) :
  repair_bareword_values word_to_num "{Bed: 3}"
  = (str (q "{''Bed': 3}"), [QuotedUnquotedKey "Bed"])
  /\ str (q "{''Bed': 3}") <> str (q "{'Bed': 3}").
Proof. split; [vm_compute; reflexivity|discriminate]. Qed.

(** C6: the code removes elements of arrays.  The bare-number pattern does
    not look at what encloses the number: in a well-formed array of
    numbers, alone or as a value of a record, the engine deletes the
    element between two commas and logs it as a bare number in an
    object. *)
Theorem bare_number_rule_deletes_array_elements (word_to_num : string -> option Z) :
  repair_bareword_values word_to_num "[1, 2, 3]" = ("[1, 3]"%string, [RemovedBareNumber "2"])
  /\ repair_bareword_values word_to_num (str (q "{'Sizes': [10, 20, 30], 'Bed': 3}"))
     = (str (q "{'Sizes': [10, 30], 'Bed': 3}"), [RemovedBareNumber "20"]).
Proof. split; vm_compute; reflexivity. Qed.

(** *** Tri-state flags *)

Lemma text_eqb_eq (a b : text) : text_eqb a b = true -> a = b.
Proof.
  revert b. induction a as [|x a IH]; intros [|y b]; simpl; try discriminate; [reflexivity|].
  intros H. apply andb_prop in H. destruct H as [Hx Hab].
  apply Ascii.eqb_eq in Hx. subst. f_equal. now apply IH.
Qed.

Lemma upper_Y c : Ascii.eqb (upper c) "Y" = Ascii.eqb (lower c) "y".
Proof. by_cases_on_char c. Qed.
Lemma upper_E c : Ascii.eqb (upper c) "E" = Ascii.eqb (lower c) "e".
Proof. by_cases_on_char c. Qed.
Lemma upper_S c : Ascii.eqb (upper c) "S" = Ascii.eqb (lower c) "s".
Proof. by_cases_on_char c. Qed.
Lemma upper_N c : Ascii.eqb (upper c) "N" = Ascii.eqb (lower c) "n".
Proof. by_cases_on_char c. Qed.
Lemma upper_O c : Ascii.eqb (upper c) "O" = Ascii.eqb (lower c) "o".
Proof. by_cases_on_char c. Qed.

Lemma upper_is_YES (t : text) :
  text_eqb (str_upper t) YES = String.eqb (str (str_lower t)) "yes".
Proof.
  destruct t as [|a [|b [|c [|d t]]]]; simpl; try reflexivity.
  - rewrite upper_Y. now destruct (Ascii.eqb (lower a) "y").
  - rewrite upper_Y, upper_E.
    destruct (Ascii.eqb (lower a) "y"); [|reflexivity].
    now destruct (Ascii.eqb (lower b) "e").
  - rewrite upper_Y, upper_E, upper_S.
    destruct (Ascii.eqb (lower a) "y"); [|reflexivity].
    destruct (Ascii.eqb (lower b) "e"); [|reflexivity].
    now destruct (Ascii.eqb (lower c) "s").
  - rewrite upper_Y, upper_E, upper_S.
    destruct (Ascii.eqb (lower a) "y"); [|reflexivity].
    destruct (Ascii.eqb (lower b) "e"); [|reflexivity].
    now destruct (Ascii.eqb (lower c) "s").
Qed.

Lemma upper_is_NO (t : text) :
  text_eqb (str_upper t) NO = String.eqb (str (str_lower t)) "no".
Proof.
  destruct t as [|a [|b [|c t]]]; simpl; try reflexivity.
  - rewrite upper_N. now destruct (Ascii.eqb (lower a) "n").
  - rewrite upper_N, upper_O.
    destruct (Ascii.eqb (lower a) "n"); [|reflexivity].
    now destruct (Ascii.eqb (lower b) "o").
  - rewrite upper_N, upper_O.
    destruct (Ascii.eqb (lower a) "n"); [|reflexivity].
    now destruct (Ascii.eqb (lower b) "o").
Qed.

(** The two child-record validators. *)
Lemma child_flag_tri_state (s : string) :
  let v_upper := str_upper (str_strip (list_ascii_of_string s)) in
  (if negb (text_eqb v_upper YES || text_eqb v_upper NO) then PNone else PStr (str v_upper))
  = match yes_no_token (PStr s) with Some tok => PStr tok | None => PNone end.
Proof.
  intros v_upper. unfold yes_no_token.
  pose proof (upper_is_YES (str_strip (list_ascii_of_string s))) as HY.
  pose proof (upper_is_NO (str_strip (list_ascii_of_string s))) as HN.
  fold v_upper in HY, HN. rewrite <- HY, <- HN.
  destruct (text_eqb v_upper YES) eqn:EY; simpl.
  - apply text_eqb_eq in EY. now rewrite EY.
  - destruct (text_eqb v_upper NO) eqn:EN; simpl; [|reflexivity].
    apply text_eqb_eq in EN. now rewrite EN.
Qed.

Lemma property_flag_tri_state (s : string) :
  Property.normalize_yes_no_flags (PStr s)
  = match yes_no_token (PStr s) with Some tok => PStr tok | None => PStr s end.
Proof.
  unfold Property.normalize_yes_no_flags, yes_no_token.
  set (v_upper := str_upper (str_strip (list_ascii_of_string s))).
  pose proof (upper_is_YES (str_strip (list_ascii_of_string s))) as HY.
  pose proof (upper_is_NO (str_strip (list_ascii_of_string s))) as HN.
  fold v_upper in HY, HN. rewrite <- HY, <- HN.
  destruct (text_eqb v_upper YES) eqn:EY; simpl.
  - apply text_eqb_eq in EY. now rewrite EY.
  - destruct (text_eqb v_upper NO) eqn:EN; simpl; [|reflexivity].
    apply text_eqb_eq in EN. now rewrite EN.
Qed.

(** C3, as the code has it.  On the flag of an HOA record and on the ten
    condition flags of a rehab record, a value equal to "yes" or "no" once
    trimmed, in any case, becomes [YES] or [NO], any other value becomes
    absent, and the field never fails.  On the four yes/no fields of a
    property, "yes" and "no" are normalised in the same way, and any other
    value is handed unchanged to the type check of the field.  Trimming
    removes Python's whitespace, the no-break space included: the flag
    "yes" followed by U+00A0 becomes [YES]. *)
Theorem flag_normalization (f : flag_field) (v : pyvalue) :
  flag_field_before f v
  = match yes_no_token v with
    | Some tok => PStr tok
    | None => if is_property_flag f then v else PNone
    end
  /\ validate_flag_field f v
     = match yes_no_token v with
       | Some tok => Accepted (Some tok)
       | None => if is_property_flag f then optional_str_schema v else Accepted None
       end
  /\ validate_flag_field HOA_Flag (PStr (str (list_ascii_of_string "yes" ++ ["160"%char])))
     = Accepted (Some "YES"%string).
Proof.
  assert (H : flag_field_before f v
              = match yes_no_token v with
                | Some tok => PStr tok
                | None => if is_property_flag f then v else PNone
                end).
  { destruct v as [| b | n | x | s | l | d];
      try (destruct f; reflexivity).
    destruct f; unfold flag_field_before, is_property_flag;
      try (rewrite property_flag_tri_state; reflexivity);
      unfold HOARecord.validate_flag, RehabRecord.normalize_flags;
      rewrite child_flag_tri_state; reflexivity. }
  split; [exact H|]. split; [|reflexivity].
  unfold validate_flag_field. rewrite H.
  destruct (yes_no_token v); [reflexivity|].
  destruct (is_property_flag f); reflexivity.
Qed.

(** C3 fails on the yes/no fields of a property: "maybe" is neither "yes"
    nor "no", and [Pool] keeps it instead of coercing it to absent; the
    number 5 is neither, and [Pool] fails on it. *)
Lemma property_flag_keeps_other_values :
  yes_no_token (PStr "maybe") = None
  /\ validate_flag_field Pool (PStr "maybe") = Accepted (Some "maybe"%string)
  /\ yes_no_token (PInt 5) = None
  /\ validate_flag_field Pool (PInt 5) = Rejected.
Proof. repeat split; reflexivity. Qed.

(** *** The cleaning of [sqft_total] *)

Lemma filter_without_digits (t : text) :
  forallb (fun c => negb (isdigit c)) t = true ->
  exists k, List.filter Property.is_digit_or_point t = repeat "."%char k.
Proof.
  induction t as [|c t IH]; simpl; intros H.
  - now exists 0.
  - apply andb_prop in H. destruct H as [Hc Ht]. destruct (IH Ht) as [k Hk].
    unfold Property.is_digit_or_point at 1.
    apply negb_true_iff in Hc. rewrite Hc. simpl.
    destruct (Ascii.eqb c ".") eqn:Ec.
    + apply Ascii.eqb_eq in Ec. subst c. exists (S k). simpl. now rewrite Hk.
    + now exists k.
Qed.

Lemma rev_points (k : nat) : rev (repeat "."%char k) = repeat "."%char k.
Proof.
  induction k as [|k IH]; [reflexivity|].
  simpl. rewrite IH. clear IH. induction k as [|k IH]; [reflexivity|].
  simpl. now rewrite IH.
Qed.

Lemma strip_points (k : nat) :
  strip_with is_ascii_space (repeat "."%char k) = repeat "."%char k.
Proof.
  unfold strip_with. destruct k as [|k]; [reflexivity|].
  change (drop_while is_ascii_space (repeat "."%char (S k))) with (repeat "."%char (S k)).
  rewrite rev_points.
  change (drop_while is_ascii_space (repeat "."%char (S k))) with (repeat "."%char (S k)).
  apply rev_points.
Qed.

Lemma underscores_points (k : nat) :
  strip_digit_underscores (Some "."%char) (repeat "."%char k) = Some (repeat "."%char k).
Proof.
  induction k as [|k IH]; [reflexivity|].
  simpl repeat.
  change (strip_digit_underscores (Some "."%char) ("."%char :: repeat "."%char k))
    with (option_map (cons "."%char) (strip_digit_underscores (Some "."%char) (repeat "."%char k))).
  now rewrite IH.
Qed.

Lemma to_ascii_space_ascii (t : text) :
  forallb is_ascii t = true -> to_ascii_space t = t.
Proof. unfold to_ascii_space. now intros ->. Qed.

Lemma points_ascii (k : nat) : forallb is_ascii (repeat "."%char k) = true.
Proof. induction k as [|k IH]; [reflexivity|exact IH]. Qed.

(** A string of decimal points is not a float. *)
Lemma float_of_points (k : nat) : float_of_str (repeat "."%char k) = None.
Proof.
  unfold float_of_str. rewrite (to_ascii_space_ascii _ (points_ascii k)), strip_points.
  destruct k as [|k]; [reflexivity|].
  simpl repeat.
  change (strip_digit_underscores None ("."%char :: repeat "."%char k))
    with (option_map (cons "."%char) (strip_digit_underscores (Some "."%char) (repeat "."%char k))).
  rewrite underscores_points. simpl option_map.
  unfold float_literal.
  change (parse_sign ("."%char :: repeat "."%char k)) with (false, "."%char :: repeat "."%char k).
  cbv beta iota zeta.
  change (str (str_lower ("."%char :: repeat "."%char k)))
    with (String "."%char (str (str_lower (repeat "."%char k)))).
  change (String.eqb (String "."%char (str (str_lower (repeat "."%char k)))) "inf") with false.
  change (String.eqb (String "."%char (str (str_lower (repeat "."%char k)))) "infinity") with false.
  change (String.eqb (String "."%char (str (str_lower (repeat "."%char k)))) "nan") with false.
  cbv beta iota zeta. simpl orb. cbv iota.
  unfold parse_decimal.
  change (span is_digit ("."%char :: repeat "."%char k)) with (@nil ascii, "."%char :: repeat "."%char k).
  cbv beta iota zeta.
  assert (E : span is_digit (repeat "."%char k) = ([], repeat "."%char k))
    by (destruct k; reflexivity).
  rewrite E. reflexivity.
Qed.

Lemma clean_sqft_total_str (s : string) :
  Property.clean_sqft_total (PStr s)
  = Return (match strip_then_parse s with Some f => PFloat f | None => PNone end).
Proof.
  unfold Property.clean_sqft_total, strip_then_parse.
  change (fun c => isdigit c || Ascii.eqb c ".") with Property.is_digit_or_point.
  destruct (List.filter Property.is_digit_or_point (list_ascii_of_string s)) as [|c t] eqn:E.
  - reflexivity.
  - unfold py_float, str. rewrite list_ascii_of_string_of_list_ascii.
    destruct (float_of_str (c :: t)); reflexivity.
Qed.

(** C4, as the code has it.  On [SQFT_Total], a string is validated by
    stripping every character that is neither a digit nor a decimal point
    and parsing the rest as a float, absent when the rest is not one; a
    string without a digit validates to absent; the record does not fail.
    "5649 sqft" validates to 5649.0.  A digit is a character of which
    [str.isdigit] holds: a superscript digit is kept with the decimal
    digits, and [float()] does not read it, so "5649 ft" followed by the
    superscript two (U+00B2) validates to absent. *)
Theorem sqft_total_string_coercion (s : string) :
  validate_float_field SQFT_Total (PStr s) = Accepted (strip_then_parse s)
  /\ (forallb (fun c => negb (isdigit c)) (list_ascii_of_string s) = true ->
      validate_float_field SQFT_Total (PStr s) = Accepted None)
  /\ validate_float_field SQFT_Total (PStr "5649 sqft") = Accepted (Some (Finite (inject_Z 5649)))
  /\ validate_float_field SQFT_Total
       (PStr (str (list_ascii_of_string "5649 ft" ++ ["178"%char])))
     = Accepted None.
Proof.
  assert (H : validate_float_field SQFT_Total (PStr s) = Accepted (strip_then_parse s)).
  { unfold validate_float_field, float_field_before, run_before.
    rewrite clean_sqft_total_str.
    destruct (strip_then_parse s); reflexivity. }
  split; [exact H|]. split; [|split; reflexivity].
  intros Hs. rewrite H. f_equal. unfold strip_then_parse.
  change (fun c => isdigit c || Ascii.eqb c ".") with Property.is_digit_or_point.
  destruct (filter_without_digits _ Hs) as [k ->]. apply float_of_points.
Qed.

(** C4 fails on the other numeric fields, which have no cleaning validator:
    [SQFT_Basement] rejects "5649 sqft", where stripping and parsing gives
    5649.0, and rejects "n/a", where a string without digits should have
    become absent. *)
Lemma other_numeric_fields_do_not_strip :
  float_field_before SQFT_Basement = None
  /\ strip_then_parse "5649 sqft" = Some (Finite (inject_Z 5649))
  /\ validate_float_field SQFT_Basement (PStr "5649 sqft") = Rejected
  /\ strip_then_parse "n/a" = None
  /\ validate_float_field SQFT_Basement (PStr "n/a") = Rejected.
Proof. repeat split; reflexivity. Qed.

(** C10: the code raises on an integer too large for a float.  The
    validator lets [OverflowError] through on the integer 10^400, which
    then escapes the validation of the record; and it raises exactly on the
    integers from [float_overflow_threshold] on in magnitude, so on every
    other value it returns a float or [None]. *)
Theorem clean_sqft_total_raises_on_large_int :
  Property.clean_sqft_total (PInt (10 ^ 400)) = Raise OverflowError
  /\ validate_float_field SQFT_Total (PInt (10 ^ 400)) = Escapes OverflowError
  /\ forall v : pyvalue,
       (exists e, Property.clean_sqft_total v = Raise e)
       <-> (exists n, v = PInt n /\ (float_overflow_threshold <= Z.abs n)%Z).
Proof.
  split; [vm_compute; reflexivity|]. split; [vm_compute; reflexivity|].
  intros v. split.
  - intros [e He]. destruct v as [| b | n | x | s | l | d]; try discriminate.
    + exists n. split; [reflexivity|].
      unfold Property.clean_sqft_total, py_float, float_of_int in He.
      destruct (float_overflow_threshold <=? Z.abs n)%Z eqn:E; [|discriminate].
      now apply Z.leb_le.
    + rewrite clean_sqft_total_str in He. discriminate.
  - intros (n & -> & Hn). exists OverflowError.
    unfold Property.clean_sqft_total, py_float, float_of_int.
    apply Z.leb_le in Hn. now rewrite Hn.
Qed.

(** *** The batch loop *)

Lemma Forall2_fst_snd {A B : Type} (P : A -> B -> Prop) (l : list (A * B)) :
  Forall (fun ab => P (fst ab) (snd ab)) l -> Forall2 P (map fst l) (map snd l).
Proof.
  induction 1 as [|[a b] l Hh _ IH]; simpl; constructor; assumption.
Qed.

Section ExtractFacts.

Context {Errors : Type}.
Variable model_validate : pyvalue -> validation Errors.

Lemma validate_loop_skip (raw_data : list pyvalue) :
  Forall (validates_or_fails model_validate) raw_data ->
  forall idx valid invalid,
    validate_loop model_validate true idx raw_data valid invalid
    = {| valid_properties := valid ++ map snd (validated_from model_validate idx raw_data);
         invalid_records := invalid ++ failures_from model_validate idx raw_data;
         how := Returns |}.
Proof.
  induction 1 as [|raw rest Hraw _ IH]; intros idx valid invalid; simpl.
  - now rewrite !app_nil_r.
  - unfold validates_or_fails in Hraw.
    destruct (model_validate raw) as [p|e|x]; [| |contradiction].
    + rewrite IH. simpl. now rewrite <- app_assoc.
    + rewrite IH. simpl. now rewrite <- app_assoc.
Qed.

Lemma validated_from_spec (raw_data : list pyvalue) (idx : nat) :
  let l := validated_from model_validate idx raw_data in
  StronglySorted lt (map fst l)
  /\ Forall (fun ip => idx <= fst ip
               /\ exists raw, nth_error raw_data (fst ip - idx) = Some raw
                              /\ model_validate raw = Validated (snd ip)) l
  /\ forall i raw p, nth_error raw_data i = Some raw ->
       model_validate raw = Validated p -> In (idx + i, p) l.
Proof.
  revert idx. induction raw_data as [|raw rest IH]; intros idx; simpl.
  - split; [constructor|]. split; [constructor|]. intros [|i]; discriminate.
  - destruct (IH (S idx)) as (Hs & Hf & Hc).
    assert (Hf' : Forall (fun ip => idx <= fst ip
               /\ exists raw0, nth_error (raw :: rest) (fst ip - idx) = Some raw0
                              /\ model_validate raw0 = Validated (snd ip))
              (validated_from model_validate (S idx) rest)).
    { eapply List.Forall_impl; [|exact Hf]. simpl. intros [j p] (Hj & raw0 & Hn & Hv).
      simpl in *. split; [lia|]. exists raw0. split; [|exact Hv].
      replace (j - idx) with (S (j - S idx)) by lia. exact Hn. }
    destruct (model_validate raw) as [p|e|x] eqn:Hmv.
    + split; [|split].
      * simpl. constructor; [exact Hs|].
        apply List.Forall_forall. intros j Hj. apply in_map_iff in Hj.
        destruct Hj as ([j' p'] & <- & Hin). simpl.
        rewrite List.Forall_forall in Hf. specialize (Hf _ Hin). simpl in Hf. lia.
      * constructor; [|exact Hf']. simpl. split; [lia|].
        exists raw. rewrite Nat.sub_diag. now split.
      * intros [|i] raw0 p0 Hn Hv; simpl in Hn.
        -- injection Hn as <-. rewrite Hmv in Hv. injection Hv as <-.
           left. f_equal. lia.
        -- right. replace (idx + S i) with (S idx + i) by lia. now apply (Hc i raw0).
    + split; [exact Hs|]. split; [exact Hf'|].
      intros [|i] raw0 p0 Hn Hv; simpl in Hn.
      * injection Hn as <-. rewrite Hmv in Hv. discriminate.
      * replace (idx + S i) with (S idx + i) by lia. now apply (Hc i raw0).
    + split; [exact Hs|]. split; [exact Hf'|].
      intros [|i] raw0 p0 Hn Hv; simpl in Hn.
      * injection Hn as <-. rewrite Hmv in Hv. discriminate.
      * replace (idx + S i) with (S idx + i) by lia. now apply (Hc i raw0).
Qed.

Lemma failures_from_spec (raw_data : list pyvalue) (idx : nat) :
  let l := failures_from model_validate idx raw_data in
  StronglySorted lt (map record_index l)
  /\ Forall (fun r => idx <= record_index r
               /\ nth_error raw_data (record_index r - idx) = Some (raw_record r)
               /\ model_validate (raw_record r) = ValidationError (errors r)) l
  /\ forall i raw e, nth_error raw_data i = Some raw ->
       model_validate raw = ValidationError e ->
       In {| record_index := idx + i; raw_record := raw; errors := e |} l.
Proof.
  revert idx. induction raw_data as [|raw rest IH]; intros idx; simpl.
  - split; [constructor|]. split; [constructor|]. intros [|i]; discriminate.
  - destruct (IH (S idx)) as (Hs & Hf & Hc).
    assert (Hf' : Forall (fun r => idx <= record_index r
               /\ nth_error (raw :: rest) (record_index r - idx) = Some (raw_record r)
               /\ model_validate (raw_record r) = ValidationError (errors r))
              (failures_from model_validate (S idx) rest)).
    { eapply List.Forall_impl; [|exact Hf]. simpl. intros r (Hj & Hn & Hv).
      split; [lia|]. split; [|exact Hv].
      replace (record_index r - idx) with (S (record_index r - S idx)) by lia. exact Hn. }
    destruct (model_validate raw) as [p|e|x] eqn:Hmv.
    + split; [exact Hs|]. split; [exact Hf'|].
      intros [|i] raw0 e0 Hn Hv; simpl in Hn.
      * injection Hn as <-. rewrite Hmv in Hv. discriminate.
      * replace (idx + S i) with (S idx + i) by lia. now apply (Hc i raw0).
    + split; [|split].
      * simpl. constructor; [exact Hs|].
        apply List.Forall_forall. intros j Hj. apply in_map_iff in Hj.
        destruct Hj as (r & <- & Hin).
        rewrite List.Forall_forall in Hf. specialize (Hf _ Hin). simpl in Hf. lia.
      * constructor; [|exact Hf']. simpl. split; [lia|].
        rewrite Nat.sub_diag. now split.
      * intros [|i] raw0 e0 Hn Hv; simpl in Hn.
        -- injection Hn as <-. rewrite Hmv in Hv. injection Hv as <-.
           left. f_equal. lia.
        -- right. replace (idx + S i) with (S idx + i) by lia. now apply (Hc i raw0).
    + split; [exact Hs|]. split; [exact Hf'|].
      intros [|i] raw0 e0 Hn Hv; simpl in Hn.
      * injection Hn as <-. rewrite Hmv in Hv. discriminate.
      * replace (idx + S i) with (S idx + i) by lia. now apply (Hc i raw0).
Qed.

Lemma partition_length (raw_data : list pyvalue) :
  Forall (validates_or_fails model_validate) raw_data ->
  forall idx,
    length (validated_from model_validate idx raw_data)
    + length (failures_from model_validate idx raw_data) = length raw_data.
Proof.
  induction 1 as [|raw rest Hraw _ IH]; intros idx; simpl; [reflexivity|].
  unfold validates_or_fails in Hraw.
  destruct (model_validate raw); [| |contradiction]; simpl; rewrite <- (IH (S idx)); lia.
Qed.

Lemma validate_loop_valid_prefix (l1 : list pyvalue) :
  Forall (fun raw => exists p, model_validate raw = Validated p) l1 ->
  forall skip idx rest valid invalid,
  exists ps,
    Forall2 (fun raw p => model_validate raw = Validated p) l1 ps
    /\ validate_loop model_validate skip idx (l1 ++ rest) valid invalid
       = validate_loop model_validate skip (length l1 + idx) rest (valid ++ ps) invalid.
Proof.
  induction 1 as [|raw l1 [p Hp] _ IH]; intros skip idx rest valid invalid.
  - exists []. split; [constructor|]. simpl. now rewrite app_nil_r.
  - destruct (IH skip (S idx) rest (valid ++ [p]) invalid) as (ps & HF & Heq).
    exists (p :: ps). split; [now constructor|].
    simpl. rewrite Hp, Heq. rewrite <- app_assoc. simpl.
    f_equal. lia.
Qed.

End ExtractFacts.

(** X25.  In the default mode ([skip_invalid] true), when no exception
    other than a validation error leaves [model_validate], the call returns
    and every record has been processed: a record that validates is in the
    list of valid properties and one that fails is in the list of invalid
    records, with its 1-based position and its errors.  Both lists follow
    the input order: the positions of the entries are strictly
    increasing. *)
Theorem default_mode_isolates_failures {Errors : Type}
    (model_validate : pyvalue -> validation Errors)
    (max_records : option Z) (raw_data : pyvalue) :
  let records := records_of max_records raw_data in
  Forall (validates_or_fails model_validate) records ->
  let out := load_properties_from_json model_validate max_records true raw_data in
  how out = Returns
  /\ (exists positions : list nat,
        StronglySorted lt positions
        /\ Forall2 (fun i p => 1 <= i /\ exists raw, nth_error records (i - 1) = Some raw
                                 /\ model_validate raw = Validated p)
             positions (valid_properties out)
        /\ forall i raw p, nth_error records i = Some raw ->
             model_validate raw = Validated p ->
             exists n, nth_error positions n = Some (S i)
                       /\ nth_error (valid_properties out) n = Some p)
  /\ StronglySorted lt (map record_index (invalid_records out))
  /\ Forall (fun r => 1 <= record_index r
               /\ nth_error records (record_index r - 1) = Some (raw_record r)
               /\ model_validate (raw_record r) = ValidationError (errors r))
       (invalid_records out)
  /\ (forall i raw e, nth_error records i = Some raw ->
        model_validate raw = ValidationError e ->
        In {| record_index := S i; raw_record := raw; errors := e |} (invalid_records out))
  /\ length (valid_properties out) + length (invalid_records out) = length records.
Proof.
  intros records Hok out.
  assert (Hout : out = {| valid_properties := map snd (validated_from model_validate 1 records);
                          invalid_records := failures_from model_validate 1 records;
                          how := Returns |}).
  { unfold out, load_properties_from_json. fold records.
    now rewrite (validate_loop_skip model_validate records Hok). }
  destruct (validated_from_spec model_validate records 1) as (Vs & Vf & Vc).
  destruct (failures_from_spec model_validate records 1) as (Fs & Ff & Fc).
  rewrite Hout. simpl.
  split; [reflexivity|]. split; [|split; [exact Fs|split; [exact Ff|split]]].
  - exists (map fst (validated_from model_validate 1 records)).
    split; [exact Vs|]. split.
    + apply Forall2_fst_snd. exact Vf.
    + intros i raw p Hn Hv. specialize (Vc i raw p Hn Hv).
      apply In_nth_error in Vc. destruct Vc as [n Hn'].
      exists n. rewrite !nth_error_map, Hn'. simpl. split; reflexivity.
  - intros i raw e Hn Hv. exact (Fc i raw e Hn Hv).
  - rewrite length_map. apply partition_length. exact Hok.
Qed.

(** The hypothesis holds of the three sample records, the second of
    which fails: the first and the third are returned as valid, the second
    as the invalid record of position 2. *)
Lemma default_mode_isolates_failures_witness :
  Forall (validates_or_fails sample_validate) (records_of None sample_document)
  /\ how (load_properties_from_json sample_validate None true sample_document) = Returns
  /\ map Property.property_title
       (valid_properties (load_properties_from_json sample_validate None true sample_document))
     = ["A"%string; "C"%string]
  /\ map record_index
       (invalid_records (load_properties_from_json sample_validate None true sample_document))
     = [2].
Proof.
  assert (H : Forall (validates_or_fails sample_validate) (records_of None sample_document)).
  { repeat constructor. }
  split; [exact H|].
  split; [exact (proj1 (default_mode_isolates_failures sample_validate None sample_document H))|].
  split; reflexivity.
Defined.

(** C2: the code lets one record block the rest.  In the default mode
    ([skip_invalid] true) the loop catches the validation error only.  On
    three records whose second has the integer 10^400 for [SQFT_Total],
    the [OverflowError] of [clean_sqft_total] escapes the validation of
    that record and leaves the call: the first record has been validated,
    the second is in neither list, and the third, which would validate, is
    never processed.  With a second record that fails validation instead,
    the same call returns and the third record is validated. *)
Theorem default_mode_stops_on_overflow :
  let out := load_properties_from_json sample_validate_sqft None true overflow_document in
  Property.clean_sqft_total (PInt (10 ^ 400)) = Raise OverflowError
  /\ how out = RaisesOther OverflowError
  /\ map Property.property_title (valid_properties out) = ["A"%string]
  /\ invalid_records out = []
  /\ (exists p, sample_validate_sqft (PDict [("Property_Title"%string, PStr "C")])
                = Validated p /\ Property.property_title p = "C"%string)
  /\ (let out' := load_properties_from_json sample_validate_sqft None true sample_document in
      how out' = Returns
      /\ map Property.property_title (valid_properties out') = ["A"%string; "C"%string]
      /\ map record_index (invalid_records out') = [2]).
Proof.
  cbv zeta. split; [vm_compute; reflexivity|]. split; [vm_compute; reflexivity|].
  split; [vm_compute; reflexivity|]. split; [vm_compute; reflexivity|].
  split; [eexists; split; reflexivity|].
  repeat split; vm_compute; reflexivity.
Qed.

(** C7.  With [skip_invalid] false, when the records before the first one
    that does not validate all validate, the call ends by raising what the
    validation of that record raised: its validation error, or the other
    exception that left [model_validate].  It never returns.  At that point
    the records before it have been validated in order and nothing after
    it has been looked at: whatever follows the failing record, the run is
    the same.  A validation error is the only entry of the list of invalid
    records; another exception leaves that list empty. *)
Theorem stop_on_first_failure {Errors : Type}
    (model_validate : pyvalue -> validation Errors)
    (max_records : option Z) (raw_data : pyvalue)
    (before : list pyvalue) (raw : pyvalue) (after : list pyvalue) :
  records_of max_records raw_data = before ++ raw :: after ->
  Forall (fun r => exists p, model_validate r = Validated p) before ->
  (forall p, model_validate raw <> Validated p) ->
  let out := load_properties_from_json model_validate max_records false raw_data in
  how out = match model_validate raw with
            | ValidationError e => RaisesValidationError e
            | OtherException x => RaisesOther x
            | Validated _ => Returns
            end
  /\ how out <> Returns
  /\ invalid_records out
     = match model_validate raw with
       | ValidationError e =>
           [{| record_index := S (length before); raw_record := raw; errors := e |}]
       | _ => []
       end
  /\ Forall2 (fun r p => model_validate r = Validated p) before (valid_properties out)
  /\ forall after', validate_loop model_validate false 1 (before ++ raw :: after') [] [] = out.
Proof.
  intros Hrec Hbefore Hraw out.
  set (ending_of := match model_validate raw with
                    | ValidationError e => RaisesValidationError e
                    | OtherException x => RaisesOther x
                    | Validated _ => Returns
                    end).
  set (entries := match model_validate raw with
                  | ValidationError e =>
                      [{| record_index := S (length before); raw_record := raw;
                          errors := e |}]
                  | _ => []
                  end).
  assert (Hrun : forall rest, exists ps,
             Forall2 (fun r p => model_validate r = Validated p) before ps
             /\ validate_loop model_validate false 1 (before ++ raw :: rest) [] []
                = {| valid_properties := ps; invalid_records := entries;
                     how := ending_of |}).
  { intros rest.
    destruct (validate_loop_valid_prefix model_validate before Hbefore false 1 (raw :: rest) [] [])
      as (ps & HF & Heq).
    exists ps. split; [exact HF|]. rewrite Heq. unfold entries, ending_of. simpl.
    destruct (model_validate raw) as [p | e | x] eqn:Ev.
    - now destruct (Hraw p).
    - simpl. rewrite Nat.add_1_r. reflexivity.
    - reflexivity. }
  destruct (Hrun after) as (ps & HF & Heq).
  assert (Hout : out = {| valid_properties := ps; invalid_records := entries;
                          how := ending_of |}).
  { unfold out, load_properties_from_json. rewrite Hrec. exact Heq. }
  rewrite Hout. simpl.
  split; [reflexivity|]. split.
  { unfold ending_of. destruct (model_validate raw) as [p | e | x] eqn:Ev;
      [now destruct (Hraw p)|discriminate|discriminate]. }
  split; [reflexivity|]. split; [exact HF|].
  intros after'. destruct (Hrun after') as (ps' & HF' & Heq'). rewrite Heq'.
  f_equal. clear - HF HF'. revert ps' HF'.
  induction HF as [|r p l ps Hp _ IH]; intros ps' HF'; inversion HF'; subst; [reflexivity|].
  f_equal; [congruence|]. now apply IH.
Qed.

(** The hypotheses of C7 hold of the three sample records: the run stops
    at the second with its error, after the first has been validated. *)
Lemma stop_on_first_failure_witness :
  records_of None sample_document
    = [PDict [("Property_Title"%string, PStr "A")]] ++ PDict [] :: [PDict [("Property_Title"%string, PStr "C")]]
  /\ how (load_properties_from_json sample_validate None false sample_document)
     = RaisesValidationError "Field required"%string
  /\ map record_index
       (invalid_records (load_properties_from_json sample_validate None false sample_document))
     = [2]
  /\ map Property.property_title
       (valid_properties (load_properties_from_json sample_validate None false sample_document))
     = ["A"%string].
Proof.
  assert (H1 : records_of None sample_document
    = [PDict [("Property_Title"%string, PStr "A")]] ++ PDict [] :: [PDict [("Property_Title"%string, PStr "C")]])
    by reflexivity.
  assert (H2 : Forall (fun r => exists p, sample_validate r = Validated p)
                 [PDict [("Property_Title"%string, PStr "A")]]).
  { constructor; [eexists; reflexivity | constructor]. }
  assert (H3 : forall p, sample_validate (PDict []) <> Validated p)
    by (intros p; discriminate).
  split; [exact H1|].
  split; [exact (proj1 (stop_on_first_failure sample_validate None sample_document _ _ _ H1 H2 H3))|].
  split; reflexivity.
Defined.

(** *** Denormalisation *)

Lemma transform_fold (ps : list Property.t) (f0 : facts) :
  let f := fold_left transform_step ps f0 in
  properties f = properties f0 ++ map PropertyRow.of_property ps
  /\ valuations f = valuations f0
       ++ child_rows Property.valuation ValuationRow.make (length (properties f0)) ps
  /\ hoa_fees f = hoa_fees f0
       ++ child_rows Property.hoa HoaRow.make (length (properties f0)) ps
  /\ rehab_assessments f = rehab_assessments f0
       ++ child_rows Property.rehab RehabRow.make (length (properties f0)) ps.
Proof.
  revert f0. induction ps as [|p ps IH]; intros f0; simpl.
  - rewrite !app_nil_r. tauto.
  - destruct (IH (transform_step f0 p)) as (Hp & Hv & Hh & Hr).
    rewrite Hp, Hv, Hh, Hr. simpl.
    rewrite !length_app. simpl. rewrite Nat.add_1_r.
    rewrite <- !app_assoc. simpl. tauto.
Qed.

Section ChildRows.

Context {C R : Type}.
Variable children : Property.t -> list C.
Variable make : nat -> nat * C -> R.
Variable pid : R -> nat.
Hypothesis pid_make : forall id e, pid (make id e) = id.

Lemma child_rows_range (base : nat) (ps : list Property.t) :
  Forall (fun r => base < pid r <= base + length ps) (child_rows children make base ps).
Proof.
  revert base. induction ps as [|p ps IH]; intros base; simpl.
  - constructor.
  - apply List.Forall_app. split.
    + apply List.Forall_forall. intros r Hr. apply in_map_iff in Hr.
      destruct Hr as (e & <- & _). rewrite pid_make. lia.
    + eapply List.Forall_impl; [|apply IH]. simpl. intros r Hr. lia.
Qed.

Lemma rows_of_own (id : nat) (l : list (nat * C)) :
  rows_of pid id (map (make id) l) = map (make id) l.
Proof.
  unfold rows_of. induction l as [|e l IH]; simpl; [reflexivity|].
  rewrite pid_make, Nat.eqb_refl. now rewrite IH.
Qed.

Lemma rows_of_other (id : nat) (rows : list R) :
  Forall (fun r => pid r <> id) rows -> rows_of pid id rows = [].
Proof.
  unfold rows_of. induction 1 as [|r rows Hr _ IH]; simpl; [reflexivity|].
  apply Nat.eqb_neq in Hr. now rewrite Hr.
Qed.

Lemma rows_of_child_rows (base k : nat) (ps : list Property.t) (p : Property.t) :
  nth_error ps k = Some p ->
  rows_of pid (S (base + k)) (child_rows children make base ps)
  = map (make (S (base + k))) (enumerate (children p)).
Proof.
  revert base k. induction ps as [|p0 ps IH]; intros base k Hk.
  - destruct k; discriminate.
  - simpl. unfold rows_of. rewrite List.filter_app. fold (rows_of pid).
    destruct k as [|k]; simpl in Hk.
    + injection Hk as ->. rewrite Nat.add_0_r.
      fold (rows_of pid (S base) (map (make (S base)) (enumerate (children p)))).
      fold (rows_of pid (S base) (child_rows children make (S base) ps)).
      rewrite rows_of_own, rows_of_other, app_nil_r; [reflexivity|].
      eapply List.Forall_impl; [|apply child_rows_range]. simpl. intros r Hr. lia.
    + fold (rows_of pid (S (base + S k)) (map (make (S base)) (enumerate (children p0)))).
      fold (rows_of pid (S (base + S k)) (child_rows children make (S base) ps)).
      rewrite rows_of_other.
      * simpl. replace (base + S k) with (S base + k) by lia. now apply IH.
      * apply List.Forall_forall. intros r Hr. apply in_map_iff in Hr.
        destruct Hr as (e & <- & _). rewrite pid_make. lia.
Qed.

End ChildRows.

Lemma enumerate_from_indices {A R : Type} (index : R -> nat) (make : nat * A -> R)
    (l : list A) (start : nat) :
  (forall i a, index (make (i, a)) = i + 1) ->
  map index (map make (combine (seq start (length l)) l)) = seq (S start) (length l).
Proof.
  intros Hmk. revert start. induction l as [|a l IH]; intros start; simpl; [reflexivity|].
  rewrite Hmk, IH. f_equal. lia.
Qed.

(** C1.  Denormalisation keeps the one-to-many relations: the row list of
    the properties follows the input, so the row at position [k+1] is that
    of the [k]-th property; every child row carries the position of a
    property row; and the child rows of the property at position [k+1], read
    off the row list in order, are exactly one row per entry of the
    corresponding child list of that property, in the order of that list,
    numbered 1, 2, ... *)
Theorem denormalization_invariants (ps : list Property.t) :
  let f := transform_properties_to_facts ps in
  properties f = map PropertyRow.of_property ps
  /\ Forall (fun r => 1 <= ValuationRow.property_id r <= length (properties f)) (valuations f)
  /\ Forall (fun r => 1 <= HoaRow.property_id r <= length (properties f)) (hoa_fees f)
  /\ Forall (fun r => 1 <= RehabRow.property_id r <= length (properties f)) (rehab_assessments f)
  /\ forall (k : nat) (p : Property.t), nth_error ps k = Some p ->
       let vs := rows_of ValuationRow.property_id (S k) (valuations f) in
       let hs := rows_of HoaRow.property_id (S k) (hoa_fees f) in
       let rs := rows_of RehabRow.property_id (S k) (rehab_assessments f) in
       (vs = map (ValuationRow.make (S k)) (enumerate (Property.valuation p))
        /\ length vs = length (Property.valuation p)
        /\ map ValuationRow.valuation_index vs = seq 1 (length (Property.valuation p)))
       /\ (hs = map (HoaRow.make (S k)) (enumerate (Property.hoa p))
        /\ length hs = length (Property.hoa p)
        /\ map HoaRow.hoa_index hs = seq 1 (length (Property.hoa p)))
       /\ (rs = map (RehabRow.make (S k)) (enumerate (Property.rehab p))
        /\ length rs = length (Property.rehab p)
        /\ map RehabRow.rehab_index rs = seq 1 (length (Property.rehab p))).
Proof.
  intros f.
  destruct (transform_fold ps empty_facts) as (Hp & Hv & Hh & Hr).
  fold (transform_properties_to_facts ps) in Hp, Hv, Hh, Hr. fold f in Hp, Hv, Hh, Hr.
  simpl in Hp, Hv, Hh, Hr.
  assert (Hlen : length (properties f) = length ps) by (rewrite Hp; apply length_map).
  assert (Hvid : forall id e, ValuationRow.property_id (ValuationRow.make id e) = id)
    by (intros id [i c]; reflexivity).
  assert (Hhid : forall id e, HoaRow.property_id (HoaRow.make id e) = id)
    by (intros id [i c]; reflexivity).
  assert (Hrid : forall id e, RehabRow.property_id (RehabRow.make id e) = id)
    by (intros id [i c]; reflexivity).
  split; [exact Hp|].
  split; [rewrite Hv, Hlen; eapply List.Forall_impl;
          [|apply (child_rows_range _ _ _ Hvid)]; simpl; intros; lia|].
  split; [rewrite Hh, Hlen; eapply List.Forall_impl;
          [|apply (child_rows_range _ _ _ Hhid)]; simpl; intros; lia|].
  split; [rewrite Hr, Hlen; eapply List.Forall_impl;
          [|apply (child_rows_range _ _ _ Hrid)]; simpl; intros; lia|].
  intros k p Hk vs hs rs.
  assert (Evs : vs = map (ValuationRow.make (S k)) (enumerate (Property.valuation p))).
  { subst vs. rewrite Hv. apply (rows_of_child_rows _ _ _ Hvid 0 k ps p Hk). }
  assert (Ehs : hs = map (HoaRow.make (S k)) (enumerate (Property.hoa p))).
  { subst hs. rewrite Hh. apply (rows_of_child_rows _ _ _ Hhid 0 k ps p Hk). }
  assert (Ers : rs = map (RehabRow.make (S k)) (enumerate (Property.rehab p))).
  { subst rs. rewrite Hr. apply (rows_of_child_rows _ _ _ Hrid 0 k ps p Hk). }
  repeat split; try assumption.
  - rewrite Evs, length_map. unfold enumerate.
    rewrite length_combine, length_seq. lia.
  - rewrite Evs. apply enumerate_from_indices. reflexivity.
  - rewrite Ehs, length_map. unfold enumerate.
    rewrite length_combine, length_seq. lia.
  - rewrite Ehs. apply enumerate_from_indices. reflexivity.
  - rewrite Ers, length_map. unfold enumerate.
    rewrite length_combine, length_seq. lia.
  - rewrite Ers. apply enumerate_from_indices. reflexivity.
Qed.

(** *** Dimension extraction *)

Lemma add_if_truthy_elem (v : option string) (s : gset string) (x : string) :
  x ∈ add_if_truthy v s <-> x ∈ s \/ (x <> EmptyString /\ v = Some x).
Proof.
  unfold add_if_truthy. destruct v as [y|].
  - destruct (String.eqb y EmptyString) eqn:E.
    + apply String.eqb_eq in E. subst y. split; [tauto|].
      intros [H|[H1 H2]]; [exact H|]. injection H2 as <-. contradiction.
    + apply String.eqb_neq in E. rewrite elem_of_union, elem_of_singleton. split.
      * intros [H | ->]; [now left|right]. split; [exact E|reflexivity].
      * intros [H|[_ H]]; [now left|]. injection H as <-. now right.
  - split; [tauto|]. intros [H|[_ H]]; [exact H|discriminate].
Qed.

Lemma fold_add_elem (get : PropertyRow.t -> option string) (rows : list PropertyRow.t)
    (s0 : gset string) (x : string) :
  x ∈ fold_left (fun s r => add_if_truthy (get r) s) rows s0
  <-> x ∈ s0 \/ (x <> EmptyString /\ exists row, In row rows /\ get row = Some x).
Proof.
  revert s0. induction rows as [|r rows IH]; intros s0; simpl.
  - split; [tauto|]. intros [H|(_ & row & [] & _)]. exact H.
  - rewrite IH, add_if_truthy_elem. split.
    + intros [[H|[H1 H2]]|(H1 & row & Hin & Hrow)].
      * now left.
      * right. split; [exact H1|]. exists r. split; [now left|exact H2].
      * right. split; [exact H1|]. exists row. split; [now right|exact Hrow].
    + intros [H|(H1 & row & [<-|Hin] & Hrow)].
      * left. now left.
      * left. right. now split.
      * right. split; [exact H1|]. now exists row.
Qed.

Lemma dimension_fold (rows : list PropertyRow.t) (d0 : dimensions) :
  let d := fold_left dimension_step rows d0 in
  markets d = fold_left (fun s r => add_if_truthy (PropertyRow.market r) s) rows (markets d0)
  /\ sources d = fold_left (fun s r => add_if_truthy (PropertyRow.source r) s) rows (sources d0)
  /\ property_types d
     = fold_left (fun s r => add_if_truthy (Some (PropertyRow.property_type r)) s) rows
         (property_types d0)
  /\ layouts d = fold_left (fun s r => add_if_truthy (PropertyRow.layout r) s) rows (layouts d0).
Proof.
  revert d0. induction rows as [|r rows IH]; intros d0; simpl.
  - repeat split.
  - destruct (IH (dimension_step d0 r)) as (Hm & Hs & Ht & Hl).
    rewrite Hm, Hs, Ht, Hl. repeat split.
Qed.

(** C9.  A value belongs to a dimension set exactly when it is not empty
    and is the market (source, property type, layout) of some row of
    [properties]; the sets depend on nothing but those rows; and three
    properties with the markets Dallas, Dallas and Austin give the two
    markets Dallas and Austin. *)
Theorem dimension_extraction (f : facts) :
  let d := extract_dimension_values f in
  (forall x : string, x ∈ markets d
     <-> x <> EmptyString /\ exists row, In row (properties f) /\ PropertyRow.market row = Some x)
  /\ (forall x : string, x ∈ sources d
     <-> x <> EmptyString /\ exists row, In row (properties f) /\ PropertyRow.source row = Some x)
  /\ (forall x : string, x ∈ property_types d
     <-> x <> EmptyString /\ exists row, In row (properties f) /\ PropertyRow.property_type row = x)
  /\ (forall x : string, x ∈ layouts d
     <-> x <> EmptyString /\ exists row, In row (properties f) /\ PropertyRow.layout row = Some x)
  /\ (forall f' : facts, properties f' = properties f -> extract_dimension_values f' = d)
  /\ (let three := transform_properties_to_facts
                     [sample_property "A" (Some "Dallas"%string) [];
                      sample_property "B" (Some "Dallas"%string) [];
                      sample_property "C" (Some "Austin"%string) []] in
      markets (extract_dimension_values three) = {[ "Dallas"%string; "Austin"%string ]}
      /\ size (markets (extract_dimension_values three)) = 2).
Proof.
  intros d.
  destruct (dimension_fold (properties f) empty_dimensions) as (Hm & Hs & Ht & Hl).
  fold (extract_dimension_values f) in Hm, Hs, Ht, Hl. fold d in Hm, Hs, Ht, Hl.
  simpl in Hm, Hs, Ht, Hl.
  split; [|split; [|split; [|split; [|split]]]].
  - intros x. rewrite Hm, fold_add_elem. split.
    + intros [H|H]; [|exact H]. now apply not_elem_of_empty in H.
    + intros H. now right.
  - intros x. rewrite Hs, fold_add_elem. split.
    + intros [H|H]; [|exact H]. now apply not_elem_of_empty in H.
    + intros H. now right.
  - intros x. rewrite Ht, (fold_add_elem (fun r => Some (PropertyRow.property_type r))). split.
    + intros [H|(H1 & row & Hin & Hrow)]; [now apply not_elem_of_empty in H|].
      split; [exact H1|]. exists row. split; [exact Hin|]. now injection Hrow.
    + intros (H1 & row & Hin & Hrow). right. split; [exact H1|].
      exists row. split; [exact Hin|]. now rewrite Hrow.
  - intros x. rewrite Hl, fold_add_elem. split.
    + intros [H|H]; [|exact H]. now apply not_elem_of_empty in H.
    + intros H. now right.
  - intros f' Hf'. unfold d, extract_dimension_values. now rewrite Hf'.
  - split; vm_compute; reflexivity.
Qed.


(** * Further properties *)

(** ** The statements of a schema file *)

Lemma split_on_pieces (sep : ascii) (t : text) : split_on sep t <> [].
Proof.
  destruct t as [|c r]; simpl; [discriminate|].
  destruct (Ascii.eqb c sep); [discriminate|]. destruct (split_on sep r); discriminate.
Qed.

Lemma join_split (sep : ascii) (t : text) : join_with sep (split_on sep t) = t.
Proof.
  induction t as [|c r IH]; [reflexivity|]. simpl split_on.
  destruct (Ascii.eqb c sep) eqn:Ec.
  - apply Ascii.eqb_eq in Ec. subst c.
    pose proof (split_on_pieces sep r) as Hne.
    simpl. destruct (split_on sep r) as [|p ps]; [contradiction|]. now rewrite IH.
  - pose proof (split_on_pieces sep r) as Hne.
    destruct (split_on sep r) as [|p ps]; [contradiction|].
    simpl in *. destruct ps as [|p' ps']; now rewrite <- IH.
Qed.

Lemma split_on_first (sep : ascii) (t : text) :
  exists p ps b, split_on sep t = p :: ps /\ t = p ++ b.
Proof.
  induction t as [|c r IH]; simpl.
  - now exists [], [], [].
  - destruct (Ascii.eqb c sep).
    + now exists [], (split_on sep r), (c :: r).
    + destruct IH as (p & ps & b & -> & ->). now exists (c :: p), ps, b.
Qed.

Lemma part_of_cons (c : ascii) (p t : text) : part_of p t -> part_of p (c :: t).
Proof. intros (a & b & ->). now exists (c :: a), b. Qed.

Lemma split_on_part (sep : ascii) (t p : text) : In p (split_on sep t) -> part_of p t.
Proof.
  revert p. induction t as [|c r IH]; intros p Hp.
  - destruct Hp as [<-|[]]. now exists [], [].
  - simpl in Hp. destruct (Ascii.eqb c sep).
    + destruct Hp as [<-|Hp]; [now exists [], (c :: r)|].
      apply part_of_cons. now apply IH.
    + destruct (split_on_first sep r) as (q & qs & b & E & Er). rewrite E in Hp, IH.
      destruct Hp as [<-|Hp].
      * exists [], b. simpl. now rewrite Er.
      * apply part_of_cons. apply IH. now right.
Qed.

Lemma split_on_free (sep : ascii) (t p : text) : In p (split_on sep t) -> ~ In sep p.
Proof.
  revert p. induction t as [|c r IH]; intros p Hp.
  - destruct Hp as [<-|[]]. intros [].
  - simpl in Hp. destruct (Ascii.eqb c sep) eqn:Ec.
    + destruct Hp as [<-|Hp]; [intros []|now apply IH].
    + destruct (split_on_first sep r) as (q & qs & b & E & Er). rewrite E in Hp, IH.
      destruct Hp as [<-|Hp].
      * intros [->|Hin]; [now rewrite Ascii.eqb_refl in Ec|].
        now apply (IH q (or_introl eq_refl)).
      * apply IH. now right.
Qed.

Lemma has_dashes_cons (c : ascii) (t : text) :
  has_dashes t = true -> has_dashes (c :: t) = true.
Proof.
  intros H. destruct t as [|d t]; [discriminate|].
  change (has_dashes (c :: d :: t))
    with ((Ascii.eqb c "-" && Ascii.eqb d "-") || has_dashes (d :: t)).
  rewrite H. apply orb_true_r.
Qed.

Lemma has_dashes_prefix (a b : text) : has_dashes a = true -> has_dashes (a ++ b) = true.
Proof.
  induction a as [|c a IH]; [discriminate|]. intros H.
  destruct a as [|d a]; [discriminate|].
  change (has_dashes ((c :: d :: a) ++ b))
    with ((Ascii.eqb c "-" && Ascii.eqb d "-") || has_dashes ((d :: a) ++ b)).
  change (has_dashes (c :: d :: a))
    with ((Ascii.eqb c "-" && Ascii.eqb d "-") || has_dashes (d :: a)) in H.
  apply orb_prop in H. destruct H as [H|H]; [now rewrite H|].
  rewrite (IH H). apply orb_true_r.
Qed.

Lemma has_dashes_part (p t : text) :
  part_of p t -> has_dashes p = true -> has_dashes t = true.
Proof.
  intros (a & b & ->) H. induction a as [|c a IH]; simpl.
  - now apply has_dashes_prefix.
  - now apply has_dashes_cons.
Qed.

Lemma has_dashes_sep (c : ascii) (a b : text) :
  Ascii.eqb c "-" = false ->
  has_dashes (a ++ c :: b) = has_dashes a || has_dashes b.
Proof.
  intros Hc. induction a as [|x a IH].
  - simpl app. destruct b as [|d b]; [reflexivity|].
    change (has_dashes (c :: d :: b))
      with ((Ascii.eqb c "-" && Ascii.eqb d "-") || has_dashes (d :: b)).
    now rewrite Hc.
  - destruct a as [|y a].
    + change (has_dashes ([x] ++ c :: b))
        with ((Ascii.eqb x "-" && Ascii.eqb c "-") || has_dashes ([] ++ c :: b)).
      rewrite IH, Hc, andb_false_r. reflexivity.
    + change (has_dashes ((x :: y :: a) ++ c :: b))
        with ((Ascii.eqb x "-" && Ascii.eqb y "-") || has_dashes ((y :: a) ++ c :: b)).
      change (has_dashes (x :: y :: a))
        with ((Ascii.eqb x "-" && Ascii.eqb y "-") || has_dashes (y :: a)).
      rewrite IH. now rewrite orb_assoc.
Qed.

Lemma cut_comment_free (line : text) : has_dashes (cut_comment line) = false.
Proof.
  induction line as [|c r IH]; [reflexivity|].
  destruct r as [|d r]; [reflexivity|].
  change (cut_comment (c :: d :: r))
    with (if Ascii.eqb c "-" && Ascii.eqb d "-" then [] else c :: cut_comment (d :: r)).
  destruct (Ascii.eqb c "-" && Ascii.eqb d "-") eqn:E; [reflexivity|].
  destruct (cut_comment (d :: r)) as [|d' r'] eqn:Ecut; [reflexivity|].
  change (has_dashes (c :: d' :: r'))
    with ((Ascii.eqb c "-" && Ascii.eqb d' "-") || has_dashes (d' :: r')).
  rewrite IH, orb_false_r.
  (* the first character of the cut line is the first of the line *)
  assert (Hd : d' = d).
  { destruct r as [|e r]; [simpl in Ecut; now injection Ecut|].
    change (cut_comment (d :: e :: r))
      with (if Ascii.eqb d "-" && Ascii.eqb e "-" then [] else d :: cut_comment (e :: r)) in Ecut.
    destruct (Ascii.eqb d "-" && Ascii.eqb e "-"); [discriminate|]. now injection Ecut. }
  now subst d'.
Qed.

Lemma cut_comment_id (line : text) : has_dashes line = false -> cut_comment line = line.
Proof.
  induction line as [|c r IH]; [reflexivity|]. intros H.
  destruct r as [|d r]; [reflexivity|].
  change (has_dashes (c :: d :: r))
    with ((Ascii.eqb c "-" && Ascii.eqb d "-") || has_dashes (d :: r)) in H.
  apply orb_false_elim in H. destruct H as [H1 H2].
  change (cut_comment (c :: d :: r))
    with (if Ascii.eqb c "-" && Ascii.eqb d "-" then [] else c :: cut_comment (d :: r)).
  rewrite H1. now rewrite (IH H2).
Qed.

Lemma join_free (lines : list text) :
  Forall (fun l => has_dashes l = false) lines ->
  has_dashes (join_with newline lines) = false.
Proof.
  induction 1 as [|l ls Hl _ IH]; [reflexivity|].
  simpl. destruct ls as [|l' ls']; [exact Hl|].
  rewrite has_dashes_sep by reflexivity. now rewrite Hl, IH.
Qed.

Lemma remove_sql_comments_free (t : text) : has_dashes (remove_sql_comments t) = false.
Proof.
  unfold remove_sql_comments. apply join_free.
  apply List.Forall_forall. intros l Hl. apply in_map_iff in Hl.
  destruct Hl as (l0 & <- & _). apply cut_comment_free.
Qed.

Lemma drop_while_stop (p : ascii -> bool) (t : text) :
  match drop_while p t with c :: _ => p c = false | [] => True end.
Proof.
  induction t as [|c t IH]; simpl; [exact I|].
  destruct (p c) eqn:E; [exact IH|exact E].
Qed.

Lemma drop_while_suffix (p : ascii -> bool) (t : text) :
  exists a, t = a ++ drop_while p t.
Proof.
  induction t as [|c t IH]; simpl; [now exists []|].
  destruct (p c); [|now exists []]. destruct IH as [a Ha]. exists (c :: a). simpl. now f_equal.
Qed.

Lemma strip_part (p : ascii -> bool) (t : text) : part_of (strip_with p t) t.
Proof.
  unfold strip_with.
  destruct (drop_while_suffix p t) as [a Ha].
  destruct (drop_while_suffix p (rev (drop_while p t))) as [b Hb].
  exists a, (rev b). rewrite Ha at 1. f_equal.
  rewrite <- (rev_involutive (drop_while p t)) at 1. rewrite Hb at 1.
  now rewrite rev_app_distr.
Qed.

(** The last character of a text cut at the front is the last of the text. *)
Lemma drop_while_last (p : ascii -> bool) (t : text) :
  match drop_while p t with
  | [] => True
  | _ :: _ => exists a c, t = a ++ [c] /\ exists a', drop_while p t = a' ++ [c]
  end.
Proof.
  destruct (drop_while p t) as [|x d] eqn:E; [exact I|].
  destruct (drop_while_suffix p t) as [a Ha]. rewrite E in Ha.
  destruct (exists_last (l := x :: d)) as (a' & c & Hl); [discriminate|].
  exists (a ++ a'), c. split; [|now exists a'].
  rewrite Ha, Hl. now rewrite app_assoc.
Qed.

Lemma strip_is_stripped (t : text) : is_stripped (str_strip t).
Proof.
  unfold is_stripped, str_strip, strip_with. rewrite rev_involutive. split.
  - pose proof (drop_while_stop is_space t) as H0.
    pose proof (drop_while_last is_space (rev (drop_while is_space t))) as H1.
    destruct (drop_while is_space (rev (drop_while is_space t))) as [|x d] eqn:E; [exact I|].
    destruct H1 as (a & c & Hrev & a' & Ha'). rewrite Ha', rev_app_distr. simpl.
    assert (Hd : drop_while is_space t = c :: rev a).
    { rewrite <- (rev_involutive (drop_while is_space t)), Hrev, rev_app_distr. reflexivity. }
    now rewrite Hd in H0.
  - apply drop_while_stop.
Qed.

Lemma part_of_trans (p m t : text) : part_of p m -> part_of m t -> part_of p t.
Proof.
  intros (a & b & ->) (a' & b' & ->). exists (a' ++ a), (b ++ b').
  now rewrite <- !app_assoc.
Qed.

Lemma part_of_in (c : ascii) (p t : text) : part_of p t -> In c p -> In c t.
Proof. intros (a & b & ->) H. apply in_or_app. right. apply in_or_app. now left. Qed.

(** X1.  Whatever the schema file holds, every statement handed to the
    database is not empty, holds no semicolon and no comment marker, and
    neither starts nor ends with whitespace. *)
Theorem sql_statements_are_clean (sql_content : text) :
  Forall (fun s => s <> []
            /\ ~ In ";"%char s
            /\ has_dashes s = false
            /\ is_stripped s)
    (sql_statements sql_content).
Proof.
  unfold sql_statements. apply List.Forall_forall. intros s Hs.
  apply filter_In in Hs. destruct Hs as [Hs Hne]. apply in_map_iff in Hs.
  destruct Hs as (piece & <- & Hpiece).
  pose proof (strip_part is_space piece) as Hpart. fold (str_strip piece) in Hpart.
  split; [|split; [|split]].
  - intros E. rewrite E in Hne. discriminate.
  - intros Hin. apply (split_on_free _ _ _ Hpiece). now apply (part_of_in _ _ _ Hpart).
  - destruct (has_dashes (str_strip piece)) eqn:E; [|reflexivity].
    pose proof (has_dashes_part _ _ (part_of_trans _ _ _ Hpart (split_on_part _ _ _ Hpiece)) E) as H.
    now rewrite remove_sql_comments_free in H.
  - apply strip_is_stripped.
Qed.

(** X2.  Splitting and joining are inverse, so a schema file without the
    comment marker goes through the comment removal unchanged: its
    statements are the stripped, non-empty pieces between its semicolons. *)
Theorem sql_without_comments_is_kept (sql_content : text) :
  has_dashes sql_content = false ->
  remove_sql_comments sql_content = sql_content
  /\ sql_statements sql_content
     = List.filter is_nonempty (map str_strip (split_on ";"%char sql_content)).
Proof.
  intros H.
  assert (E : remove_sql_comments sql_content = sql_content).
  { unfold remove_sql_comments.
    assert (Hmap : map cut_comment (split_on newline sql_content) = split_on newline sql_content).
    { rewrite <- (map_id (split_on newline sql_content)) at 2.
      apply map_ext_in. intros l Hl. apply cut_comment_id.
      destruct (has_dashes l) eqn:El; [|reflexivity].
      now rewrite (has_dashes_part _ _ (split_on_part _ _ _ Hl) El) in H. }
    rewrite Hmap. apply join_split. }
  split; [exact E|]. unfold sql_statements. now rewrite E.
Qed.

Lemma sql_without_comments_is_kept_witness :
  has_dashes (list_ascii_of_string "CREATE TABLE a (x INT); DROP TABLE b ;; ") = false
  /\ sql_statements (list_ascii_of_string "CREATE TABLE a (x INT); DROP TABLE b ;; ")
     = [list_ascii_of_string "CREATE TABLE a (x INT)"; list_ascii_of_string "DROP TABLE b"].
Proof.
  assert (H : has_dashes (list_ascii_of_string "CREATE TABLE a (x INT); DROP TABLE b ;; ") = false)
    by reflexivity.
  split; [exact H|].
  rewrite (proj2 (sql_without_comments_is_kept _ H)). reflexivity.
Defined.

(** ** The denormaliser, further *)

Section ChildRowsMore.

Context {C R : Type}.
Variable children : Property.t -> list C.
Variable make : nat -> nat * C -> R.

Lemma child_rows_length (base : nat) (ps : list Property.t) :
  length (child_rows children make base ps) = total_children children ps.
Proof.
  unfold total_children. revert base.
  induction ps as [|p ps IH]; intros base; simpl; [reflexivity|].
  rewrite length_app, length_map, IH. unfold enumerate.
  rewrite length_combine, length_seq. lia.
Qed.

Lemma child_rows_app (base : nat) (ps1 ps2 : list Property.t) :
  child_rows children make base (ps1 ++ ps2)
  = child_rows children make base ps1
    ++ child_rows children make (base + length ps1) ps2.
Proof.
  revert base. induction ps1 as [|p ps1 IH]; intros base; simpl.
  - now rewrite Nat.add_0_r.
  - rewrite IH, <- app_assoc. do 3 f_equal. lia.
Qed.

Variable shift : nat -> R -> R.
Hypothesis shift_make : forall k id e, shift k (make id e) = make (id + k) e.

Lemma child_rows_shift (k base : nat) (ps : list Property.t) :
  child_rows children make (base + k) ps
  = map (shift k) (child_rows children make base ps).
Proof.
  revert base. induction ps as [|p ps IH]; intros base; simpl; [reflexivity|].
  rewrite map_app, map_map. f_equal.
  - apply map_ext. intros e. now rewrite shift_make.
  - apply (IH (S base)).
Qed.

Variable pid index : R -> nat.
Hypothesis pid_make : forall id e, pid (make id e) = id.
Hypothesis index_make : forall id i c, index (make id (i, c)) = i + 1.

Lemma enumerate_keys_sorted (id start : nat) (l : list C) :
  StronglySorted key_lt
    (map (fun r => (pid r, index r)) (map (make id) (combine (seq start (length l)) l)))
  /\ Forall (fun r => pid r = id /\ start < index r)
       (map (make id) (combine (seq start (length l)) l)).
Proof.
  revert start. induction l as [|c l IH]; intros start; simpl.
  - split; constructor.
  - destruct (IH (S start)) as [Hs Hf]. split.
    + constructor; [exact Hs|].
      apply List.Forall_forall. intros k Hk. apply in_map_iff in Hk.
      destruct Hk as (r & <- & Hr). rewrite List.Forall_forall in Hf.
      destruct (Hf r Hr) as [Hp Hi]. right. simpl.
      rewrite pid_make, index_make, Hp. split; [reflexivity|lia].
    + constructor; [rewrite pid_make, index_make; split; [reflexivity|lia]|].
      eapply List.Forall_impl; [|exact Hf]. simpl. intros r [Hp Hi]. split; [exact Hp|lia].
Qed.

Lemma sorted_app (l1 l2 : list (nat * nat)) :
  StronglySorted key_lt l1 -> StronglySorted key_lt l2 ->
  (forall a b, In a l1 -> In b l2 -> key_lt a b) ->
  StronglySorted key_lt (l1 ++ l2).
Proof.
  intros H1 H2 H. induction H1 as [|a l1 Hs IH Hf]; simpl; [exact H2|].
  constructor.
  - apply IH. intros x y Hx Hy. apply H; [now right|exact Hy].
  - apply List.Forall_app. split; [exact Hf|].
    apply List.Forall_forall. intros b Hb. apply H; [now left|exact Hb].
Qed.

Lemma child_rows_keys_sorted (base : nat) (ps : list Property.t) :
  StronglySorted key_lt (map (fun r => (pid r, index r)) (child_rows children make base ps)).
Proof.
  revert base. induction ps as [|p ps IH]; intros base; simpl; [constructor|].
  rewrite map_app. apply sorted_app.
  - apply (enumerate_keys_sorted (S base) 0).
  - apply IH.
  - intros a b Ha Hb. apply in_map_iff in Ha, Hb.
    destruct Ha as (r & <- & Hr). destruct Hb as (r' & <- & Hr').
    destruct (enumerate_keys_sorted (S base) 0 (children p)) as [_ Hf].
    rewrite List.Forall_forall in Hf. destruct (Hf r Hr) as [Hp _].
    pose proof (child_rows_range children make pid pid_make (S base) ps) as Hrange.
    rewrite List.Forall_forall in Hrange. specialize (Hrange r' Hr').
    left. simpl. lia.
Qed.

End ChildRowsMore.

Lemma key_lt_sorted_nodup (l : list (nat * nat)) : StronglySorted key_lt l -> List.NoDup l.
Proof.
  induction 1 as [|a l Hs IH Hf]; constructor; [|exact IH].
  intros Hin. rewrite List.Forall_forall in Hf. specialize (Hf a Hin).
  destruct Hf as [H|[_ H]]; lia.
Qed.

(** X3.  The four row lists have one row per property and one row per child
    entry: their lengths are the number of properties and the total
    numbers of valuation, HOA and rehab entries. *)
Theorem transform_row_counts (ps : list Property.t) :
  let f := transform_properties_to_facts ps in
  length (properties f) = length ps
  /\ length (valuations f) = total_children Property.valuation ps
  /\ length (hoa_fees f) = total_children Property.hoa ps
  /\ length (rehab_assessments f) = total_children Property.rehab ps.
Proof.
  intros f. destruct (transform_fold ps empty_facts) as (Hp & Hv & Hh & Hr).
  fold (transform_properties_to_facts ps) in Hp, Hv, Hh, Hr. fold f in Hp, Hv, Hh, Hr.
  simpl in Hp, Hv, Hh, Hr. rewrite Hp, Hv, Hh, Hr.
  rewrite length_map, !child_rows_length. repeat split.
Qed.

(** X4.  Transforming two batches one after the other: the rows of the
    whole are the rows of the first batch followed by the rows of the
    second, whose parent identifiers are moved up by the size of the first
    batch. *)
Theorem transform_of_two_batches (ps1 ps2 : list Property.t) :
  let f := transform_properties_to_facts (ps1 ++ ps2) in
  let f1 := transform_properties_to_facts ps1 in
  let f2 := transform_properties_to_facts ps2 in
  properties f = properties f1 ++ properties f2
  /\ valuations f = valuations f1 ++ map (shift_valuation (length ps1)) (valuations f2)
  /\ hoa_fees f = hoa_fees f1 ++ map (shift_hoa (length ps1)) (hoa_fees f2)
  /\ rehab_assessments f
     = rehab_assessments f1 ++ map (shift_rehab (length ps1)) (rehab_assessments f2).
Proof.
  intros f f1 f2.
  destruct (transform_fold (ps1 ++ ps2) empty_facts) as (Hp & Hv & Hh & Hr).
  destruct (transform_fold ps1 empty_facts) as (Hp1 & Hv1 & Hh1 & Hr1).
  destruct (transform_fold ps2 empty_facts) as (Hp2 & Hv2 & Hh2 & Hr2).
  fold (transform_properties_to_facts (ps1 ++ ps2)) in Hp, Hv, Hh, Hr.
  fold (transform_properties_to_facts ps1) in Hp1, Hv1, Hh1, Hr1.
  fold (transform_properties_to_facts ps2) in Hp2, Hv2, Hh2, Hr2.
  fold f in Hp, Hv, Hh, Hr. fold f1 in Hp1, Hv1, Hh1, Hr1. fold f2 in Hp2, Hv2, Hh2, Hr2.
  simpl in *.
  rewrite Hp, Hv, Hh, Hr, Hp1, Hv1, Hh1, Hr1, Hp2, Hv2, Hh2, Hr2.
  rewrite map_app, !child_rows_app. simpl.
  rewrite <- (child_rows_shift Property.valuation ValuationRow.make shift_valuation)
    by (intros k id [i c]; reflexivity).
  rewrite <- (child_rows_shift Property.hoa HoaRow.make shift_hoa)
    by (intros k id [i c]; reflexivity).
  rewrite <- (child_rows_shift Property.rehab RehabRow.make shift_rehab)
    by (intros k id [i c]; reflexivity).
  repeat split.
Qed.

(** X5.  In each child row list the keys (parent identifier, index) are
    strictly increasing in dictionary order: the rows stand grouped by
    parent in input order, and no key occurs twice. *)
Theorem child_keys_increase (ps : list Property.t) :
  let f := transform_properties_to_facts ps in
  let vk := map (fun r => (ValuationRow.property_id r, ValuationRow.valuation_index r))
              (valuations f) in
  let hk := map (fun r => (HoaRow.property_id r, HoaRow.hoa_index r)) (hoa_fees f) in
  let rk := map (fun r => (RehabRow.property_id r, RehabRow.rehab_index r))
              (rehab_assessments f) in
  (StronglySorted key_lt vk /\ List.NoDup vk)
  /\ (StronglySorted key_lt hk /\ List.NoDup hk)
  /\ (StronglySorted key_lt rk /\ List.NoDup rk).
Proof.
  intros f vk hk rk.
  destruct (transform_fold ps empty_facts) as (_ & Hv & Hh & Hr).
  fold (transform_properties_to_facts ps) in Hv, Hh, Hr. fold f in Hv, Hh, Hr.
  simpl in Hv, Hh, Hr.
  assert (Sv : StronglySorted key_lt vk).
  { unfold vk. rewrite Hv.
    apply (child_rows_keys_sorted Property.valuation ValuationRow.make
             ValuationRow.property_id ValuationRow.valuation_index);
      [intros id [i c]; reflexivity | intros id i c; reflexivity]. }
  assert (Sh : StronglySorted key_lt hk).
  { unfold hk. rewrite Hh.
    apply (child_rows_keys_sorted Property.hoa HoaRow.make
             HoaRow.property_id HoaRow.hoa_index);
      [intros id [i c]; reflexivity | intros id i c; reflexivity]. }
  assert (Sr : StronglySorted key_lt rk).
  { unfold rk. rewrite Hr.
    apply (child_rows_keys_sorted Property.rehab RehabRow.make
             RehabRow.property_id RehabRow.rehab_index);
      [intros id [i c]; reflexivity | intros id i c; reflexivity]. }
  repeat split; try assumption; now apply key_lt_sorted_nodup.
Qed.

(** ** The dimension extractor, further *)

Lemma add_if_truthy_size (v : option string) (s : gset string) :
  size (add_if_truthy v s) <= S (size s).
Proof.
  unfold add_if_truthy. destruct v as [x|]; [|lia].
  destruct (String.eqb x EmptyString); [lia|].
  rewrite size_union_alt.
  assert (Hle : size ({[x]} ∖ s : gset string) <= size ({[x]} : gset string)).
  { apply subseteq_size. intros y Hy. apply elem_of_difference in Hy. tauto. }
  rewrite size_singleton in Hle. lia.
Qed.

Lemma fold_add_size (get : PropertyRow.t -> option string) (rows : list PropertyRow.t)
    (s0 : gset string) :
  size (fold_left (fun s r => add_if_truthy (get r) s) rows s0) <= size s0 + length rows.
Proof.
  revert s0. induction rows as [|r rows IH]; intros s0; simpl; [lia|].
  specialize (IH (add_if_truthy (get r) s0)).
  pose proof (add_if_truthy_size (get r) s0). lia.
Qed.

Lemma dimensions_eq (d d' : dimensions) :
  markets d = markets d' -> sources d = sources d' ->
  property_types d = property_types d' -> layouts d = layouts d' -> d = d'.
Proof. destruct d, d'. simpl. intros -> -> -> ->. reflexivity. Qed.

(** X6.  The dimension sets do not depend on the order of the rows nor on
    how often a row occurs: two row lists with the same rows give the same
    sets. *)
Theorem dimensions_ignore_order_and_repeats (f f' : facts) :
  (forall row, In row (properties f) <-> In row (properties f')) ->
  extract_dimension_values f = extract_dimension_values f'.
Proof.
  intros H.
  destruct (dimension_fold (properties f) empty_dimensions) as (Hm & Hs & Ht & Hl).
  destruct (dimension_fold (properties f') empty_dimensions) as (Hm' & Hs' & Ht' & Hl').
  fold (extract_dimension_values f) in Hm, Hs, Ht, Hl.
  fold (extract_dimension_values f') in Hm', Hs', Ht', Hl'.
  assert (E : forall get : PropertyRow.t -> option string,
             fold_left (fun s r => add_if_truthy (get r) s) (properties f) (∅ : gset string)
             = fold_left (fun s r => add_if_truthy (get r) s) (properties f') ∅).
  { intros get. apply set_eq. intros x. rewrite !fold_add_elem. split.
    - intros [Hx|(Hx & row & Hin & Hrow)]; [now left|].
      right. split; [exact Hx|]. exists row. split; [now apply H|exact Hrow].
    - intros [Hx|(Hx & row & Hin & Hrow)]; [now left|].
      right. split; [exact Hx|]. exists row. split; [now apply H|exact Hrow]. }
  apply dimensions_eq.
  - rewrite Hm, Hm'. apply (E PropertyRow.market).
  - rewrite Hs, Hs'. apply (E PropertyRow.source).
  - rewrite Ht, Ht'. apply (E (fun r => Some (PropertyRow.property_type r))).
  - rewrite Hl, Hl'. apply (E PropertyRow.layout).
Qed.

Lemma dimensions_ignore_order_and_repeats_witness :
  let a := PropertyRow.of_property (sample_property "A" (Some "Dallas"%string) []) in
  let b := PropertyRow.of_property (sample_property "B" (Some "Austin"%string) []) in
  extract_dimension_values
    {| properties := [a; b]; valuations := []; hoa_fees := []; rehab_assessments := [] |}
  = extract_dimension_values
      {| properties := [b; a; a]; valuations := []; hoa_fees := []; rehab_assessments := [] |}.
Proof.
  intros a b. apply dimensions_ignore_order_and_repeats.
  intros row. simpl. tauto.
Defined.

(** X7.  [transform_properties] as a whole: a value is among the markets
    (sources, property types, layouts) it returns exactly when it is not
    empty and is the market (source, property type, layout) of one of the
    properties it was given, and no dimension set has more values than
    there are properties. *)
Theorem transform_properties_dimensions (ps : list Property.t) :
  let d := snd (transform_properties ps) in
  (forall x : string, x ∈ markets d
     <-> x <> EmptyString /\ exists p, In p ps /\ Property.market p = Some x)
  /\ (forall x : string, x ∈ sources d
     <-> x <> EmptyString /\ exists p, In p ps /\ Property.source p = Some x)
  /\ (forall x : string, x ∈ property_types d
     <-> x <> EmptyString /\ exists p, In p ps /\ Property.property_type p = x)
  /\ (forall x : string, x ∈ layouts d
     <-> x <> EmptyString /\ exists p, In p ps /\ Property.layout p = Some x)
  /\ size (markets d) <= length ps
  /\ size (sources d) <= length ps
  /\ size (property_types d) <= length ps
  /\ size (layouts d) <= length ps.
Proof.
  intros d. unfold transform_properties in d. simpl in d.
  destruct (transform_fold ps empty_facts) as (Hp & _).
  fold (transform_properties_to_facts ps) in Hp. simpl in Hp.
  destruct (dimension_fold (properties (transform_properties_to_facts ps)) empty_dimensions)
    as (Hm & Hs & Ht & Hl).
  fold (extract_dimension_values (transform_properties_to_facts ps)) in Hm, Hs, Ht, Hl.
  fold d in Hm, Hs, Ht, Hl. rewrite Hp in Hm, Hs, Ht, Hl. simpl in Hm, Hs, Ht, Hl.
  assert (M : forall (get : PropertyRow.t -> option string) (get' : Property.t -> option string)
                     (x : string),
             (forall p, get (PropertyRow.of_property p) = get' p) ->
             x ∈ fold_left (fun s r => add_if_truthy (get r) s)
                   (map PropertyRow.of_property ps) (∅ : gset string)
             <-> x <> EmptyString /\ exists p, In p ps /\ get' p = Some x).
  { intros get get' x Hg. rewrite fold_add_elem. split.
    - intros [Hx|(Hx & row & Hin & Hrow)]; [now apply not_elem_of_empty in Hx|].
      split; [exact Hx|]. apply in_map_iff in Hin. destruct Hin as (p & <- & Hin).
      exists p. split; [exact Hin|]. now rewrite <- Hg.
    - intros (Hx & p & Hin & Hp'). right. split; [exact Hx|].
      exists (PropertyRow.of_property p). split; [now apply in_map|]. now rewrite Hg. }
  assert (S : forall get : PropertyRow.t -> option string,
             size (fold_left (fun s r => add_if_truthy (get r) s)
                     (map PropertyRow.of_property ps) (∅ : gset string)) <= length ps).
  { intros get. pose proof (fold_add_size get (map PropertyRow.of_property ps) ∅) as Hsz.
    rewrite size_empty, length_map in Hsz. exact Hsz. }
  split; [|split; [|split; [|split; [|split; [|split; [|split]]]]]].
  - intros x. rewrite Hm. apply (M PropertyRow.market Property.market). reflexivity.
  - intros x. rewrite Hs. apply (M PropertyRow.source Property.source). reflexivity.
  - intros x. rewrite Ht.
    rewrite (M (fun r => Some (PropertyRow.property_type r))
               (fun p => Some (Property.property_type p)) x (fun p => eq_refl)).
    split; intros (Hx & p & Hin & Hp'); (split; [exact Hx|]); exists p; (split; [exact Hin|]);
      congruence.
  - intros x. rewrite Hl. apply (M PropertyRow.layout Property.layout). reflexivity.
  - rewrite Hm. apply S.
  - rewrite Hs. apply S.
  - rewrite Ht. apply (S (fun r => Some (PropertyRow.property_type r))).
  - rewrite Hl. apply S.
Qed.

(** ** The batch loop, further *)

(** X8.  Whatever [max_records] is, the records processed are a prefix of
    the records of the document.  With the value [run_etl] passes, they are
    the first [MAX_RECORDS] records when [MAX_RECORDS] is positive, and all
    of them otherwise. *)
Theorem max_records_keeps_a_prefix (max_records : option Z) (MAX_RECORDS : Z)
    (raw_data : pyvalue) :
  let all := records_of None raw_data in
  (exists k, records_of max_records raw_data = firstn k all)
  /\ records_of (etl_max_records MAX_RECORDS) raw_data
     = (if (0 <? MAX_RECORDS)%Z then firstn (Z.to_nat MAX_RECORDS) all else all)
  /\ length (records_of (etl_max_records MAX_RECORDS) raw_data)
     = (if (0 <? MAX_RECORDS)%Z then Nat.min (Z.to_nat MAX_RECORDS) (length all)
        else length all).
Proof.
  intros all. unfold records_of in *. fold all.
  assert (E : records_of (etl_max_records MAX_RECORDS) raw_data
              = (if (0 <? MAX_RECORDS)%Z then firstn (Z.to_nat MAX_RECORDS) all else all)).
  { unfold records_of, etl_max_records. fold all.
    destruct (0 <? MAX_RECORDS)%Z eqn:E; [|reflexivity].
    apply Z.ltb_lt in E.
    destruct (MAX_RECORDS =? 0)%Z eqn:E0; [apply Z.eqb_eq in E0; lia|].
    unfold slice_to. destruct (0 <=? MAX_RECORDS)%Z eqn:E1; [reflexivity|].
    apply Z.leb_gt in E1. lia. }
  split; [|split].
  - destruct max_records as [n|]; [|exists (length all); now rewrite firstn_all].
    destruct (n =? 0)%Z; [exists (length all); now rewrite firstn_all|].
    unfold slice_to. destruct (0 <=? n)%Z; eexists; reflexivity.
  - exact E.
  - unfold records_of in E. fold all in E. rewrite E.
    destruct (0 <? MAX_RECORDS)%Z; [apply length_firstn|reflexivity].
Qed.

Section ExtractMore.

Context {Errors : Type}.
Variable model_validate : pyvalue -> validation Errors.

Lemma validated_unique (l : list pyvalue) (ps ps' : list Property.t) :
  Forall2 (fun r p => model_validate r = Validated p) l ps ->
  Forall2 (fun r p => model_validate r = Validated p) l ps' -> ps = ps'.
Proof.
  intros H. revert ps'. induction H as [|r p l ps Hp _ IH]; intros ps' H'; inversion H'; subst;
    [reflexivity|]. f_equal; [congruence|]. now apply IH.
Qed.

Lemma validate_loop_skip_prefix (before : list pyvalue) :
  Forall (validates_or_fails model_validate) before ->
  forall idx rest valid invalid,
    validate_loop model_validate true idx (before ++ rest) valid invalid
    = validate_loop model_validate true (idx + length before) rest
        (valid ++ map snd (validated_from model_validate idx before))
        (invalid ++ failures_from model_validate idx before).
Proof.
  induction 1 as [|raw before Hraw _ IH]; intros idx rest valid invalid; simpl.
  - now rewrite !app_nil_r, Nat.add_0_r.
  - unfold validates_or_fails in Hraw.
    destruct (model_validate raw) as [p|e|x]; [| |contradiction].
    + rewrite IH. simpl. rewrite <- app_assoc. simpl. f_equal. lia.
    + rewrite IH. simpl. rewrite <- app_assoc. simpl. f_equal. lia.
Qed.

End ExtractMore.

(** X9.  When every record validates, the two modes do the same: the call
    returns, with every record validated in order and no invalid record,
    whether [skip_invalid] is set or not. *)
Theorem modes_agree_without_failures {Errors : Type}
    (model_validate : pyvalue -> validation Errors)
    (max_records : option Z) (raw_data : pyvalue) :
  Forall (fun r => exists p, model_validate r = Validated p) (records_of max_records raw_data) ->
  let out := load_properties_from_json model_validate max_records true raw_data in
  load_properties_from_json model_validate max_records false raw_data = out
  /\ how out = Returns
  /\ invalid_records out = []
  /\ Forall2 (fun r p => model_validate r = Validated p)
       (records_of max_records raw_data) (valid_properties out).
Proof.
  intros H out. unfold out, load_properties_from_json.
  set (records := records_of max_records raw_data) in *.
  destruct (validate_loop_valid_prefix model_validate records H true 1 [] [] [])
    as (ps & HF & Heq).
  destruct (validate_loop_valid_prefix model_validate records H false 1 [] [] [])
    as (ps' & HF' & Heq').
  rewrite app_nil_r in Heq, Heq'. rewrite Heq, Heq'. simpl.
  rewrite (validated_unique model_validate _ _ _ HF' HF). repeat split. exact HF.
Qed.

Lemma modes_agree_without_failures_witness :
  Forall (fun r => exists p, sample_validate r = Validated p)
    (records_of (Some 1%Z) sample_document)
  /\ load_properties_from_json sample_validate (Some 1%Z) false sample_document
     = load_properties_from_json sample_validate (Some 1%Z) true sample_document
  /\ map Property.property_title
       (valid_properties (load_properties_from_json sample_validate (Some 1%Z) true sample_document))
     = ["A"%string].
Proof.
  assert (H : Forall (fun r => exists p, sample_validate r = Validated p)
                (records_of (Some 1%Z) sample_document)).
  { constructor; [eexists; reflexivity|constructor]. }
  split; [exact H|].
  split; [exact (proj1 (modes_agree_without_failures sample_validate (Some 1%Z) sample_document H))|].
  reflexivity.
Defined.

(** X10.  An exception that is not a validation error ends the call even
    in the default mode: when the records before the first one that raises
    it validate or fail validation, the call raises that exception; up to
    that point the records were sorted into the two lists as usual, and
    nothing after the record is looked at. *)
Theorem other_exception_stops_the_batch {Errors : Type}
    (model_validate : pyvalue -> validation Errors)
    (max_records : option Z) (raw_data : pyvalue)
    (before : list pyvalue) (raw : pyvalue) (x : exn) (after : list pyvalue) :
  records_of max_records raw_data = before ++ raw :: after ->
  Forall (validates_or_fails model_validate) before ->
  model_validate raw = OtherException x ->
  let out := load_properties_from_json model_validate max_records true raw_data in
  out = {| valid_properties := map snd (validated_from model_validate 1 before);
           invalid_records := failures_from model_validate 1 before;
           how := RaisesOther x |}
  /\ forall after', validate_loop model_validate true 1 (before ++ raw :: after') [] [] = out.
Proof.
  intros Hrec Hbefore Hraw out.
  assert (Hrun : forall rest,
             validate_loop model_validate true 1 (before ++ raw :: rest) [] []
             = {| valid_properties := map snd (validated_from model_validate 1 before);
                  invalid_records := failures_from model_validate 1 before;
                  how := RaisesOther x |}).
  { intros rest. rewrite (validate_loop_skip_prefix model_validate before Hbefore).
    simpl. now rewrite Hraw. }
  assert (Hout : out = {| valid_properties := map snd (validated_from model_validate 1 before);
                          invalid_records := failures_from model_validate 1 before;
                          how := RaisesOther x |}).
  { unfold out, load_properties_from_json. rewrite Hrec. apply Hrun. }
  split; [exact Hout|]. intros after'. rewrite Hout. apply Hrun.
Qed.

Lemma other_exception_stops_the_batch_witness :
  let doc := PList [PDict []; PInt 7; PDict [("Property_Title"%string, PStr "C")]] in
  records_of None doc = [PDict []] ++ PInt 7 :: [PDict [("Property_Title"%string, PStr "C")]]
  /\ how (load_properties_from_json sample_validate_raising None true doc)
     = RaisesOther OverflowError
  /\ map record_index
       (invalid_records (load_properties_from_json sample_validate_raising None true doc))
     = [1]
  /\ valid_properties (load_properties_from_json sample_validate_raising None true doc) = [].
Proof.
  intros doc.
  assert (H1 : records_of None doc
               = [PDict []] ++ PInt 7 :: [PDict [("Property_Title"%string, PStr "C")]])
    by reflexivity.
  assert (H2 : Forall (validates_or_fails sample_validate_raising) [PDict []])
    by (repeat constructor).
  assert (H3 : sample_validate_raising (PInt 7) = OtherException OverflowError) by reflexivity.
  destruct (other_exception_stops_the_batch sample_validate_raising None doc _ _ _ _ H1 H2 H3)
    as [E _].
  split; [exact H1|]. rewrite E. repeat split.
Defined.

(** ** The field validators, further *)

Lemma yes_no_token_values (v : pyvalue) (tok : string) :
  yes_no_token v = Some tok -> tok = "YES"%string \/ tok = "NO"%string.
Proof.
  unfold yes_no_token. destruct v; try discriminate.
  destruct (String.eqb _ "yes"); [intros H; injection H as <-; now left|].
  destruct (String.eqb _ "no"); [intros H; injection H as <-; now right|discriminate].
Qed.

(** X11.  Normalising a flag twice is normalising it once, on every flag
    field: the validators leave their own results as they are. *)
Theorem flag_normalization_is_idempotent (f : flag_field) (v : pyvalue) :
  flag_field_before f (flag_field_before f v) = flag_field_before f v.
Proof.
  assert (Hchild : forall s,
             let r := match yes_no_token (PStr s) with Some tok => PStr tok | None => PNone end in
             HOARecord.validate_flag r = r /\ RehabRecord.normalize_flags r = r).
  { intros s. destruct (yes_no_token (PStr s)) as [tok|] eqn:E; [|split; reflexivity].
    destruct (yes_no_token_values _ _ E) as [-> | ->]; split; reflexivity. }
  assert (Hprop : forall s, Property.normalize_yes_no_flags (Property.normalize_yes_no_flags (PStr s))
                            = Property.normalize_yes_no_flags (PStr s)).
  { intros s. rewrite (property_flag_tri_state s).
    destruct (yes_no_token (PStr s)) as [tok|] eqn:E.
    - destruct (yes_no_token_values _ _ E) as [-> | ->]; reflexivity.
    - rewrite (property_flag_tri_state s), E. reflexivity. }
  destruct v as [| b | n | x | s | l | d]; try (destruct f; reflexivity).
  assert (EH : HOARecord.validate_flag (PStr s)
               = match yes_no_token (PStr s) with Some tok => PStr tok | None => PNone end).
  { unfold HOARecord.validate_flag. apply child_flag_tri_state. }
  assert (ER : RehabRecord.normalize_flags (PStr s)
               = match yes_no_token (PStr s) with Some tok => PStr tok | None => PNone end).
  { unfold RehabRecord.normalize_flags. apply child_flag_tri_state. }
  destruct f; unfold flag_field_before; try apply Hprop;
    try (rewrite EH; apply Hchild); rewrite ER; apply Hchild.
Qed.

Lemma drop_while_nil (p : ascii -> bool) (t : text) :
  drop_while p t = [] <-> forallb p t = true.
Proof.
  induction t as [|c t IH]; simpl; [tauto|].
  destruct (p c); simpl; [exact IH|]. split; discriminate.
Qed.

Lemma forallb_rev (p : ascii -> bool) (t : text) : forallb p (rev t) = forallb p t.
Proof.
  induction t as [|c t IH]; [reflexivity|].
  simpl. rewrite forallb_app, IH. simpl. rewrite andb_true_r. apply andb_comm.
Qed.

Lemma strip_nil (p : ascii -> bool) (t : text) :
  strip_with p t = [] <-> forallb p t = true.
Proof.
  unfold strip_with. rewrite <- drop_while_nil. split.
  - intros H. apply (f_equal (@rev ascii)) in H. rewrite rev_involutive in H. simpl in H.
    apply drop_while_nil in H. rewrite forallb_rev in H.
    pose proof (drop_while_stop p t) as Hs.
    destruct (drop_while p t) as [|c d]; [reflexivity|].
    simpl in H. rewrite Hs in H. discriminate.
  - intros ->. reflexivity.
Qed.

(** X12.  On the fields [reviewed_status], [occupancy] and [flood], a
    string made of whitespace only, the empty string among them, becomes
    absent; every other value, string or not, is handed on unchanged. *)
Theorem blank_strings_become_absent (v : pyvalue) :
  Property.normalize_empty_strings v
  = match v with
    | PStr s => if forallb is_space (list_ascii_of_string s) then PNone else v
    | _ => v
    end.
Proof.
  destruct v as [| b | n | x | s | l | d]; try reflexivity.
  unfold Property.normalize_empty_strings, str_strip.
  pose proof (strip_nil is_space (list_ascii_of_string s)) as H.
  destruct (strip_with is_space (list_ascii_of_string s)) as [|c r].
  - now rewrite (proj1 H eq_refl).
  - destruct (forallb is_space (list_ascii_of_string s)); [|reflexivity].
    now specialize (proj2 H eq_refl).
Qed.

(** X13.  Cleaning is idempotent: whatever [clean_sqft_total] returns, it
    returns again when given it. *)
Theorem clean_sqft_total_is_idempotent (v w : pyvalue) :
  Property.clean_sqft_total v = Return w -> Property.clean_sqft_total w = Return w.
Proof.
  assert (Hshape : Property.clean_sqft_total v = Return w -> w = PNone \/ exists f, w = PFloat f).
  { destruct v as [| b | n | x | s | l | d].
    - intros H. injection H as <-. now left.
    - intros H. injection H as <-. right. eexists. reflexivity.
    - unfold Property.clean_sqft_total, py_float, float_of_int.
      destruct (float_overflow_threshold <=? Z.abs n)%Z; [discriminate|].
      intros H. injection H as <-. right. eexists. reflexivity.
    - intros H. injection H as <-. right. eexists. reflexivity.
    - rewrite clean_sqft_total_str. intros H. injection H as <-.
      destruct (strip_then_parse s); [right; eexists; reflexivity|now left].
    - intros H. injection H as <-. now left.
    - intros H. injection H as <-. now left. }
  intros H. destruct (Hshape H) as [-> | [f ->]]; reflexivity.
Qed.

Lemma clean_sqft_total_is_idempotent_witness :
  Property.clean_sqft_total (PStr "5649 sqft") = Return (PFloat (Finite (inject_Z 5649)))
  /\ Property.clean_sqft_total (PFloat (Finite (inject_Z 5649)))
     = Return (PFloat (Finite (inject_Z 5649))).
Proof.
  assert (H : Property.clean_sqft_total (PStr "5649 sqft")
              = Return (PFloat (Finite (inject_Z 5649)))) by reflexivity.
  split; [exact H|]. exact (clean_sqft_total_is_idempotent _ _ H).
Defined.

Lemma drop_while_id (p : ascii -> bool) (t : text) :
  match t with c :: _ => p c = false | [] => True end -> drop_while p t = t.
Proof. destruct t as [|c t]; [reflexivity|]. simpl. now intros ->. Qed.

Lemma head_of_all (p : ascii -> bool) (t : text) :
  forallb (fun c => negb (p c)) t = true ->
  match t with c :: _ => p c = false | [] => True end.
Proof.
  destruct t as [|c t]; [exact (fun _ => I)|]. simpl. intros H.
  apply andb_prop in H. now apply negb_true_iff.
Qed.

(** Stripping a text that holds no character of the class changes nothing. *)
Lemma strip_without (p : ascii -> bool) (t : text) :
  forallb (fun c => negb (p c)) t = true -> strip_with p t = t.
Proof.
  intros H. unfold strip_with.
  rewrite (drop_while_id p t (head_of_all p t H)).
  rewrite drop_while_id; [apply rev_involutive|].
  apply head_of_all. now rewrite forallb_rev.
Qed.

Lemma strip_digit_underscores_step (prev : option ascii) (c : ascii) (t : text) :
  Ascii.eqb c "_" = false -> no_underscore_before prev ->
  strip_digit_underscores prev (c :: t)
  = option_map (cons c) (strip_digit_underscores (Some c) t).
Proof.
  intros Hc Hp. simpl. rewrite Hc. destruct prev as [x|]; [|reflexivity].
  simpl in Hp. destruct x as [[] [] [] [] [] [] [] []]; try reflexivity; discriminate.
Qed.

Lemma strip_digit_underscores_end (prev : option ascii) :
  no_underscore_before prev -> strip_digit_underscores prev [] = Some [].
Proof.
  intros Hp. destruct prev as [x|]; [|reflexivity].
  simpl in Hp. destruct x as [[] [] [] [] [] [] [] []]; try reflexivity; discriminate.
Qed.

Lemma strip_digit_underscores_without (t : text) (prev : option ascii) :
  forallb (fun c => negb (Ascii.eqb c "_")) t = true -> no_underscore_before prev ->
  strip_digit_underscores prev t = Some t.
Proof.
  revert prev. induction t as [|c t IH]; intros prev H Hp.
  - now apply strip_digit_underscores_end.
  - simpl in H. apply andb_prop in H. destruct H as [Hc Ht]. apply negb_true_iff in Hc.
    rewrite (strip_digit_underscores_step prev c t Hc Hp), (IH (Some c) Ht Hc). reflexivity.
Qed.

Lemma plain_cases (c : ascii) :
  is_plain c = true -> is_digit c = true \/ c = "."%char \/ c = "?"%char.
Proof.
  unfold is_plain. intros H. apply orb_prop in H. destruct H as [H|H].
  - apply orb_prop in H. destruct H as [H|H]; [now left|right; left].
    now apply Ascii.eqb_eq.
  - right. right. now apply Ascii.eqb_eq.
Qed.

Lemma plain_facts (c : ascii) :
  is_plain c = true ->
  is_ascii_space c = false /\ Ascii.eqb c "_" = false
  /\ Ascii.eqb (lower c) "e" = false
  /\ (forall r, parse_sign (c :: r) = (false, c :: r))
  /\ (forall w, String.eqb (String (lower c) w) "inf" = false
             /\ String.eqb (String (lower c) w) "infinity" = false
             /\ String.eqb (String (lower c) w) "nan" = false).
Proof.
  destruct c as [[] [] [] [] [] [] [] []]; intros H; try discriminate H;
    repeat split; reflexivity.
Qed.

(** What [float()] makes of a string of digits, superscripts and points:
    digits, points and question marks. *)
Lemma to_ascii_space_plain (t : text) :
  forallb Property.is_digit_or_point t = true ->
  forallb is_plain (to_ascii_space t) = true.
Proof.
  intros H. unfold to_ascii_space.
  destruct (forallb is_ascii t) eqn:E.
  - apply forallb_forall. intros c Hc.
    rewrite forallb_forall in H, E. specialize (H c Hc). specialize (E c Hc).
    revert H E. destruct c as [[] [] [] [] [] [] [] []]; vm_compute; congruence.
  - apply forallb_forall. intros c Hc. apply in_map_iff in Hc.
    destruct Hc as (x & <- & Hx). rewrite forallb_forall in H. specialize (H x Hx).
    revert H. destruct x as [[] [] [] [] [] [] [] []]; vm_compute; congruence.
Qed.

Lemma digit_value_nonneg (c : ascii) : is_digit c = true -> (0 <= digit_value c)%Z.
Proof.
  unfold is_digit, in_range, digit_value. intros H. apply andb_prop in H.
  destruct H as [H _]. apply N.leb_le in H. lia.
Qed.

Lemma digits_value_nonneg (t : text) : forallb is_digit t = true -> (0 <= digits_value t)%Z.
Proof.
  unfold digits_value.
  assert (G : forall acc, (0 <= acc)%Z -> forallb is_digit t = true ->
              (0 <= fold_left (fun a c => 10 * a + digit_value c) t acc)%Z).
  { induction t as [|c t IH]; intros a Ha H; simpl; [exact Ha|].
    simpl in H. apply andb_prop in H. destruct H as [Hc Ht].
    apply IH; [|exact Ht]. pose proof (digit_value_nonneg c Hc). lia. }
  intros H. apply G; [lia|exact H].
Qed.

(** A literal without a sign reads as a float that is not negative. *)
Lemma decimal_float_nonneg (m e : Z) :
  (0 <= m)%Z ->
  decimal_float false m e = Infinity false
  \/ exists x, decimal_float false m e = Finite x /\ (0 <= x)%Q.
Proof.
  intros Hm. unfold decimal_float.
  set (x := if (0 <=? e)%Z then inject_Z (m * 10 ^ e)
            else Qred (Qmake m (Z.to_pos (10 ^ (- e))))).
  destruct (Qle_bool (inject_Z float_overflow_threshold) x); [now left|right].
  exists x. split; [reflexivity|]. unfold x.
  destruct (0 <=? e)%Z eqn:E.
  - apply Z.leb_le in E. unfold Qle, inject_Z. simpl.
    pose proof (Z.pow_nonneg 10 e ltac:(lia)). nia.
  - rewrite Qred_correct. unfold Qle. simpl. lia.
Qed.

Lemma span_digits_of_plain (t : text) :
  forallb is_plain t = true ->
  forall a b, span is_digit t = (a, b) ->
    forallb is_digit a = true
    /\ forallb is_plain b = true
    /\ (b = [] \/ exists c r, b = c :: r /\ (c = "."%char \/ c = "?"%char)).
Proof.
  intros H a b E. destruct (span_inv _ _ _ _ E) as (-> & Ha & Hb).
  rewrite forallb_app in H. apply andb_prop in H. destruct H as [_ Hb'].
  split; [exact Ha|]. split; [exact Hb'|].
  destruct b as [|c r]; [now left|right]. exists c, r. split; [reflexivity|].
  simpl in Hb'. apply andb_prop in Hb'. destruct Hb' as [Hc _].
  destruct (plain_cases c Hc) as [Hd | H]; [congruence|exact H].
Qed.

Lemma parse_decimal_nonneg (t : text) :
  forallb is_plain t = true ->
  parse_decimal false t = None
  \/ parse_decimal false t = Some (Infinity false)
  \/ exists x, parse_decimal false t = Some (Finite x) /\ (0 <= x)%Q.
Proof.
  intros H. unfold parse_decimal.
  destruct (span is_digit t) as [ip r1] eqn:E1.
  destruct (span_digits_of_plain t H ip r1 E1) as (Hip & Hr1 & Hshape).
  assert (G : forall fp r2,
             forallb is_digit fp = true ->
             (r2 = [] \/ exists c r, r2 = c :: r /\ (c = "."%char \/ c = "?"%char)) ->
             let res :=
               match ip ++ fp with
               | [] => None
               | _ :: _ =>
                   match r2 with
                   | [] => Some (decimal_float false (digits_value (ip ++ fp))
                                   (- Z.of_nat (length fp)))
                   | c :: r3 =>
                       if Ascii.eqb (lower c) "e" then
                         let (eneg, r4) := parse_sign r3 in
                         let (ed, r5) := span is_digit r4 in
                         match ed, r5 with
                         | _ :: _, [] =>
                             Some (decimal_float false (digits_value (ip ++ fp))
                                     (- Z.of_nat (length fp)
                                      + (if eneg then - digits_value ed else digits_value ed)))
                         | _, _ => None
                         end
                       else None
                   end
               end in
             res = None \/ res = Some (Infinity false)
             \/ exists x, res = Some (Finite x) /\ (0 <= x)%Q).
  { intros fp r2 Hfp Hr2 res. unfold res.
    destruct (ip ++ fp) as [|d ds] eqn:Eall; [now left|].
    destruct Hr2 as [-> | (c & r & -> & [-> | ->])].
    - assert (Hm : (0 <= digits_value (d :: ds))%Z).
      { apply digits_value_nonneg. rewrite <- Eall. now apply forallb_app_intro. }
      destruct (decimal_float_nonneg (digits_value (d :: ds)) (- Z.of_nat (length fp)) Hm)
        as [-> | (x & -> & Hx)]; [right; now left|].
      right. right. now exists x.
    - now left.
    - now left. }
  destruct Hshape as [-> | (c & r & -> & [-> | ->])].
  - apply (G [] []); [reflexivity|now left].
  - destruct (span is_digit r) as [fp r2] eqn:E2.
    simpl in Hr1.
    destruct (span_digits_of_plain r Hr1 fp r2 E2) as (Hfp & _ & Hshape2).
    apply (G fp r2 Hfp Hshape2).
  - apply (G [] ("?"%char :: r)); [reflexivity|].
    right. exists "?"%char, r. split; [reflexivity|now right].
Qed.

Lemma float_of_digits_and_points (t : text) :
  forallb Property.is_digit_or_point t = true ->
  float_of_str t = None
  \/ float_of_str t = Some (Infinity false)
  \/ exists x, float_of_str t = Some (Finite x) /\ (0 <= x)%Q.
Proof.
  intros Ht. unfold float_of_str.
  pose proof (to_ascii_space_plain t Ht) as H.
  generalize dependent (to_ascii_space t). clear t Ht. intros t H.
  rewrite strip_without.
  2:{ eapply forallb_weaken; [|exact H]. intros c Hc.
      destruct (plain_facts c Hc) as (-> & _). reflexivity. }
  rewrite (strip_digit_underscores_without t None); [|  |exact I].
  2:{ eapply forallb_weaken; [|exact H]. intros c Hc.
      destruct (plain_facts c Hc) as (_ & -> & _). reflexivity. }
  destruct t as [|c r]; [now left|].
  assert (Hc : is_plain c = true)
    by (simpl in H; now apply andb_prop in H).
  destruct (plain_facts c Hc) as (_ & _ & _ & Hsign & Hword).
  unfold float_literal. rewrite Hsign.
  change (str (str_lower (c :: r))) with (String (lower c) (str (str_lower r))).
  destruct (Hword (str (str_lower r))) as (-> & -> & ->). simpl orb. cbv iota.
  apply parse_decimal_nonneg. exact H.
Qed.

(** X14.  A string never cleans to a negative number or to NaN: signs and
    exponents are stripped with the other characters, so the result is
    absent, a float that is not negative, or the positive infinity. *)
Theorem sqft_string_is_never_negative (s : string) :
  Property.clean_sqft_total (PStr s) = Return PNone
  \/ Property.clean_sqft_total (PStr s) = Return (PFloat (Infinity false))
  \/ exists x, Property.clean_sqft_total (PStr s) = Return (PFloat (Finite x)) /\ (0 <= x)%Q.
Proof.
  rewrite clean_sqft_total_str. unfold strip_then_parse.
  change (fun c => isdigit c || Ascii.eqb c ".") with Property.is_digit_or_point.
  destruct (float_of_digits_and_points
              (List.filter Property.is_digit_or_point (list_ascii_of_string s)))
    as [-> | [-> | (x & -> & Hx)]].
  - apply forallb_forall. intros c Hc. now apply filter_In in Hc.
  - now left.
  - right. now left.
  - right. right. now exists x.
Qed.

(** ** The repair engine, further *)

Lemma firstn_prefix (g0 post : text) (n : nat) :
  n = length g0 -> firstn n (g0 ++ post) = g0.
Proof.
  intros ->. rewrite firstn_app, Nat.sub_diag, firstn_all. simpl. apply app_nil_r.
Qed.

(** Group 0 of each pattern. *)

Lemma pattern_bareword_group0 (s w : text) (d : ascii) (n : nat) :
  pattern_bareword s = Some ((w, d), n) ->
  1 <= n /\ exists ws1 ws2,
    firstn n s = ":"%char :: ws1 ++ w ++ ws2 ++ [d] /\ all_space ws1 /\ all_space ws2.
Proof.
  unfold pattern_bareword. destruct s as [|c0 r0]; [discriminate|].
  destruct (Ascii.eqb c0 ":") eqn:E0; [|discriminate]. apply Ascii.eqb_eq in E0. subst c0.
  destruct (span is_space r0) as [ws1 r1] eqn:E1.
  destruct (span_inv _ _ _ _ E1) as (-> & Hws1 & _).
  destruct r1 as [|c r2]; [discriminate|].
  destruct (is_upper c); [|discriminate].
  destruct (span is_alpha r2) as [w' r3] eqn:E2.
  destruct (span_inv _ _ _ _ E2) as (-> & _ & _).
  destruct (span is_space r3) as [ws2 r4] eqn:E3.
  destruct (span_inv _ _ _ _ E3) as (-> & Hws2 & _).
  destruct r4 as [|d' post]; [discriminate|].
  destruct (is_value_delim d'); [|discriminate].
  intros H. injection H as <- <- <-. split; [lia|]. exists ws1, ws2.
  split; [|split; assumption].
  replace (":"%char :: ws1 ++ c :: w' ++ ws2 ++ d' :: post)
    with ((":"%char :: ws1 ++ (c :: w') ++ ws2 ++ [d']) ++ post)
    by (repeat (progress (simpl; rewrite <- ?app_assoc)); reflexivity).
  apply firstn_prefix. repeat (progress (simpl; rewrite ?length_app)). lia.
Qed.

Lemma optional_fraction_split (t fp r : text) :
  optional_fraction t = (fp, r) -> t = fp ++ r.
Proof. intros H. now apply optional_fraction_inv in H. Qed.

Lemma pattern_number_unit_group0 (s number unit : text) (d : ascii) (n : nat) :
  pattern_number_unit s = Some ((number, unit, d), n) ->
  1 <= n /\ exists ws1 ws2 ws3,
    firstn n s = ":"%char :: ws1 ++ number ++ ws2 ++ unit ++ ws3 ++ [d]
    /\ all_space ws1 /\ all_space ws2 /\ all_space ws3.
Proof.
  unfold pattern_number_unit. destruct s as [|c0 r0]; [discriminate|].
  destruct (Ascii.eqb c0 ":") eqn:E0; [|discriminate]. apply Ascii.eqb_eq in E0. subst c0.
  destruct (span is_space r0) as [ws1 r1] eqn:E1.
  destruct (span_inv _ _ _ _ E1) as (-> & Hws1 & _).
  destruct (span is_digit r1) as [ip r2] eqn:E2.
  destruct (span_inv _ _ _ _ E2) as (-> & _ & _).
  destruct ip as [|i0 ip]; [discriminate|].
  destruct (optional_fraction r2) as [fp r3] eqn:E3.
  pose proof (optional_fraction_split _ _ _ E3) as ->.
  destruct (span is_space r3) as [ws2 r4] eqn:E4.
  destruct (span_inv _ _ _ _ E4) as (-> & Hws2 & _).
  destruct ws2 as [|w0 ws2]; [discriminate|].
  destruct (span is_lower r4) as [u r5] eqn:E5.
  destruct (span_inv _ _ _ _ E5) as (-> & _ & _).
  destruct u as [|u0 u]; [discriminate|].
  destruct (span is_space r5) as [ws3 r6] eqn:E6.
  destruct (span_inv _ _ _ _ E6) as (-> & Hws3 & _).
  destruct r6 as [|d' post]; [discriminate|].
  destruct (is_value_delim d'); [|discriminate].
  intros H. injection H as <- <- <- <-. split; [lia|]. exists ws1, (w0 :: ws2), ws3.
  split; [|repeat split; assumption].
  replace (":"%char :: ws1 ++ (i0 :: ip) ++ fp ++ (w0 :: ws2) ++ (u0 :: u) ++ ws3 ++ d' :: post)
    with ((":"%char :: ws1 ++ ((i0 :: ip) ++ fp) ++ (w0 :: ws2) ++ (u0 :: u) ++ ws3 ++ [d'])
          ++ post)
    by (repeat (progress (simpl; rewrite <- ?app_assoc)); reflexivity).
  apply firstn_prefix. repeat (progress (simpl; rewrite ?length_app)). lia.
Qed.

Lemma pattern_trailing_comma_group0 (s : text) (c : ascii) (n : nat) :
  pattern_trailing_comma s = Some (c, n) ->
  1 <= n /\ exists ws, firstn n s = ","%char :: ws ++ [c] /\ all_space ws.
Proof.
  unfold pattern_trailing_comma. destruct s as [|c0 r0]; [discriminate|].
  destruct (Ascii.eqb c0 ",") eqn:E0; [|discriminate]. apply Ascii.eqb_eq in E0. subst c0.
  destruct (span is_space r0) as [ws r1] eqn:E1.
  destruct (span_inv _ _ _ _ E1) as (-> & Hws & _).
  destruct r1 as [|c' post]; [discriminate|].
  destruct (is_closer c'); [|discriminate].
  intros H. injection H as <- <-. split; [lia|]. exists ws. split; [|exact Hws].
  replace (","%char :: ws ++ c' :: post) with ((","%char :: ws ++ [c']) ++ post)
    by (repeat (progress (simpl; rewrite <- ?app_assoc)); reflexivity).
  apply firstn_prefix. repeat (progress (simpl; rewrite ?length_app)). lia.
Qed.

Lemma pattern_unquoted_key_group0 (s k : text) (n : nat) :
  pattern_unquoted_key s = Some (k, n) ->
  1 <= n /\ exists ws1 ws2,
    firstn n s = "{"%char :: ws1 ++ k ++ ws2 ++ [":"%char] /\ all_space ws1 /\ all_space ws2.
Proof.
  unfold pattern_unquoted_key. destruct s as [|c0 r0]; [discriminate|].
  destruct (Ascii.eqb c0 "{") eqn:E0; [|discriminate]. apply Ascii.eqb_eq in E0. subst c0.
  destruct (span is_space r0) as [ws1 r1] eqn:E1.
  destruct (span_inv _ _ _ _ E1) as (-> & Hws1 & _).
  destruct r1 as [|c r2]; [discriminate|].
  destruct (is_ident_start c); [|discriminate].
  destruct (span is_ident_char r2) as [k' r3] eqn:E2.
  destruct (span_inv _ _ _ _ E2) as (-> & _ & _).
  destruct (span is_space r3) as [ws2 r4] eqn:E3.
  destruct (span_inv _ _ _ _ E3) as (-> & Hws2 & _).
  destruct r4 as [|d post]; [discriminate|].
  destruct (Ascii.eqb d ":") eqn:Ed; [|discriminate]. apply Ascii.eqb_eq in Ed. subst d.
  intros H. injection H as <- <-. split; [lia|]. exists ws1, ws2.
  split; [|split; assumption].
  replace ("{"%char :: ws1 ++ c :: k' ++ ws2 ++ ":"%char :: post)
    with (("{"%char :: ws1 ++ (c :: k') ++ ws2 ++ [":"%char]) ++ post)
    by (repeat (progress (simpl; rewrite <- ?app_assoc)); reflexivity).
  apply firstn_prefix. repeat (progress (simpl; rewrite ?length_app)). lia.
Qed.

Lemma pattern_bare_number_group0 (s number : text) (d : ascii) (n : nat) :
  pattern_bare_number_in_object s = Some ((number, d), n) ->
  1 <= n /\ exists ws1 ws2,
    firstn n s = ","%char :: ws1 ++ number ++ ws2 ++ [d]
    /\ all_space ws1 /\ forallb is_digit number = true /\ all_space ws2.
Proof.
  unfold pattern_bare_number_in_object. destruct s as [|c0 r0]; [discriminate|].
  destruct (Ascii.eqb c0 ",") eqn:E0; [|discriminate]. apply Ascii.eqb_eq in E0. subst c0.
  destruct (span is_space r0) as [ws1 r1] eqn:E1.
  destruct (span_inv _ _ _ _ E1) as (-> & Hws1 & _).
  destruct (span is_digit r1) as [num r2] eqn:E2.
  destruct (span_inv _ _ _ _ E2) as (-> & Hnum & _).
  destruct num as [|n0 num]; [discriminate|].
  destruct (span is_space r2) as [ws2 r3] eqn:E3.
  destruct (span_inv _ _ _ _ E3) as (-> & Hws2 & _).
  destruct r3 as [|d' post]; [discriminate|].
  destruct (is_value_delim d'); [|discriminate].
  intros H. injection H as <- <- <-. split; [lia|]. exists ws1, ws2.
  split; [|repeat split; assumption].
  replace (","%char :: ws1 ++ (n0 :: num) ++ ws2 ++ d' :: post)
    with ((","%char :: ws1 ++ (n0 :: num) ++ ws2 ++ [d']) ++ post)
    by (repeat (progress (simpl; rewrite <- ?app_assoc)); reflexivity).
  apply firstn_prefix. repeat (progress (simpl; rewrite ?length_app)). lia.
Qed.

Lemma forallb_always {A : Type} (l : list A) : forallb (fun _ => true) l = true.
Proof. induction l; simpl; auto. Qed.

Section SubFiltered.

Context {G E : Type}.
Variable pattern : text -> option (G * nat).
Variable callback : text -> G -> text * list E.
Variable keep : ascii -> bool.
Variable safe : E -> bool.

Hypothesis step : forall s g n, pattern s = Some (g, n) ->
  1 <= n
  /\ (forallb safe (snd (callback (firstn n s) g)) = true ->
      List.filter keep (fst (callback (firstn n s) g)) = List.filter keep (firstn n s)).

(** A pass whose replacements keep the characters of [keep], wherever its
    entries are all [safe], keeps them in the whole text. *)
Lemma sub_filtered (t : text) :
  forallb safe (snd (re_sub pattern callback t)) = true ->
  List.filter keep (fst (re_sub pattern callback t)) = List.filter keep t.
Proof.
  unfold re_sub. remember (length t) as m eqn:Hm.
  assert (Hle : length t <= m) by lia. clear Hm. revert t Hle.
  induction m as [|m IH]; intros t Hle.
  - destruct t; [reflexivity|simpl in Hle; lia].
  - destruct t as [|c t]; [reflexivity|].
    rewrite sub_from_cons. destruct (pattern (c :: t)) as [[g n]|] eqn:Hp.
    + destruct (step _ _ _ Hp) as [Hn Hcb].
      destruct (callback (firstn n (c :: t)) g) as [r es]. simpl in Hcb.
      rewrite sub_from_skip.
      assert (Hlen : length (skipn (n - 1) t) <= m)
        by (rewrite length_skipn; simpl in Hle; lia).
      specialize (IH (skipn (n - 1) t) Hlen).
      destruct (sub_from pattern callback 0 (skipn (n - 1) t)) as [out log].
      simpl in *. rewrite forallb_app. intros H. apply andb_prop in H. destruct H as [H1 H2].
      rewrite List.filter_app, (Hcb H1), (IH H2), <- List.filter_app.
      f_equal. destruct n as [|n]; [lia|]. simpl. rewrite Nat.sub_0_r.
      now rewrite firstn_skipn.
    + assert (Hlen : length t <= m) by (simpl in Hle; lia).
      specialize (IH t Hlen).
      destruct (sub_from pattern callback 0 t) as [out log]. simpl in *.
      intros H. now rewrite (IH H).
Qed.

End SubFiltered.

Section EngineKeeps.

Variable word_to_num : string -> option Z.
Variable keep : ascii -> bool.
Variable safe : fix_entry -> bool.

Hypothesis keep_space : forall c, is_space c = true -> keep c = false.
Hypothesis keep_quote : keep dquote = false.
Hypothesis safe_conversion : forall a b, safe (ConvertedNumberWord a b) = false.
Hypothesis comma_removal :
  (forall c, safe (RemovedTrailingComma c) = false) \/ keep ","%char = false.
Hypothesis number_removal :
  (forall n, safe (RemovedBareNumber n) = false)
  \/ (keep ","%char = false /\ forall c, is_digit c = true -> keep c = false).

Lemma filter_spaces (ws : text) : all_space ws -> List.filter keep ws = [].
Proof.
  unfold all_space. induction ws as [|c ws IH]; simpl; [reflexivity|].
  intros H. apply andb_prop in H. destruct H as [Hc Hws].
  now rewrite (keep_space c Hc), IH.
Qed.

Lemma filter_cons (c : ascii) (t : text) :
  List.filter keep (c :: t) = List.filter keep [c] ++ List.filter keep t.
Proof. simpl. now destruct (keep c). Qed.

Lemma filter_quote (t : text) : List.filter keep (dquote :: t) = List.filter keep t.
Proof. simpl. now rewrite keep_quote. Qed.

Lemma filter_space_char (t : text) : List.filter keep (" "%char :: t) = List.filter keep t.
Proof. simpl. now rewrite (keep_space " "%char eq_refl). Qed.

Lemma bareword_pass_keeps (t : text) :
  forallb safe (snd (bareword_pass word_to_num t)) = true ->
  List.filter keep (fst (bareword_pass word_to_num t)) = List.filter keep t.
Proof.
  apply sub_filtered. intros s [w d] n Hp.
  destruct (pattern_bareword_group0 _ _ _ _ Hp) as (Hn & ws1 & ws2 & -> & Hws1 & Hws2).
  split; [exact Hn|]. unfold fix_any_bareword.
  destruct (is_reserved w); [reflexivity|].
  destruct (negb (text_eqb (try_convert_number_word word_to_num w) w)
            && str_isdigit (try_convert_number_word word_to_num w)).
  - simpl. now rewrite safe_conversion.
  - intros _. cbn [fst].
    rewrite (filter_cons ":"%char (" "%char :: _)), (filter_cons ":"%char (ws1 ++ _)).
    apply (f_equal (app _)). rewrite filter_space_char, filter_quote.
    rewrite !List.filter_app, (filter_spaces ws1 Hws1), (filter_spaces ws2 Hws2).
    rewrite ?app_nil_l. apply (f_equal (app _)). now rewrite filter_quote.
Qed.

Lemma number_unit_pass_keeps (t : text) :
  List.filter keep (fst (number_unit_pass t)) = List.filter keep t.
Proof.
  apply (sub_filtered pattern_number_unit fix_number_unit keep (fun _ => true)).
  - intros s [[number unit] d] n Hp.
    destruct (pattern_number_unit_group0 _ _ _ _ _ Hp)
      as (Hn & ws1 & ws2 & ws3 & -> & Hws1 & Hws2 & Hws3).
    split; [exact Hn|]. intros _. unfold fix_number_unit. cbn [fst].
    rewrite (filter_cons ":"%char (" "%char :: _)), (filter_cons ":"%char (ws1 ++ _)).
    apply (f_equal (app _)). rewrite filter_space_char, filter_quote.
    rewrite !List.filter_app, (filter_spaces ws1 Hws1), (filter_spaces ws2 Hws2),
      (filter_spaces ws3 Hws3).
    rewrite ?app_nil_l. apply (f_equal (app _)). rewrite filter_space_char, List.filter_app. apply (f_equal (app _)).
    now rewrite filter_quote.
  - apply forallb_always.
Qed.

Lemma trailing_comma_pass_keeps (t : text) :
  forallb safe (snd (trailing_comma_pass t)) = true ->
  List.filter keep (fst (trailing_comma_pass t)) = List.filter keep t.
Proof.
  apply sub_filtered. intros s c n Hp.
  destruct (pattern_trailing_comma_group0 _ _ _ Hp) as (Hn & ws & -> & Hws).
  split; [exact Hn|]. unfold fix_trailing_comma. simpl.
  destruct comma_removal as [Hs|Hk]; [now rewrite Hs|].
  intros _. rewrite Hk, List.filter_app, (filter_spaces ws Hws). reflexivity.
Qed.

Lemma unquoted_key_pass_keeps (t : text) :
  List.filter keep (fst (unquoted_key_pass t)) = List.filter keep t.
Proof.
  apply (sub_filtered pattern_unquoted_key fix_unquoted_key keep (fun _ => true)).
  - intros s k n Hp.
    destruct (pattern_unquoted_key_group0 _ _ _ Hp) as (Hn & ws1 & ws2 & -> & Hws1 & Hws2).
    split; [exact Hn|]. intros _. unfold fix_unquoted_key. cbn [fst].
    rewrite (filter_cons "{"%char (dquote :: _)), (filter_cons "{"%char (ws1 ++ _)).
    apply (f_equal (app _)). rewrite !filter_quote.
    rewrite !List.filter_app, (filter_spaces ws1 Hws1), (filter_spaces ws2 Hws2).
    rewrite ?app_nil_l. apply (f_equal (app _)). now rewrite filter_quote.
  - apply forallb_always.
Qed.

Lemma filter_digits (number : text) :
  (forall c, is_digit c = true -> keep c = false) ->
  forallb is_digit number = true -> List.filter keep number = [].
Proof.
  intros Hd. induction number as [|c number IH]; simpl; [reflexivity|].
  intros H. apply andb_prop in H. destruct H as [Hc Hn]. now rewrite (Hd c Hc), IH.
Qed.

Lemma bare_number_pass_keeps (t : text) :
  forallb safe (snd (bare_number_pass t)) = true ->
  List.filter keep (fst (bare_number_pass t)) = List.filter keep t.
Proof.
  apply sub_filtered. intros s [number d] n Hp.
  destruct (pattern_bare_number_group0 _ _ _ _ Hp)
    as (Hn & ws1 & ws2 & -> & Hws1 & Hnum & Hws2).
  split; [exact Hn|]. unfold fix_bare_number. cbn [fst snd].
  destruct number_removal as [Hs|[Hk Hd]]; [simpl; now rewrite Hs|].
  intros _. rewrite (filter_cons ","%char (ws1 ++ _)). simpl (List.filter keep [","%char]).
  rewrite Hk. simpl app.
  rewrite !List.filter_app, (filter_spaces ws1 Hws1), (filter_spaces ws2 Hws2),
    (filter_digits number Hd Hnum). reflexivity.
Qed.

(** The engine keeps the characters of [keep], in order, whenever all the
    entries of its log are [safe]. *)
Lemma repair_text_keeps (t : text) :
  forallb safe (snd (repair_text word_to_num t)) = true ->
  List.filter keep (fst (repair_text word_to_num t)) = List.filter keep t.
Proof.
  unfold repair_text.
  pose proof (bareword_pass_keeps t) as K1.
  destruct (bareword_pass word_to_num t) as [t1 f1].
  pose proof (number_unit_pass_keeps t1) as K2.
  destruct (number_unit_pass t1) as [t2 f2].
  pose proof (trailing_comma_pass_keeps t2) as K3.
  destruct (trailing_comma_pass t2) as [t3 f3].
  pose proof (unquoted_key_pass_keeps t3) as K4.
  destruct (unquoted_key_pass t3) as [t4 f4].
  pose proof (bare_number_pass_keeps t4) as K5.
  destruct (bare_number_pass t4) as [t5 f5].
  simpl in *. rewrite !forallb_app. intros H.
  apply andb_prop in H. destruct H as [H1 H].
  apply andb_prop in H. destruct H as [_ H].
  apply andb_prop in H. destruct H as [H3 H].
  apply andb_prop in H. destruct H as [_ H5].
  now rewrite (K5 H5), K4, (K3 H3), K2, (K1 H1).
Qed.

End EngineKeeps.

Lemma repair_values_text (word_to_num : string -> option Z) (raw : string) :
  list_ascii_of_string (fst (repair_bareword_values word_to_num raw))
  = fst (repair_text word_to_num (list_ascii_of_string raw))
  /\ snd (repair_bareword_values word_to_num raw)
     = snd (repair_text word_to_num (list_ascii_of_string raw)).
Proof.
  unfold repair_bareword_values.
  destruct (repair_text word_to_num (list_ascii_of_string raw)) as [out log]. simpl.
  split; [apply list_ascii_of_string_of_list_ascii|reflexivity].
Qed.

(** X15.  When the log reports quotings only (no converted number word,
    no removed comma, no removed number), the repaired text is the raw text
    up to whitespace and double quotes: every other character is kept, in
    order. *)
Theorem quoting_changes_layout_only (word_to_num : string -> option Z) (raw : string) :
  forallb is_quoting (snd (repair_bareword_values word_to_num raw)) = true ->
  without_layout (list_ascii_of_string (fst (repair_bareword_values word_to_num raw)))
  = without_layout (list_ascii_of_string raw).
Proof.
  destruct (repair_values_text word_to_num raw) as [-> ->].
  apply repair_text_keeps.
  - intros c Hc. now rewrite Hc.
  - unfold dquote. reflexivity.
  - reflexivity.
  - now left.
  - now left.
Qed.

Lemma quoting_changes_layout_only_witness :
  forallb is_quoting
    (snd (repair_bareword_values sample_word_to_num
            (str (q "{City : Springfield, 'SQFT_Total': 5649 sqft}")))) = true
  /\ without_layout
       (list_ascii_of_string
          (fst (repair_bareword_values sample_word_to_num
                  (str (q "{City : Springfield, 'SQFT_Total': 5649 sqft}")))))
     = without_layout
         (list_ascii_of_string (str (q "{City : Springfield, 'SQFT_Total': 5649 sqft}"))).
Proof.
  assert (H : forallb is_quoting
    (snd (repair_bareword_values sample_word_to_num
            (str (q "{City : Springfield, 'SQFT_Total': 5649 sqft}")))) = true)
    by (vm_compute; reflexivity).
  split; [exact H|]. exact (quoting_changes_layout_only sample_word_to_num _ H).
Defined.

(** X16.  Unless the log reports a converted number word, the engine
    changes nothing but whitespace, double quotes, commas and digits: every
    letter, brace, bracket, colon and other character of the raw text is in
    the repaired text, in the same order, and nothing else is. *)
Theorem repair_keeps_the_words (word_to_num : string -> option Z) (raw : string) :
  forallb (fun e => negb (is_conversion e)) (snd (repair_bareword_values word_to_num raw)) = true ->
  without_layout_commas_digits
    (list_ascii_of_string (fst (repair_bareword_values word_to_num raw)))
  = without_layout_commas_digits (list_ascii_of_string raw).
Proof.
  destruct (repair_values_text word_to_num raw) as [-> ->].
  apply repair_text_keeps.
  - intros c Hc. now rewrite Hc.
  - unfold dquote. reflexivity.
  - reflexivity.
  - now right.
  - right. split; [reflexivity|]. intros c Hc. rewrite Hc. now rewrite !orb_true_r.
Qed.

Lemma repair_keeps_the_words_witness :
  forallb (fun e => negb (is_conversion e))
    (snd (repair_bareword_values sample_word_to_num
            (str (q "{'Beds': [1, 2, 3], 'City': Springfield,}")))) = true
  /\ without_layout_commas_digits
       (list_ascii_of_string
          (fst (repair_bareword_values sample_word_to_num
                  (str (q "{'Beds': [1, 2, 3], 'City': Springfield,}")))))
     = without_layout_commas_digits
         (list_ascii_of_string (str (q "{'Beds': [1, 2, 3], 'City': Springfield,}"))).
Proof.
  assert (H : forallb (fun e => negb (is_conversion e))
    (snd (repair_bareword_values sample_word_to_num
            (str (q "{'Beds': [1, 2, 3], 'City': Springfield,}")))) = true)
    by (vm_compute; reflexivity).
  split; [exact H|]. exact (repair_keeps_the_words sample_word_to_num _ H).
Defined.

Lemma has_no_in (c : ascii) (t : text) : has_no c t = true -> In c t -> False.
Proof.
  unfold has_no. rewrite forallb_forall. intros H Hin. specialize (H c Hin).
  now rewrite Ascii.eqb_refl in H.
Qed.

Lemma no_match_without {G : Type} (pattern : text -> option (G * nat)) (h : ascii) (t : text) :
  (forall s g n, pattern s = Some (g, n) -> In h s) ->
  has_no h t = true -> every_suffix (no_match pattern) t = true.
Proof.
  intros Hp Hh. apply every_suffix_iff. intros pre s Hs. unfold no_match.
  destruct (pattern s) as [[g n]|] eqn:E; [|reflexivity].
  exfalso. apply (has_no_in h t Hh). rewrite Hs. apply in_or_app. right. now apply (Hp s g n).
Qed.

Lemma pattern_bareword_colon (s : text) g n : pattern_bareword s = Some (g, n) -> In ":"%char s.
Proof.
  destruct g as [w d]. intros H. apply pattern_bareword_inv in H.
  destruct H as (ws1 & ws2 & post & -> & _). now left.
Qed.

Lemma pattern_number_unit_colon (s : text) g n :
  pattern_number_unit s = Some (g, n) -> In ":"%char s.
Proof.
  destruct g as [[number unit] d]. intros H. apply pattern_number_unit_inv in H.
  destruct H as (_ & _ & _ & m & rest & -> & _). now left.
Qed.

Lemma pattern_unquoted_key_colon (s : text) g n :
  pattern_unquoted_key s = Some (g, n) -> In ":"%char s.
Proof.
  intros H. apply pattern_unquoted_key_inv in H.
  destruct H as (ws1 & ws2 & post & -> & _). right.
  apply in_or_app. right. apply in_or_app. right. apply in_or_app. right. now left.
Qed.

Lemma pattern_trailing_comma_comma (s : text) g n :
  pattern_trailing_comma s = Some (g, n) -> In ","%char s.
Proof.
  intros H. apply pattern_trailing_comma_inv in H.
  destruct H as (ws & post & -> & _). now left.
Qed.

Lemma pattern_bare_number_comma (s : text) g n :
  pattern_bare_number_in_object s = Some (g, n) -> In ","%char s.
Proof.
  destruct g as [number d]. intros H. apply pattern_bare_number_group0 in H.
  destruct H as (Hn & ws1 & ws2 & H & _).
  destruct s as [|c s]; [destruct n; [lia|discriminate]|].
  destruct n as [|n]; [lia|]. simpl in H. injection H as -> _. now left.
Qed.

(** X17.  A text with no colon and no comma is returned as it is, with an
    empty log: no rule of the engine applies to it. *)
Theorem text_without_colon_and_comma_is_untouched
    (word_to_num : string -> option Z) (raw : string) :
  has_no ":" (list_ascii_of_string raw) = true ->
  has_no "," (list_ascii_of_string raw) = true ->
  repair_bareword_values word_to_num raw = (raw, []).
Proof.
  intros Hcolon Hcomma. unfold repair_bareword_values, repair_text.
  unfold bareword_pass.
  rewrite (pass_without_match _ _ _
             (no_match_without _ _ _ pattern_bareword_colon Hcolon)).
  unfold number_unit_pass.
  rewrite (pass_without_match _ _ _
             (no_match_without _ _ _ pattern_number_unit_colon Hcolon)).
  unfold trailing_comma_pass.
  rewrite (pass_without_match _ _ _
             (no_match_without _ _ _ pattern_trailing_comma_comma Hcomma)).
  unfold unquoted_key_pass.
  rewrite (pass_without_match _ _ _
             (no_match_without _ _ _ pattern_unquoted_key_colon Hcolon)).
  unfold bare_number_pass.
  rewrite (pass_without_match _ _ _
             (no_match_without _ _ _ pattern_bare_number_comma Hcomma)).
  simpl. unfold str. now rewrite string_of_list_ascii_of_string.
Qed.

Lemma text_without_colon_and_comma_is_untouched_witness :
  has_no ":" (list_ascii_of_string "{Broken [True} null") = true
  /\ has_no "," (list_ascii_of_string "{Broken [True} null") = true
  /\ repair_bareword_values sample_word_to_num "{Broken [True} null"
     = ("{Broken [True} null"%string, []).
Proof.
  split; [reflexivity|]. split; [reflexivity|].
  apply text_without_colon_and_comma_is_untouched; reflexivity.
Defined.

Lemma str_of_int_isdigit (n : Z) : str_isdigit (str_of_int n) = true -> (0 <= n)%Z.
Proof.
  destruct n as [|p|p]; [lia|lia|]. intros H. exfalso.
  unfold str_of_int in H. cbn [Z.to_int NilZero.string_of_int list_ascii_of_string] in H.
  unfold str_isdigit in H. cbn [forallb] in H.
  assert (E : isdigit "-"%char = false) by reflexivity.
  rewrite E in H. discriminate.
Qed.

Lemma text_eqb_refl (a : text) : text_eqb a a = true.
Proof. induction a as [|x a IH]; simpl; [reflexivity|]. now rewrite Ascii.eqb_refl. Qed.

Lemma fix_any_bareword_entries (word_to_num : string -> option Z) (g0 : text) g :
  Forall (is_plain_conversion word_to_num) (snd (fix_any_bareword word_to_num g0 g)).
Proof.
  destruct g as [w d]. unfold fix_any_bareword.
  destruct (is_reserved w); [constructor|].
  destruct (negb (text_eqb (try_convert_number_word word_to_num w) w)
            && str_isdigit (try_convert_number_word word_to_num w)) eqn:E.
  - apply andb_prop in E. destruct E as [E1 E2].
    constructor; [|constructor]. unfold is_plain_conversion.
    unfold str at 1. rewrite list_ascii_of_string_of_list_ascii.
    unfold try_convert_number_word in *.
    destruct w as [|c w].
    + discriminate.
    + destruct (word_to_num (str (str_lower (c :: w)))) as [r|] eqn:Ew.
      * exists r. split; [now apply str_of_int_isdigit|]. now split.
      * rewrite text_eqb_refl in E1. discriminate.
  - constructor; [exact I|constructor].
Qed.

(** X18.  Every entry of the log for a converted number word tells of a
    conversion that [word_to_num] made: the logged word, in lower case, is
    one that [word_to_num] maps to a number that is not negative, and the
    logged replacement is the decimal writing of that number.  A word that
    [word_to_num] maps to a negative number is never replaced by it. *)
Theorem conversions_are_plain_numbers (word_to_num : string -> option Z) (raw : string) :
  Forall (is_plain_conversion word_to_num) (snd (repair_bareword_values word_to_num raw)).
Proof.
  destruct (repair_values_text word_to_num raw) as [_ ->].
  unfold repair_text.
  pose proof (sub_entries pattern_bareword (fix_any_bareword word_to_num)
                (is_plain_conversion word_to_num)
                (fix_any_bareword_entries word_to_num) 0 (list_ascii_of_string raw)) as H1.
  fold (re_sub pattern_bareword (fix_any_bareword word_to_num) (list_ascii_of_string raw)) in H1.
  fold (bareword_pass word_to_num (list_ascii_of_string raw)) in H1.
  destruct (bareword_pass word_to_num (list_ascii_of_string raw)) as [t1 f1].
  assert (H2 : Forall (is_plain_conversion word_to_num) (snd (number_unit_pass t1))).
  { apply sub_entries. intros g0 [[number unit] d]. repeat constructor. }
  destruct (number_unit_pass t1) as [t2 f2].
  assert (H3 : Forall (is_plain_conversion word_to_num) (snd (trailing_comma_pass t2))).
  { apply sub_entries. intros g0 c. repeat constructor. }
  destruct (trailing_comma_pass t2) as [t3 f3].
  assert (H4 : Forall (is_plain_conversion word_to_num) (snd (unquoted_key_pass t3))).
  { apply sub_entries. intros g0 k. repeat constructor. }
  destruct (unquoted_key_pass t3) as [t4 f4].
  assert (H5 : Forall (is_plain_conversion word_to_num) (snd (bare_number_pass t4))).
  { apply sub_entries. intros g0 [number d]. repeat constructor. }
  destruct (bare_number_pass t4) as [t5 f5].
  simpl in *. repeat (apply List.Forall_app; split); assumption.
Qed.

Lemma closer_facts c :
  is_closer c = true ->
  is_digit c = false /\ Ascii.eqb c ":" = false /\ Ascii.eqb c "," = false.
Proof. by_cases_on_class c. Qed.

Lemma no_match_without_class {G : Type} (pattern : text -> option (G * nat))
    (P : ascii -> bool) (t : text) :
  (forall s g n, pattern s = Some (g, n) -> existsb P s = true) ->
  forallb (fun x => negb (P x)) t = true -> every_suffix (no_match pattern) t = true.
Proof.
  intros Hp Hh. apply every_suffix_iff. intros pre s Hs. unfold no_match.
  destruct (pattern s) as [[g n]|] eqn:E; [|reflexivity].
  exfalso. apply Hp in E. apply existsb_exists in E. destruct E as (x & Hx & HP).
  rewrite forallb_forall in Hh. specialize (Hh x).
  rewrite HP in Hh. simpl in Hh. assert (false = true); [|discriminate].
  apply Hh. rewrite Hs. apply in_or_app. now right.
Qed.

Lemma pattern_bare_number_digit (s : text) g n :
  pattern_bare_number_in_object s = Some (g, n) -> existsb is_digit s = true.
Proof.
  unfold pattern_bare_number_in_object. destruct s as [|c0 r0]; [discriminate|].
  destruct (Ascii.eqb c0 ","); [|discriminate].
  destruct (span is_space r0) as [ws1 r1] eqn:E1.
  destruct (span_inv _ _ _ _ E1) as (-> & _ & _).
  destruct (span is_digit r1) as [num r2] eqn:E2.
  destruct (span_inv _ _ _ _ E2) as (-> & Hnum & _).
  destruct num as [|n0 num]; [discriminate|]. intros _.
  simpl in Hnum. apply andb_prop in Hnum. destruct Hnum as [H0 _].
  simpl. rewrite existsb_app. simpl. rewrite H0. simpl. now rewrite !orb_true_r.
Qed.

Lemma commas_then_closer (P : ascii -> bool) (n : nat) (c : ascii) :
  P ","%char = true -> P c = true -> forallb P (repeat ","%char n ++ [c]) = true.
Proof.
  intros H1 H2. rewrite forallb_app. simpl. rewrite H2. simpl. rewrite andb_true_r.
  induction n as [|n IH]; simpl; [reflexivity|]. now rewrite H1.
Qed.

Lemma trailing_comma_pass_run (n : nat) (c : ascii) :
  is_closer c = true ->
  trailing_comma_pass (repeat ","%char (S n) ++ [c])
  = (repeat ","%char n ++ [c], [RemovedTrailingComma (str [c])]).
Proof.
  intros Hc. unfold trailing_comma_pass, re_sub.
  induction n as [|n IH].
  - simpl repeat. simpl app. rewrite sub_from_cons.
    unfold pattern_trailing_comma. simpl. rewrite (closer_not_space c Hc), Hc. reflexivity.
  - change (repeat ","%char (S (S n)) ++ [c])
      with (","%char :: (repeat ","%char (S n) ++ [c])).
    rewrite sub_from_cons.
    assert (E : pattern_trailing_comma (","%char :: repeat ","%char (S n) ++ [c]) = None)
      by reflexivity.
    rewrite E, IH. reflexivity.
Qed.

(** X19.  The engine does not reach a fixed point in one call: of a run of
    commas before a closing brace or bracket, one call removes the last one
    only, and logs one removal. *)
Theorem comma_run_loses_one_comma (word_to_num : string -> option Z) (n : nat) (c : ascii) :
  is_closer c = true ->
  repair_bareword_values word_to_num (str (repeat ","%char (S n) ++ [c]))
  = (str (repeat ","%char n ++ [c]), [RemovedTrailingComma (str [c])]).
Proof.
  intros Hc. destruct (closer_facts c Hc) as (Hd & Hcolon & Hcomma).
  unfold repair_bareword_values, repair_text.
  unfold str at 1. rewrite list_ascii_of_string_of_list_ascii.
  assert (Hno : forall k, has_no ":" (repeat ","%char k ++ [c]) = true).
  { intros k. apply commas_then_closer; [reflexivity|now rewrite Hcolon]. }
  unfold bareword_pass.
  rewrite (pass_without_match _ _ _
             (no_match_without _ _ _ pattern_bareword_colon (Hno (S n)))).
  unfold number_unit_pass.
  rewrite (pass_without_match _ _ _
             (no_match_without _ _ _ pattern_number_unit_colon (Hno (S n)))).
  rewrite (trailing_comma_pass_run n c Hc).
  unfold unquoted_key_pass.
  rewrite (pass_without_match _ _ _
             (no_match_without _ _ _ pattern_unquoted_key_colon (Hno n))).
  unfold bare_number_pass.
  rewrite (pass_without_match _ _ _
             (no_match_without_class _ is_digit _ pattern_bare_number_digit
                (commas_then_closer (fun x => negb (is_digit x)) n c eq_refl
                   ltac:(cbv beta; now rewrite Hd)))).
  reflexivity.
Qed.

Lemma comma_run_loses_one_comma_witness :
  is_closer "]"%char = true
  /\ repair_bareword_values sample_word_to_num ",,,]" = (",,]"%string, [RemovedTrailingComma "]"]).
Proof.
  split; [reflexivity|]. exact (comma_run_loses_one_comma sample_word_to_num 2 "]"%char eq_refl).
Defined.

(** ** The loader and the pipeline *)

Section LoadFacts.

Variable succeeds : db_call -> bool.

(** The calls made are the calls planned, up to the first that raises. *)
Lemma run_calls_spec (calls : list db_call) :
  (run_calls succeeds calls = (calls, true) /\ forallb succeeds calls = true)
  \/ exists pre c post,
       calls = pre ++ c :: post /\ run_calls succeeds calls = (pre ++ [c], false)
       /\ forallb succeeds pre = true /\ succeeds c = false.
Proof.
  induction calls as [|c calls IH]; simpl; [now left|].
  destruct (succeeds c) eqn:Hc.
  - destruct IH as [[-> Hall] | (pre & c' & post & -> & -> & Hpre & Hc')].
    + left. now split.
    + right. exists (c :: pre), c', post. simpl. rewrite Hc. now repeat split.
  - right. exists [], c, calls. now repeat split.
Qed.

Lemma load_calls_sorted (f : facts) (sql_init_file : option string) :
  StronglySorted lt (map rank (load_calls f sql_init_file)).
Proof.
  unfold load_calls.
  destruct sql_init_file as [path|]; [destruct (String.eqb path EmptyString)|];
    destruct (properties f); destruct (valuations f); destruct (hoa_fees f);
    destruct (rehab_assessments f); simpl;
    repeat (constructor; [|repeat (constructor; try lia)]); constructor.
Qed.

Lemma load_calls_no_disconnect (f : facts) (sql_init_file : option string) :
  Forall (fun c => rank c < 6) (load_calls f sql_init_file).
Proof.
  unfold load_calls.
  destruct sql_init_file as [path|]; [destruct (String.eqb path EmptyString)|];
    destruct (properties f); destruct (valuations f); destruct (hoa_fees f);
    destruct (rehab_assessments f); simpl; repeat (constructor; try (simpl; lia)).
Qed.

(** In a list sorted by rank, what ranks before [c] stands before it. *)
Lemma sorted_before (l a b : list db_call) (c x : db_call) :
  StronglySorted lt (map rank l) -> l = a ++ c :: b -> In x l -> rank x < rank c -> In x a.
Proof.
  intros Hs -> Hin Hlt. apply in_app_or in Hin. destruct Hin as [Hin|Hin]; [exact Hin|].
  exfalso. rewrite map_app in Hs. simpl in Hs.
  assert (Hs' : StronglySorted lt (rank c :: map rank b)).
  { clear - Hs. induction a as [|y a IH]; simpl in Hs; [exact Hs|].
    apply IH. now inversion Hs. }
  inversion Hs' as [|? ? _ Hall]; subst.
  destruct Hin as [->|Hin]; [lia|].
  rewrite List.Forall_forall in Hall. specialize (Hall (rank x) (in_map rank b x Hin)). lia.
Qed.

End LoadFacts.

(** X20.  [load_to_database] stops at the first call that raises and
    disconnects in every case.  When it returns, it has made all the calls
    planned, in their order; when it raises, it has made the calls up to
    the one that raised, and no load after it. *)
Theorem load_stops_at_first_failure (succeeds : db_call -> bool) (f : facts)
    (sql_init_file : option string) :
  let planned := load_calls f sql_init_file in
  let (made, ok) := load_to_database succeeds f sql_init_file in
  if ok then made = planned ++ [Disconnect] /\ forallb succeeds planned = true
  else exists pre c post,
         planned = pre ++ c :: post /\ made = pre ++ [c; Disconnect]
         /\ forallb succeeds pre = true /\ succeeds c = false.
Proof.
  intros planned. unfold load_to_database. fold planned.
  destruct (run_calls_spec succeeds planned) as [[-> Hall] | (pre & c & post & Hp & -> & Hpre & Hc)].
  - now split.
  - exists pre, c, post. rewrite <- app_assoc. now repeat split.
Qed.

Lemma transform_parents (ps : list Property.t) :
  let f := fst (transform_properties ps) in
  properties f = map PropertyRow.of_property ps
  /\ (ps = [] -> valuations f = [] /\ hoa_fees f = [] /\ rehab_assessments f = []).
Proof.
  unfold transform_properties, transform_properties_to_facts. simpl.
  destruct (transform_fold ps empty_facts) as (Hp & Hv & Hh & Hr). simpl in *.
  split; [exact Hp|]. intros ->. now rewrite Hv, Hh, Hr.
Qed.

(** X21.  With the rows that the denormaliser makes, a table whose rows
    refer to [properties] is loaded only after the load of [properties]
    has been made and has returned: a child row never reaches the database
    before its parent. *)
Theorem children_are_loaded_after_parents (succeeds : db_call -> bool)
    (ps : list Property.t) (sql_init_file : option string)
    (before after : list db_call) (c : db_call) :
  let f := fst (transform_properties ps) in
  fst (load_to_database succeeds f sql_init_file) = before ++ c :: after ->
  is_child_load c = true ->
  In (LoadProperties (map PropertyRow.of_property ps)) before
  /\ succeeds (LoadProperties (map PropertyRow.of_property ps)) = true.
Proof.
  intros f Hcalls Hc.
  destruct (transform_parents ps) as [Hrows Hnone]. fold f in Hrows, Hnone.
  pose proof (load_calls_sorted f sql_init_file) as Hsorted.
  pose proof (load_calls_no_disconnect f sql_init_file) as Hrank.
  remember (load_calls f sql_init_file) as planned eqn:Eplanned.
  (* the calls made, without the last, are a beginning of the plan *)
  assert (Hmade : exists rest,
            planned = before ++ c :: rest /\ forallb succeeds before = true).
  { unfold load_to_database in Hcalls. rewrite <- Eplanned in Hcalls.
    destruct (run_calls_spec succeeds planned)
      as [[E Hall] | (pre & c' & post & Hp & E & Hpre & Hc')];
      rewrite E in Hcalls; cbn [fst] in Hcalls.
    - destruct (exists_last (l := after)) as (after' & d & ->).
      { intros ->. apply app_inj_tail in Hcalls. destruct Hcalls as [_ <-]. discriminate Hc. }
      change (before ++ c :: after' ++ [d]) with (before ++ (c :: after') ++ [d]) in Hcalls.
      rewrite app_assoc in Hcalls. apply app_inj_tail in Hcalls. destruct Hcalls as [Hp _].
      exists after'. split; [exact Hp|].
      rewrite Hp, forallb_app in Hall. now apply andb_prop in Hall.
    - destruct (exists_last (l := after)) as (after' & d & ->).
      { intros ->. apply app_inj_tail in Hcalls. destruct Hcalls as [_ <-]. discriminate Hc. }
      change (before ++ c :: after' ++ [d]) with (before ++ (c :: after') ++ [d]) in Hcalls.
      rewrite app_assoc in Hcalls. apply app_inj_tail in Hcalls. destruct Hcalls as [Hm _].
      (* pre ++ [c'] = before ++ c :: after' *)
      destruct (exists_last (l := c :: after')) as (mid & e & Hmid); [discriminate|].
      rewrite Hmid, app_assoc in Hm.
      apply app_inj_tail in Hm. destruct Hm as [Hpre' <-].
      subst pre. rewrite forallb_app in Hpre. apply andb_prop in Hpre.
      destruct Hpre as [Hbefore _].
      destruct mid as [|m mid]; simpl in Hmid.
      + injection Hmid as <- ->. exists post. split; [|exact Hbefore].
        rewrite Hp, app_nil_r. reflexivity.
      + injection Hmid as <- ->. exists (mid ++ c' :: post). split; [|exact Hbefore].
        rewrite Hp, <- !app_assoc. reflexivity. }
  destruct Hmade as (rest & Hp & Hbefore).
  (* a child table with rows means that there are properties *)
  assert (Hps : ps <> []).
  { intros E. destruct (Hnone E) as (Hv & Hh & Hr).
    assert (Hin : In c planned) by (rewrite Hp; apply in_or_app; right; now left).
    rewrite Eplanned in Hin. unfold load_calls in Hin.
    rewrite Hv, Hh, Hr, Hrows, E in Hin. simpl in Hin.
    destruct Hin as [<-|Hin]; [discriminate|].
    destruct sql_init_file as [path|]; [destruct (String.eqb path EmptyString)|];
      simpl in Hin; intuition (subst; discriminate). }
  assert (Hin : In (LoadProperties (map PropertyRow.of_property ps)) planned).
  { rewrite Eplanned. unfold load_calls. rewrite Hrows. right. apply in_or_app. right.
    destruct ps as [|p ps']; [contradiction|]. now left. }
  assert (Hb : In (LoadProperties (map PropertyRow.of_property ps)) before).
  { apply (sorted_before planned before rest c _ Hsorted Hp Hin).
    destruct c; try discriminate; simpl; lia. }
  split; [exact Hb|].
  rewrite forallb_forall in Hbefore. now apply Hbefore.
Qed.

Lemma children_are_loaded_after_parents_witness :
  fst (load_to_database sample_database
         (fst (transform_properties [sample_property "A" None [sample_valuation 100]]))
         None)
  = [Connect;
     LoadProperties
       (map PropertyRow.of_property [sample_property "A" None [sample_valuation 100]])]
    ++ LoadValuations
         (valuations
            (fst (transform_properties [sample_property "A" None [sample_valuation 100]])))
       :: [Disconnect]
  /\ In (LoadProperties
           (map PropertyRow.of_property [sample_property "A" None [sample_valuation 100]]))
        [Connect;
         LoadProperties
           (map PropertyRow.of_property [sample_property "A" None [sample_valuation 100]])]
  /\ sample_database
       (LoadProperties
          (map PropertyRow.of_property [sample_property "A" None [sample_valuation 100]]))
     = true.
Proof.
  assert (H : fst (load_to_database sample_database
         (fst (transform_properties [sample_property "A" None [sample_valuation 100]]))
         None)
  = [Connect;
     LoadProperties
       (map PropertyRow.of_property [sample_property "A" None [sample_valuation 100]])]
    ++ LoadValuations
         (valuations
            (fst (transform_properties [sample_property "A" None [sample_valuation 100]])))
       :: [Disconnect]) by reflexivity.
  split; [exact H|].
  exact (children_are_loaded_after_parents sample_database _ None _ _ _ H eq_refl).
Defined.

Lemma preprocess_cleaned (word_to_num : string -> option Z)
    (json_loads : string -> json_result) (raw : string) :
  fst (preprocess_json_string word_to_num json_loads raw)
  = fst (repair_bareword_values word_to_num raw).
Proof.
  unfold preprocess_json_string.
  destruct (repair_bareword_values word_to_num raw) as [cleaned fixes]. simpl.
  now destruct (json_loads cleaned).
Qed.

Lemma load_calls_shape (f : facts) (sql_init_file : option string) :
  exists tl, load_calls f sql_init_file = Connect :: tl
             /\ Forall (fun c => 0 < rank c < 6) tl.
Proof.
  unfold load_calls. eexists. split; [reflexivity|].
  destruct sql_init_file as [path|]; [destruct (String.eqb path EmptyString)|];
    destruct (properties f); destruct (valuations f); destruct (hoa_fees f);
    destruct (rehab_assessments f); simpl; repeat (constructor; try (simpl; lia)).
Qed.

Section PipelineFacts.

Variable word_to_num : string -> option Z.
Variable json_loads : string -> json_result.
Variable Errors : Type.
Variable model_validate : pyvalue -> validation Errors.
Variable succeeds : db_call -> bool.

(** A run that reaches the database has read the file, parsed the
    repaired text, validated at least one record, and loaded what the
    denormaliser made of the valid records. *)
Lemma run_etl_cases (json_file : option string) (MAX_RECORDS : Z) (SKIP_INVALID : bool)
    (SQL_SCHEMA_FILE : string) :
  run_etl word_to_num json_loads Errors model_validate succeeds
    json_file MAX_RECORDS SKIP_INVALID SQL_SCHEMA_FILE = (false, [])
  \/ exists raw doc,
       json_file = Some raw
       /\ json_loads (fst (repair_bareword_values word_to_num raw)) = JsonValue doc
       /\ let out := load_properties_from_json model_validate
                       (etl_max_records MAX_RECORDS) SKIP_INVALID doc in
          how out = Returns /\ valid_properties out <> []
          /\ run_etl word_to_num json_loads Errors model_validate succeeds
               json_file MAX_RECORDS SKIP_INVALID SQL_SCHEMA_FILE
             = (snd (load_to_database succeeds
                       (fst (transform_properties (valid_properties out)))
                       (Some SQL_SCHEMA_FILE)),
                fst (load_to_database succeeds
                       (fst (transform_properties (valid_properties out)))
                       (Some SQL_SCHEMA_FILE))).
Proof.
  unfold run_etl, load_properties_from_file.
  destruct json_file as [raw|]; [|now left].
  pose proof (preprocess_cleaned word_to_num json_loads raw) as Hc.
  destruct (preprocess_json_string word_to_num json_loads raw) as [cleaned s].
  simpl in Hc. subst cleaned.
  destruct (json_loads (fst (repair_bareword_values word_to_num raw))) as [doc|l c m] eqn:Ej;
    [|now left].
  destruct (how (load_properties_from_json model_validate (etl_max_records MAX_RECORDS)
                   SKIP_INVALID doc)) eqn:Eh; try now left.
  destruct (valid_properties (load_properties_from_json model_validate
              (etl_max_records MAX_RECORDS) SKIP_INVALID doc)) as [|p ps] eqn:Ev; [now left|].
  right. exists raw, doc. split; [reflexivity|]. split; [exact Ej|].
  cbv zeta. rewrite Eh, Ev. split; [reflexivity|]. split; [discriminate|].
  unfold transform_properties.
  destruct (load_to_database succeeds _ (Some SQL_SCHEMA_FILE)) as [made ok]. reflexivity.
Qed.

End PipelineFacts.

(** X22.  When [run_etl] returns [True], the file was read, the repaired
    text parsed, the validation loop returned with at least one valid
    record, and every planned call to the database was made and returned,
    among them the load of one row for each valid record, in the order of
    the records. *)
Theorem successful_run_loads_every_valid_record
    (word_to_num : string -> option Z) (json_loads : string -> json_result)
    (Errors : Type) (model_validate : pyvalue -> validation Errors)
    (succeeds : db_call -> bool)
    (json_file : option string) (MAX_RECORDS : Z) (SKIP_INVALID : bool)
    (SQL_SCHEMA_FILE : string) :
  fst (run_etl word_to_num json_loads Errors model_validate succeeds
         json_file MAX_RECORDS SKIP_INVALID SQL_SCHEMA_FILE) = true ->
  exists raw doc,
    json_file = Some raw
    /\ json_loads (fst (repair_bareword_values word_to_num raw)) = JsonValue doc
    /\ let out := load_properties_from_json model_validate
                    (etl_max_records MAX_RECORDS) SKIP_INVALID doc in
       let planned := load_calls (fst (transform_properties (valid_properties out)))
                        (Some SQL_SCHEMA_FILE) in
       how out = Returns /\ valid_properties out <> []
       /\ snd (run_etl word_to_num json_loads Errors model_validate succeeds
                 json_file MAX_RECORDS SKIP_INVALID SQL_SCHEMA_FILE)
          = planned ++ [Disconnect]
       /\ forallb succeeds planned = true
       /\ In (LoadProperties (map PropertyRow.of_property (valid_properties out))) planned.
Proof.
  intros Hok.
  destruct (run_etl_cases word_to_num json_loads Errors model_validate succeeds
              json_file MAX_RECORDS SKIP_INVALID SQL_SCHEMA_FILE)
    as [E | (raw & doc & Hf & Hj & Hh & Hv & E)].
  - rewrite E in Hok. discriminate.
  - exists raw, doc. split; [exact Hf|]. split; [exact Hj|]. cbv zeta.
    split; [exact Hh|]. split; [exact Hv|].
    rewrite E in Hok |- *. cbn [fst snd] in *.
    unfold load_to_database in *.
    destruct (run_calls_spec succeeds
                (load_calls (fst (transform_properties
                   (valid_properties (load_properties_from_json model_validate
                      (etl_max_records MAX_RECORDS) SKIP_INVALID doc))))
                   (Some SQL_SCHEMA_FILE)))
      as [[R Hall] | (pre & c & post & _ & R & _)]; rewrite R in Hok |- *.
    + cbn [fst snd]. split; [reflexivity|]. split; [exact Hall|].
      destruct (transform_parents (valid_properties (load_properties_from_json model_validate
                  (etl_max_records MAX_RECORDS) SKIP_INVALID doc))) as [Hrows _].
      cbv zeta in Hrows. unfold load_calls. rewrite Hrows. right. apply in_or_app. right.
      destruct (valid_properties (load_properties_from_json model_validate
                  (etl_max_records MAX_RECORDS) SKIP_INVALID doc)) as [|p ps];
        [contradiction|]. now left.
    + discriminate.
Qed.

Lemma successful_run_loads_every_valid_record_witness :
  fst (run_etl sample_word_to_num sample_json_loads string sample_validate sample_database
         (Some (str (q "[{'Property_Title': 'A'}, {}, {'Property_Title': 'C'}]")))
         0 true "sql/01_schema.sql") = true
  /\ In (LoadProperties
           (map PropertyRow.of_property [sample_property "A" None []; sample_property "C" None []]))
        (snd (run_etl sample_word_to_num sample_json_loads string sample_validate
                sample_database
                (Some (str (q "[{'Property_Title': 'A'}, {}, {'Property_Title': 'C'}]")))
                0 true "sql/01_schema.sql")).
Proof.
  assert (H : fst (run_etl sample_word_to_num sample_json_loads string sample_validate
                     sample_database
                     (Some (str (q "[{'Property_Title': 'A'}, {}, {'Property_Title': 'C'}]")))
                     0 true "sql/01_schema.sql") = true) by (vm_compute; reflexivity).
  split; [exact H|].
  destruct (successful_run_loads_every_valid_record _ _ _ _ _ _ _ _ _ H)
    as (raw & doc & Hf & Hj & _ & _ & Hcalls & _ & Hin).
  injection Hf as <-.
  assert (Hd : JsonValue doc = JsonValue sample_document)
    by (rewrite <- Hj; vm_compute; reflexivity).
  injection Hd as ->. rewrite Hcalls. apply in_or_app. left. exact Hin.
Defined.

(** X23.  [run_etl] never leaves a connection open, and never opens one
    when there is nothing to load.  Either it makes no call to the database
    and returns [False], or at least one record was validated, its first
    call is [connect], its last is [disconnect], and neither occurs in
    between. *)
Theorem run_etl_closes_what_it_opens
    (word_to_num : string -> option Z) (json_loads : string -> json_result)
    (Errors : Type) (model_validate : pyvalue -> validation Errors)
    (succeeds : db_call -> bool)
    (json_file : option string) (MAX_RECORDS : Z) (SKIP_INVALID : bool)
    (SQL_SCHEMA_FILE : string) :
  let r := run_etl word_to_num json_loads Errors model_validate succeeds
             json_file MAX_RECORDS SKIP_INVALID SQL_SCHEMA_FILE in
  r = (false, [])
  \/ exists raw doc mid,
       json_file = Some raw
       /\ json_loads (fst (repair_bareword_values word_to_num raw)) = JsonValue doc
       /\ valid_properties (load_properties_from_json model_validate
            (etl_max_records MAX_RECORDS) SKIP_INVALID doc) <> []
       /\ snd r = Connect :: mid ++ [Disconnect]
       /\ Forall (fun c => c <> Connect /\ c <> Disconnect) mid.
Proof.
  intros r. subst r.
  destruct (run_etl_cases word_to_num json_loads Errors model_validate succeeds
              json_file MAX_RECORDS SKIP_INVALID SQL_SCHEMA_FILE)
    as [E | (raw & doc & Hf & Hj & Hh & Hv & E)]; [now left|].
  right. exists raw, doc. rewrite E. cbn [snd]. unfold load_to_database.
  set (f := fst (transform_properties (valid_properties (load_properties_from_json
                 model_validate (etl_max_records MAX_RECORDS) SKIP_INVALID doc)))).
  destruct (load_calls_shape f (Some SQL_SCHEMA_FILE)) as (tl & Hshape & Htl).
  assert (Hmid : forall l, Forall (fun c => 0 < rank c < 6) l ->
                           Forall (fun c => c <> Connect /\ c <> Disconnect) l).
  { intros l. apply List.Forall_impl. intros c Hc. split; intros ->; simpl in Hc; lia. }
  destruct (run_calls_spec succeeds (load_calls f (Some SQL_SCHEMA_FILE)))
    as [[R _] | (pre & c & post & Hp & R & _ & _)]; rewrite R; cbn [fst].
  - exists tl. rewrite Hshape. do 4 (split; [assumption || reflexivity|]). now apply Hmid.
  - rewrite Hshape in Hp. destruct pre as [|c0 pre]; simpl in Hp; injection Hp as <- Hp.
    + exists []. do 4 (split; [assumption || reflexivity|]). constructor.
    + exists (pre ++ [c]). do 3 (split; [assumption|]).
      split; [simpl; now rewrite <- !app_assoc|].
      apply Hmid. rewrite Hp in Htl. apply List.Forall_app in Htl. destruct Htl as [H1 H2].
      apply List.Forall_app. split; [exact H1|]. constructor; [|constructor].
      now inversion H2.
Qed.

(** ** The context of a parse error *)

Lemma is_marked_context_line (lines : list text) (lineno i : nat) :
  is_marked (context_line lines lineno i) = Nat.eqb (i + 1) lineno.
Proof. unfold context_line, is_marked. now destruct (Nat.eqb (i + 1) lineno). Qed.

Lemma filter_map_length {A B : Type} (p : B -> bool) (f : A -> B) (l : list A) :
  length (List.filter p (map f l)) = length (List.filter (fun x => p (f x)) l).
Proof.
  induction l as [|x l IH]; simpl; [reflexivity|].
  destruct (p (f x)); simpl; now rewrite IH.
Qed.

Lemma none_in_seq (k a n : nat) :
  k < a -> List.filter (fun i => Nat.eqb (i + 1) (k + 1)) (seq a n) = [].
Proof.
  revert a. induction n as [|n IH]; intros a Ha; simpl; [reflexivity|].
  destruct (Nat.eqb_spec (a + 1) (k + 1)); [lia|]. apply IH. lia.
Qed.

Lemma one_in_seq (k a n : nat) :
  a <= k < a + n -> length (List.filter (fun i => Nat.eqb (i + 1) (k + 1)) (seq a n)) = 1.
Proof.
  revert a. induction n as [|n IH]; intros a Ha; [lia|]. simpl.
  destruct (Nat.eqb_spec (a + 1) (k + 1)).
  - simpl. rewrite none_in_seq; [reflexivity|lia].
  - apply IH. lia.
Qed.

(** X24.  The context of a parse error has at most three lines.  When the
    line of the error is a line of the text, exactly one line of the
    context carries the marker: the one that shows the number of that line
    and its first hundred characters. *)
Theorem error_context_marks_the_line (cleaned : text) (lineno : nat) :
  length (context_lines cleaned lineno) <= 3
  /\ (1 <= lineno <= length (split_on newline cleaned) ->
      length (List.filter is_marked (context_lines cleaned lineno)) = 1
      /\ In (list_ascii_of_string ">>> Line " ++ str_of_nat lineno
             ++ list_ascii_of_string ": "
             ++ firstn 100 (nth (lineno - 1) (split_on newline cleaned) []))
            (context_lines cleaned lineno)).
Proof.
  unfold context_lines. cbv zeta. split.
  - rewrite length_map, length_seq. lia.
  - intros Hl. split.
    + rewrite filter_map_length.
      rewrite (List.filter_ext _ (fun i => Nat.eqb (i + 1) ((lineno - 1) + 1))).
      * apply one_in_seq. lia.
      * intros i. rewrite is_marked_context_line. f_equal. lia.
    + apply in_map_iff. exists (lineno - 1). split.
      * unfold context_line.
        replace (lineno - 1 + 1) with lineno by lia. rewrite Nat.eqb_refl. reflexivity.
      * apply in_seq. lia.
Qed.
